(** * dexon-consensus: the lattice facade, the consensus entry point and the
    integration statistics, embedded in Rocq.

  Sources embedded here:
  - [core/lattice.go]: [NewLattice], [Lattice.PrepareBlock],
    [Lattice.SanityCheck], [Lattice.ProcessBlock], [Lattice.NextPosition],
    [Lattice.AppendConfig];
  - [core/consensus.go]: [NewConsensus] (threshold), [Consensus.sanityCheck],
    [Consensus.processBlock], [Consensus.checkPrepareBlock],
    [Consensus.prepareBlock], [Consensus.PrepareGenesisBlock],
    [Consensus.PreProcessBlock], [Consensus.ProcessVote], the choice of the
    chain in [Consensus.RunLegacy];
  - the statistics collector of the integration tests: [StatsSet],
    [NewStats], [Stats.calculate], [Stats.summary];
  - the block chains of the crypto test suite: [prepareBlock], [newBlock],
    [generateCompactionChain], [generateBlockChain].

  Blocks are Go pointers ([*types.Block]): they live in a heap and the
  modules hold addresses.  The modules whose code is not part of the
  embedded sources (block pool, lattice data, total ordering, timestamps,
  reliable broadcast, compaction chain, crypto, database, application) are
  interfaces, given as type classes. *)

From Stdlib Require Import ZArith List Bool Lia.
From Stdlib Require Import Floats.SpecFloat.
From stdpp Require Import base option list gmap strings sorting.

Set Default Proof Using "Type".
Open Scope Z_scope.

(** ** The data model: [types.Block] and friends *)
Module Types.

(** [common.Hash], a 32-byte array, as the number it spells. *)
Definition Hash := N.
(** [types.NodeID] wraps a hash. *)
Definition NodeID := Hash.
Definition Bytes := list N.
(** [time.Time] as nanoseconds since the epoch. *)
Definition Time := Z.

(** [types.Position]; [ShardID] is the field of the older layout used by
    [Consensus.sanityCheck], [Round] the one of the lattice. *)
Record Position := mkPosition {
  ShardID : N;
  Round : N;
  ChainID : N;
  Height : N
}.

(** Modelled from the spec: the element of [Block.Acks], "each an
    (chain_id, height, hash)"; the declaration of [types.Block] is not
    among the sources.  The order [Less] on acks is an operation of the
    [Crypto] interface below. *)
Record Ack := mkAck {
  ack_chain : N;
  ack_height : N;
  ack_hash : Hash
}.

Record Witness := mkWitness {
  w_Height : N;
  w_Data : Bytes
}.

Record Block := mkBlock {
  ProposerID : NodeID;
  ParentHash : Hash;
  BHash : Hash;
  Position_ : Position;
  Timestamp : Time;
  Acks : list Ack;
  Payload : Bytes;
  Witness_ : Witness;
  Signature : Bytes
}.

#[global] Instance Position_eq_dec : EqDecision Position.
Proof. solve_decision. Defined.
#[global] Instance Ack_eq_dec : EqDecision Ack.
Proof. solve_decision. Defined.
#[global] Instance Witness_eq_dec : EqDecision Witness.
Proof. solve_decision. Defined.
#[global] Instance Block_eq_dec : EqDecision Block.
Proof. solve_decision. Defined.

(** A [*types.Block]: an address in the heap of blocks. *)
Definition ptr := positive.
Abbreviation Heap := (gmap positive Block).

(** Error values of package [core] and of the collaborators. *)
Inductive Err :=
| ErrProposerNotInNotarySet
| ErrIncorrectHash
| ErrIncorrectSignature
| ErrGenesisBlockNotEmpty
| ErrUnknownBlockProposed
| ErrUnknownBlockConfirmed
| ErrIncorrectBlockPosition
| ErrAcksNotSorted
| ErrInvalidBlock
| ErrAckingBlockNotExists
| ErrDuplicateAck
| ErrSelfAck
| ErrNonMonotonicAckHeight
| ErrTimestampOutOfWindow
| ErrCrypto (code : N)      (* an error value of package crypto *)
| ErrDB (code : N)          (* an error value of package blockdb *)
| ErrModule (code : N).     (* any other error value of a core module *)

#[global] Instance Err_eq_dec : EqDecision Err.
Proof. solve_decision. Defined.

(** What a run shows to the outside: calls into the application and the
    debug hooks, calls of the database and of signature recovery. *)
Inductive Event :=
| EvSigToPub (h : Hash) (sig : Bytes)
| EvVerifyBlock (h : Hash)
| EvDBPut (b : Block) (ok : bool)
| EvDBUpdate (b : Block) (ok : bool)
| EvStronglyAcked (h : Hash)
| EvBlockConfirmed (h : Hash)
| EvTotalOrderingDelivered (hs : list Hash) (early : bool)
| EvBlockDelivered (b : Block).

End Types.
Export Types.

(** ** A state monad with panics, for the methods of the facade *)
Module Run.

Inductive Res (W A : Type) :=
| Done (a : A) (w : W)
| Panicked (w : W).
Arguments Done {W A} a w.
Arguments Panicked {W A} w.

Definition M (W A : Type) := W -> Res W A.

Definition ret {W A} (a : A) : M W A := fun w => Done a w.
Definition bind {W A B} (m : M W A) (k : A -> M W B) : M W B :=
  fun w => match m w with
           | Done a w' => k a w'
           | Panicked w' => Panicked w'
           end.
Definition panic {W A} : M W A := fun w => Panicked w.
Definition gets {W A} (f : W -> A) : M W A := fun w => Done (f w) w.
Definition modify {W} (f : W -> W) : M W unit := fun w => Done tt (f w).

#[global] Instance M_ret {W} : MRet (M W) := fun _ a => ret a.
#[global] Instance M_bind {W} : MBind (M W) := fun _ _ k m => bind m k.

End Run.
Export Run.

(** ** Properties of a run, as predicates on its record *)
Module Traces.

(** The state a run ends in, returned or panicked. *)
Definition final {W A} (r : Res W A) : W :=
  match r with
  | Done _ w => w
  | Panicked w => w
  end.

(** The calls into the application and its debug hooks. *)
Definition isCallback (e : Event) : bool :=
  match e with
  | EvStronglyAcked _ | EvBlockConfirmed _
  | EvTotalOrderingDelivered _ _ | EvBlockDelivered _ => true
  | _ => false
  end.

Definition isTotalOrderingDelivered (e : Event) : bool :=
  match e with
  | EvTotalOrderingDelivered _ _ => true
  | _ => false
  end.

(** The place of a callback in the order StronglyAcked, BlockConfirmed,
    TotalOrderingDelivered, BlockDelivered. *)
Definition rank (e : Event) : option nat :=
  match e with
  | EvStronglyAcked _ => Some 0%nat
  | EvBlockConfirmed _ => Some 1%nat
  | EvTotalOrderingDelivered _ _ => Some 2%nat
  | EvBlockDelivered _ => Some 3%nat
  | _ => None
  end.

(** The callback is about the block of hash [h]. *)
Definition mentions (h : Hash) (e : Event) : bool :=
  match e with
  | EvStronglyAcked h' | EvBlockConfirmed h' => bool_decide (h = h')
  | EvTotalOrderingDelivered hs _ => bool_decide (h ∈ hs)
  | EvBlockDelivered b => bool_decide (h = BHash b)
  | _ => false
  end.

(** The callbacks about one block come in the order of their ranks: none
    of a later kind is followed by one of an earlier kind. *)
Definition debugOrder (delta : list Event) : Prop :=
  forall (h : Hash) (i j : nat) (e e' : Event) (r r' : nat),
    (i < j)%nat -> delta !! i = Some e -> delta !! j = Some e' ->
    mentions h e = true -> mentions h e' = true ->
    rank e = Some r -> rank e' = Some r' -> (r <= r')%nat.

(** No callback before a database write of the invocation has succeeded. *)
Definition persistFirst (delta : list Event) : Prop :=
  forall pre e post, delta = pre ++ e :: post -> isCallback e = true ->
    exists b, EvDBPut b true ∈ pre.

(** A failed database write comes with no callback about its block. *)
Definition failureSilent (delta : list Event) : Prop :=
  forall b, EvDBPut b false ∈ delta \/ EvDBUpdate b false ∈ delta ->
    forall e, e ∈ delta -> isCallback e = true -> mentions (BHash b) e = false.

Definition allOrNothing (delta : list Event) : Prop :=
  persistFirst delta /\ failureSilent delta.

End Traces.
Export Traces.

(** ** Go's [float32], after IEEE 754 binary32, on the specification of
    floating-point numbers of the standard library *)
Module Float32.

Definition prec : Z := 24.
Definition emax : Z := 128.
Definition float32 := spec_float.

(** [float32(z)] for an integer [z]: rounded to nearest, ties to even. *)
Definition of_Z (z : Z) : float32 := binary_normalize prec emax z 0 false.
Definition one : float32 := of_Z 1.
(** [x * y] and [x + y], each rounded to [float32]. *)
Definition mul (x y : float32) : float32 := SFmul prec emax x y.
Definition add (x y : float32) : float32 := SFadd prec emax x y.

(** The integer part of a float, towards zero. *)
Definition trunc (f : float32) : option Z :=
  match f with
  | S754_zero _ => Some 0
  | S754_finite s m e =>
      Some (cond_Zopp s (if 0 <=? e then Z.pos m * 2 ^ e else Z.pos m / 2 ^ (- e)))
  | _ => None
  end.

(** [uint64(f)]: the integer part when it fits; Go leaves the other
    conversions to the implementation ([None]). *)
Definition to_uint64 (f : float32) : option Z :=
  match trunc f with
  | Some t => if (0 <=? t) && (t <? 2 ^ 64) then Some t else None
  | None => None
  end.

(** [x*y + z] with one rounding only: Go allows an implementation to fuse
    the two operations. *)
Definition fma (x y z : float32) : float32 :=
  match x, y, z with
  | S754_finite sx mx ex, S754_finite sy my ey, S754_finite sz mz ez =>
      let e := Z.min (ex + ey) ez in
      binary_normalize prec emax
        (cond_Zopp (xorb sx sy) (Z.pos (fst (shl_align (mx * my) (ex + ey) e)))
         + cond_Zopp sz (Z.pos (fst (shl_align mz ez e))))
        e false
  | _, _, _ => add (mul x y) z
  end.

(** For the bounds on rounding: a shift record that has lost no bit; values
    as fixed-point numbers, [m * 2^e] scaled by [2^bias]; a non-negative
    float between two integers. *)
Definition clean (r : shr_record) : Prop := shr_r r = false /\ shr_s r = false.

Definition bias : Z := 400.
Definition sc (m e : Z) : Z := m * 2 ^ (e + bias).

Definition between (k1 k2 : Z) (r : spec_float) : Prop :=
  match r with
  | S754_zero _ => k1 <= 0 <= k2
  | S754_finite false m e =>
      -149 <= e /\ k1 * 2 ^ bias <= sc (Z.pos m) e <= k2 * 2 ^ bias
  | _ => False
  end.

(** A ratio: a finite [float32] that is not negative. *)
Definition ratio (phi : float32) : bool :=
  match phi with
  | S754_zero _ => true
  | S754_finite false _ _ => valid_binary prec emax phi
  | _ => false
  end.

(** The integer part of the exact product [n * phi], for [n] and [phi] not
    negative. *)
Definition floorMul (n : Z) (phi : float32) : Z :=
  match phi with
  | S754_finite false m e =>
      if 0 <=? e then n * Z.pos m * 2 ^ e else (n * Z.pos m) / 2 ^ (- e)
  | _ => 0
  end.

End Float32.
Export Float32.

(** ** [types.Config] and the threshold of total ordering *)
Module Config.

Record Config := mkConfig {
  NumChains : N;              (* uint32 *)
  K : Z;                      (* int *)
  PhiRatio : float32;
  MinBlockInterval : Z;       (* time.Duration *)
  MaxBlockInterval : Z
}.

(** [uint64(float32(n)*phi+1)], the third argument of [newTotalOrdering]
    in [NewLattice] (line 68) and in [NewConsensus] (line 243). *)
Definition phiThreshold (n : Z) (phi : float32) : option Z :=
  to_uint64 (add (mul (of_Z n) phi) one).

(** The same expression when the implementation fuses [*] and [+]. *)
Definition phiThresholdFused (n : Z) (phi : float32) : option Z :=
  to_uint64 (fma (of_Z n) phi one).

(** [cfg.NumChains-1] in [uint32]. *)
Definition numChainsMinus1 (cfg : Config) : Z := (Z.of_N (NumChains cfg) - 1) mod 2 ^ 32.

(** [NewLattice]: the threshold handed to [newTotalOrdering]. *)
Definition latticeThreshold (cfg : Config) : option Z :=
  phiThreshold (numChainsMinus1 cfg) (PhiRatio cfg).

(** [NewConsensus]: [len(notarySet)-1] is an [int]. *)
Definition consensusThreshold (lenNotarySet : Z) (cfg : Config) : option Z :=
  phiThreshold (lenNotarySet - 1) (PhiRatio cfg).

End Config.
Export Config.

(** ** The collaborators of the facade, as interfaces *)
Module Interfaces.

(** [hashBlock], [crypto.SigToPub], [crypto.Keccak256Hash] and the order
    [Less] of the elements of [Block.Acks]. *)
Class Crypto := {
  hashBlock : Block -> option Hash;           (* [None]: a non-nil error *)
  SigToPub : Hash -> Bytes -> N + Bytes;      (* [inl c]: an error of package crypto *)
  Keccak256Hash : Bytes -> Hash;
  Less : Ack -> Ack -> bool
}.

(** [Authenticator.SignBlock] fills the block in place. *)
Class Authenticator := {
  SignBlock : Block -> Block * option Err
}.

(** The part of [Application] the facade calls. *)
Class Application := {
  PreparePayload : Position -> Bytes;
  PrepareWitness : N -> Witness;
  VerifyBlock : Block -> bool
}.

(** [blockdb.BlockDatabase]. *)
Class BlockDatabase := {
  DB : Type;
  db_Put : DB -> Block -> DB * option Err;
  db_Update : DB -> Block -> DB * option Err
}.

(** [blockPool]: it keeps the addresses it is given. *)
Class BlockPool := {
  Pool : Type;
  newBlockPool : N -> Pool;
  pool_addBlock : Pool -> Heap -> ptr -> Pool;
  pool_purgeBlocks : Pool -> Heap -> N -> N -> Pool;
  pool_tip : Pool -> Heap -> N -> option ptr;  (* [None]: a nil tip *)
  pool_removeTip : Pool -> Heap -> N -> Pool
}.

(** [latticeData]. *)
Class LatticeDataI := {
  LatticeData : Type;
  newLatticeData : N -> N -> Z -> Z -> LatticeData;
  data_prepareBlock : LatticeData -> Heap -> Block -> Block;
  data_sanityCheck : LatticeData -> Heap -> Block -> option Err;
  data_addBlock : LatticeData -> Heap -> ptr -> LatticeData * (Err + list ptr)
}.

(** [totalOrdering]. *)
Class TotalOrderingI := {
  TotalOrdering : Type;
  newTotalOrdering : N -> Z -> Z -> N -> TotalOrdering;
  to_processBlock :
    TotalOrdering -> Heap -> ptr -> TotalOrdering * (list ptr * bool * option Err)
}.

(** [consensusTimestamp]: it stamps the delivered blocks in place. *)
Class ConsensusTimestampI := {
  ConsensusTimestamp : Type;
  newConsensusTimestamp : N -> N -> ConsensusTimestamp;
  ct_processBlocks :
    ConsensusTimestamp -> Heap -> list ptr -> ConsensusTimestamp * Heap * option Err
}.

(** [reliableBroadcast], of [Consensus]. *)
Class ReliableBroadcastI := {
  ReliableBroadcast : Type;
  rb_chainNum : ReliableBroadcast -> N;
  rb_processBlock : ReliableBroadcast -> Heap -> ptr -> ReliableBroadcast * option Err;
  rb_extractBlocks : ReliableBroadcast -> Heap -> ReliableBroadcast * list ptr
}.

(** [compactionChain], of [Consensus]: it fills the witness height in place. *)
Class CompactionChainI := {
  CompactionChain : Type;
  cc_processBlock :
    CompactionChain -> Heap -> ptr -> CompactionChain * Heap * option Err
}.

End Interfaces.
Export Interfaces.

(** Loops of the facade. *)
Module Loops.

(** [for _, a := range l { s = body a s }] *)
Fixpoint forEach {W A S} (l : list A) (body : A -> S -> M W S) (s : S) : M W S :=
  match l with
  | [] => mret s
  | a :: l' => s' ← body a s; forEach l' body s'
  end.

End Loops.
Export Loops.

(** ** [core/lattice.go]: the lattice facade *)
Module Lattice.
Section Facade.

Context `{Crypto, Authenticator, Application, BlockDatabase, BlockPool,
          LatticeDataI, TotalOrderingI, ConsensusTimestampI}.

(** [type Lattice struct] together with what its pointers reach: the heap
    of blocks, the database, and the record of the calls it made.
    [debug = false] is a nil [Debug]. *)
Record World := mkWorld {
  heap : Heap;
  chainNum : N;
  debug : bool;
  db : DB;
  pool : Pool;
  data : LatticeData;
  toModule : TotalOrdering;
  ctModule : ConsensusTimestamp;
  log : list Event
}.

Definition set_heap (h : Heap) (w : World) : World :=
  mkWorld h (chainNum w) (debug w) (db w) (pool w) (data w) (toModule w) (ctModule w) (log w).
Definition set_db (d : DB) (w : World) : World :=
  mkWorld (heap w) (chainNum w) (debug w) d (pool w) (data w) (toModule w) (ctModule w) (log w).
Definition set_pool (p : Pool) (w : World) : World :=
  mkWorld (heap w) (chainNum w) (debug w) (db w) p (data w) (toModule w) (ctModule w) (log w).
Definition set_data (d : LatticeData) (w : World) : World :=
  mkWorld (heap w) (chainNum w) (debug w) (db w) (pool w) d (toModule w) (ctModule w) (log w).
Definition set_toModule (t : TotalOrdering) (w : World) : World :=
  mkWorld (heap w) (chainNum w) (debug w) (db w) (pool w) (data w) t (ctModule w) (log w).
Definition set_ctModule (c : ConsensusTimestamp) (w : World) : World :=
  mkWorld (heap w) (chainNum w) (debug w) (db w) (pool w) (data w) (toModule w) c (log w).
Definition emit (e : Event) : M World unit :=
  modify (fun w =>
    mkWorld (heap w) (chainNum w) (debug w) (db w) (pool w) (data w) (toModule w)
            (ctModule w) (log w ++ [e])).

(** [NewLattice]: lines 45-73.  [None] where the conversion of the
    threshold to [uint64] is left to the implementation. *)
Definition NewLattice (h : Heap) (round : N) (cfg : Config) (dbg : bool) (dbase : DB)
  : option World :=
  match latticeThreshold cfg with
  | Some t =>
      Some (mkWorld h (NumChains cfg) dbg dbase
              (newBlockPool (NumChains cfg))
              (newLatticeData round (NumChains cfg)
                 (MinBlockInterval cfg) (MaxBlockInterval cfg))
              (newTotalOrdering round (K cfg mod 2 ^ 64) t (NumChains cfg))
              (newConsensusTimestamp round (NumChains cfg))
              [])
  | None => None
  end.

(** [if c { m }] *)
Definition when (c : bool) (m : M World unit) : M World unit :=
  if c then m else ret tt.

(** [*b]; a pointer to nothing panics. *)
Definition deref (b : ptr) : M World Block :=
  fun w => match heap w !! b with
           | Some blk => Done blk w
           | None => Panicked w
           end.

(** [*b = blk] *)
Definition store (b : ptr) (blk : Block) : M World unit :=
  fun w => match heap w !! b with
           | Some _ => Done tt (set_heap (<[b := blk]> (heap w)) w)
           | None => Panicked w
           end.

(** [PrepareBlock]: lines 76-92. *)
Definition PrepareBlock (b : ptr) (proposeTime : Time) : M World (option Err) :=
  blk ← deref b;
  d ← gets data; h ← gets heap;
  let blk := data_prepareBlock d h blk in                        (* s.data.prepareBlock(b) *)
  let blk := mkBlock (ProposerID blk) (ParentHash blk) (BHash blk) (Position_ blk)
               proposeTime                                        (* b.Timestamp = proposeTime *)
               (Acks blk)
               (PreparePayload (Position_ blk))                   (* b.Payload = ... *)
               (PrepareWitness (w_Height (Witness_ blk)))         (* b.Witness = ... *)
               (Signature blk) in
  let '(blk, err) := SignBlock blk in                            (* s.authModule.SignBlock(b) *)
  store b blk;;
  mret err.

(** The loop over [b.Acks] of [SanityCheck], lines 105-113: index [i] is
    out of order when [i <> 0] and [!b.Acks[i-1].Less(b.Acks[i])]. *)
Definition ackOutOfOrder (acks : list Ack) (i : nat) : bool :=
  match i with
  | O => false
  | S j =>
      match acks !! j, acks !! i with
      | Some p, Some a => negb (Less p a)
      | _, _ => false
      end
  end.

Definition acksSorted (acks : list Ack) : bool :=
  negb (existsb (ackOutOfOrder acks) (seq 0 (length acks))).

(** [SanityCheck]: lines 98-138. *)
Definition SanityCheck (b : ptr) : M World (option Err) :=
  blk ← deref b;
  if negb (bool_decide (hashBlock blk = Some (BHash blk))) then
    mret (Some ErrIncorrectHash)
  else if negb (acksSorted (Acks blk)) then
    mret (Some ErrAcksNotSorted)
  else
    emit (EvSigToPub (BHash blk) (Signature blk));;
    match SigToPub (BHash blk) (Signature blk) with
    | inl c => mret (Some (ErrCrypto c))
    | inr pubKey =>
        if negb (bool_decide (ProposerID blk = Keccak256Hash pubKey)) then
          mret (Some ErrIncorrectSignature)
        else
          emit (EvVerifyBlock (BHash blk));;
          if negb (VerifyBlock blk) then mret (Some ErrInvalidBlock)
          else
            d ← gets data; h ← gets heap;
            match data_sanityCheck d h blk with
            | Some err =>
                when (bool_decide (err = ErrAckingBlockNotExists))
                  (modify (fun w => set_pool (pool_addBlock (pool w) (heap w) b) w));;
                mret (Some err)
            | None => mret None
            end
    end.

(** One round of the loop that replays the tips of the pool, lines 171-183;
    [acc] is [(verified, err)]. *)
Definition replayTip (i : N) (acc : list ptr * option Err) : M World (list ptr * option Err) :=
  let '(verified, err) := acc in
  p ← gets pool; h ← gets heap;
  match pool_tip p h i with
  | None => mret (verified, err)                                  (* continue *)
  | Some tip =>
      blk ← deref tip;
      d ← gets data;
      let err := data_sanityCheck d h blk in
      let verified := if err is None then verified ++ [tip] else verified in
      if bool_decide (err = Some ErrAckingBlockNotExists) then
        mret (verified, err)                                      (* continue *)
      else
        modify (fun w => set_pool (pool_removeTip (pool w) (heap w) i) w);;
        mret (verified, err)
  end.

(** [for i := uint32(0); i < s.chainNum; i++] *)
Definition chainIDs (n : N) : list N := map N.of_nat (seq 0 (N.to_nat n)).

Definition replayTips (n : N) (acc : list ptr * option Err) : M World (list ptr * option Err) :=
  forEach (chainIDs n) replayTip acc.

(** [hashes[idx] = toDelivered[idx].Hash] *)
Fixpoint hashesOf (l : list ptr) : M World (list Hash) :=
  match l with
  | [] => mret []
  | p :: l' => blk ← deref p; hs ← hashesOf l'; mret (BHash blk :: hs)
  end.

(** The loop over [inLattice], lines 185-205, with its early returns; the
    named results [verified], [delivered], [err] are threaded through. *)
Fixpoint orderLoop (inLattice : list ptr) (verified delivered : list ptr)
         (err : option Err) : M World (list ptr * list ptr * option Err) :=
  match inLattice with
  | [] => mret (verified, delivered, err)
  | b :: rest =>
      t ← gets toModule; h ← gets heap;
      let '(t', (toDelivered, earlyDelivered, err)) := to_processBlock t h b in
      modify (set_toModule t');;
      match err with
      | Some e => mret (verified, delivered, Some e)
      | None =>
          match toDelivered with
          | [] => orderLoop rest verified delivered None         (* continue *)
          | _ =>
              hashes ← hashesOf toDelivered;
              dbg ← gets debug;
              when dbg (emit (EvTotalOrderingDelivered hashes earlyDelivered));;
              c ← gets ctModule; h ← gets heap;
              let '(c', h', err) := ct_processBlocks c h toDelivered in
              modify (fun w => set_heap h' (set_ctModule c' w));;
              match err with
              | Some e => mret (verified, delivered, Some e)
              | None => orderLoop rest verified (delivered ++ toDelivered) None
              end
          end
      end
  end.

(** [ProcessBlock]: lines 145-207.  The result is
    [(verified, delivered, err)]. *)
Definition ProcessBlock (input : ptr) : M World (list ptr * list ptr * option Err) :=
  d ← gets data; h ← gets heap;
  let '(d', r) := data_addBlock d h input in
  modify (set_data d');;
  match r with
  | inl err => mret ([], [], Some err)
  | inr inLattice =>
      blk ← deref input;
      dbase ← gets db;
      let '(dbase', err) := db_Put dbase blk in                  (* s.db.Put( *input ) *)
      modify (set_db dbase');;
      emit (EvDBPut blk (bool_decide (err = None)));;
      match err with
      | Some e => mret ([], [], Some e)
      | None =>
          dbg ← gets debug;
          when dbg (emit (EvStronglyAcked (BHash blk));;
                    emit (EvBlockConfirmed (BHash blk)));;
          modify (fun w => set_pool
            (pool_purgeBlocks (pool w) (heap w)
               (ChainID (Position_ blk)) (Height (Position_ blk))) w);;
          n ← gets chainNum;
          '(verified, err) ← replayTips n ([], None);
          orderLoop inLattice verified [] err
      end
  end.

(** The state once the input is admitted, persisted, announced and the pool
    purged (lines 156-169): [d'] and [db'] are the lattice data and the
    database as [addBlock] and [Put] left them. *)
Definition afterPurge (w : World) (blk : Block) (d' : LatticeData) (db' : DB) : World :=
  mkWorld (heap w) (chainNum w) (debug w) db'
    (pool_purgeBlocks (pool w) (heap w) (ChainID (Position_ blk)) (Height (Position_ blk)))
    d' (toModule w) (ctModule w)
    (log w ++ EvDBPut blk true ::
       (if debug w
        then [EvStronglyAcked (BHash blk); EvBlockConfirmed (BHash blk)]
        else [])).

(** The acks are strictly ascending: each one is [Less] than every later
    one. *)
Definition strictlyAscending (acks : list Ack) : Prop :=
  forall (i j : nat) (a a' : Ack),
    (i < j)%nat -> acks !! i = Some a -> acks !! j = Some a' -> Less a a' = true.

(** A computation adds to the record of calls only events that satisfy
    [φ]. *)
Definition emitsOnly (φ : Event -> bool) {A} (m : M World A) : Prop :=
  forall w, exists d,
    log (Traces.final (m w)) = log w ++ d /\ Forall (fun e => φ e = true) d.

(** A computation leaves the component [f] of the state alone. *)
Definition keeps {X A} (f : World -> X) (m : M World A) : Prop :=
  forall w, f (Traces.final (m w)) = f w.

(** The record of one invocation of [ProcessBlock]: nothing (the block was
    not admitted), a failed [Put] alone, or a successful [Put], then
    [StronglyAcked] and [BlockConfirmed] of the input, then
    [TotalOrderingDelivered] only. *)
Inductive invocationRecord (w : World) (input : ptr) : list Event -> Prop :=
| rec_rejected : invocationRecord w input []
| rec_put_failed blk :
    heap w !! input = Some blk -> invocationRecord w input [EvDBPut blk false]
| rec_persisted blk tods :
    heap w !! input = Some blk ->
    Forall (fun e => isTotalOrderingDelivered e = true) tods ->
    invocationRecord w input
      (EvDBPut blk true ::
         (if debug w
          then [EvStronglyAcked (BHash blk); EvBlockConfirmed (BHash blk)]
          else []) ++ tods).

End Facade.
End Lattice.

(** ** [core/consensus.go]: the entry point of [Consensus] *)
Module Consensus.
Section Core.

Context `{Crypto, BlockDatabase, ReliableBroadcastI, TotalOrderingI,
          ConsensusTimestampI, CompactionChainI}.

(** The fields of [type Consensus struct] that [processBlock] reaches, the
    heap of blocks, and the calls handed to [nbModule] (the application and
    its debug hooks) and to the database, in the order they are made. *)
Record World := mkWorld {
  heap : Heap;
  rbModule : ReliableBroadcast;
  toModule : TotalOrdering;
  ctModule : ConsensusTimestamp;
  ccModule : CompactionChain;
  db : DB;
  log : list Event
}.

Definition set_heap (h : Heap) (w : World) : World :=
  mkWorld h (rbModule w) (toModule w) (ctModule w) (ccModule w) (db w) (log w).
Definition set_rbModule (r : ReliableBroadcast) (w : World) : World :=
  mkWorld (heap w) r (toModule w) (ctModule w) (ccModule w) (db w) (log w).
Definition set_toModule (t : TotalOrdering) (w : World) : World :=
  mkWorld (heap w) (rbModule w) t (ctModule w) (ccModule w) (db w) (log w).
Definition set_ctModule (c : ConsensusTimestamp) (w : World) : World :=
  mkWorld (heap w) (rbModule w) (toModule w) c (ccModule w) (db w) (log w).
Definition set_ccModule (c : CompactionChain) (w : World) : World :=
  mkWorld (heap w) (rbModule w) (toModule w) (ctModule w) c (db w) (log w).
Definition set_db (d : DB) (w : World) : World :=
  mkWorld (heap w) (rbModule w) (toModule w) (ctModule w) (ccModule w) d (log w).
Definition emit (e : Event) : M World unit :=
  modify (fun w =>
    mkWorld (heap w) (rbModule w) (toModule w) (ctModule w) (ccModule w) (db w)
            (log w ++ [e])).

Definition deref (b : ptr) : M World Block :=
  fun w => match heap w !! b with
           | Some blk => Done blk w
           | None => Panicked w
           end.

(** [block.Clone()]: a copy at an address nobody holds yet. *)
Definition clone (block : ptr) : M World ptr :=
  blk ← deref block;
  h ← gets heap;
  let b : ptr := fresh (dom (D:=gset positive) h) in
  modify (set_heap (<[b := blk]> h));;
  mret b.

(** [sanityCheck]: lines 585-605. *)
Definition sanityCheck (b : ptr) : M World (option Err) :=
  blk ← deref b;
  rb ← gets rbModule;
  if bool_decide (ShardID (Position_ blk) ≠ 0%N)
     || (rb_chainNum rb <=? ChainID (Position_ blk))%N then
    mret (Some ErrIncorrectBlockPosition)
  else if negb (bool_decide (hashBlock blk = Some (BHash blk))) then
    mret (Some ErrIncorrectHash)
  else
    emit (EvSigToPub (BHash blk) (Signature blk));;
    match SigToPub (BHash blk) (Signature blk) with
    | inl c => mret (Some (ErrCrypto c))
    | inr pubKey =>
        if negb (bool_decide (ProposerID blk = Keccak256Hash pubKey)) then
          mret (Some ErrIncorrectSignature)
        else mret None
    end.

(** [for _, b := range deliveredBlocks { if err = con.db.Put( *b ) ... }],
    lines 649-653; [Some e] is the early return. *)
Fixpoint putAll (l : list ptr) : M World (option Err) :=
  match l with
  | [] => mret None
  | b :: l' =>
      blk ← deref b;
      dbase ← gets db;
      let '(dbase', err) := db_Put dbase blk in
      modify (set_db dbase');;
      emit (EvDBPut blk (bool_decide (err = None)));;
      match err with
      | Some e => mret (Some e)
      | None => putAll l'
      end
  end.

Fixpoint hashesOf (l : list ptr) : M World (list Hash) :=
  match l with
  | [] => mret []
  | p :: l' => blk ← deref p; hs ← hashesOf l'; mret (BHash blk :: hs)
  end.

(** The second loop over [deliveredBlocks], lines 665-677. *)
Fixpoint deliverAll (l : list ptr) : M World (option Err) :=
  match l with
  | [] => mret None
  | b :: l' =>
      c ← gets ccModule; h ← gets heap;
      let '(c', h', err) := cc_processBlock c h b in
      modify (fun w => set_heap h' (set_ccModule c' w));;
      match err with
      | Some e => mret (Some e)
      | None =>
          blk ← deref b;
          dbase ← gets db;
          let '(dbase', err) := db_Update dbase blk in
          modify (set_db dbase');;
          emit (EvDBUpdate blk (bool_decide (err = None)));;
          match err with
          | Some e => mret (Some e)
          | None => emit (EvBlockDelivered blk);; deliverAll l'
          end
      end
  end.

(** The loop over [con.rbModule.extractBlocks()], lines 638-678. *)
Fixpoint extractLoop (l : list ptr) : M World (option Err) :=
  match l with
  | [] => mret None
  | b :: rest =>
      blk ← deref b;
      emit (EvStronglyAcked (BHash blk));;
      t ← gets toModule; h ← gets heap;
      let '(t', (deliveredBlocks, earlyDelivered, err)) := to_processBlock t h b in
      modify (set_toModule t');;
      match err with
      | Some e => mret (Some e)
      | None =>
          match deliveredBlocks with
          | [] => extractLoop rest                                (* continue *)
          | _ =>
              err ← putAll deliveredBlocks;
              match err with
              | Some e => mret (Some e)
              | None =>
                  hashes ← hashesOf deliveredBlocks;
                  emit (EvTotalOrderingDelivered hashes earlyDelivered);;
                  c ← gets ctModule; h ← gets heap;
                  let '(c', h', err) := ct_processBlocks c h deliveredBlocks in
                  modify (fun w => set_heap h' (set_ctModule c' w));;
                  match err with
                  | Some e => mret (Some e)
                  | None =>
                      err ← deliverAll deliveredBlocks;
                      match err with
                      | Some e => mret (Some e)
                      | None => extractLoop rest
                      end
                  end
              end
          end
      end
  end.

(** [processBlock]: lines 619-680. *)
Definition processBlock (block : ptr) : M World (option Err) :=
  err ← sanityCheck block;
  match err with
  | Some e => mret (Some e)
  | None =>
      b ← clone block;
      rb ← gets rbModule; h ← gets heap;
      let '(rb', err) := rb_processBlock rb h b in
      modify (set_rbModule rb');;
      match err with
      | Some e => mret (Some e)
      | None =>
          blk ← deref block;
          emit (EvBlockConfirmed (BHash blk));;
          rb ← gets rbModule; h ← gets heap;
          let '(rb', extracted) := rb_extractBlocks rb h in
          modify (set_rbModule rb');;
          extractLoop extracted
      end
  end.

(** A computation only adds to the record of calls. *)
Definition extends {A} (m : M World A) : Prop :=
  forall w, exists d, log (Traces.final (m w)) = log w ++ d.

End Core.
End Consensus.

(** ** The statistics of the integration tests: [StatsSet], [Stats],
    [NewStats] *)
Module Stats.

(** A run of Go code either returns or panics. *)
Inductive PanicKind :=
| PanicIndexOutOfRange
| PanicDivideByZero
| PanicNilDereference
| PanicTypeAssertion.

Inductive Outcome (A : Type) :=
| Returns (a : A)
| Panics (k : PanicKind).
Arguments Returns {A} a.
Arguments Panics {A} k.

#[global] Instance Outcome_ret : MRet Outcome := fun _ a => Returns a.
#[global] Instance Outcome_bind : MBind Outcome := fun _ _ k m =>
  match m with
  | Returns a => k a
  | Panics p => Panics p
  end.

Inductive StatsErr := ErrUnknownEvent | ErrUnknownConsensusEventType.

(** [int] and [time.Duration] are 64-bit and wrap around. *)
Definition wrap64 (z : Z) : Z := (z + 2 ^ 63) mod 2 ^ 64 - 2 ^ 63.
Definition maxDuration : Z := 2 ^ 63 - 1.
Definition minDuration : Z := - 2 ^ 63.

(** [t.Sub(u)]: the difference, kept within the range of [Duration]. *)
Definition Time_Sub (t u : Time) : Z :=
  Z.max minDuration (Z.min maxDuration (t - u)).

(** [a /= b] on [int64]; a zero divisor panics ([None]). *)
Definition div64 (a b : Z) : option Z :=
  if b =? 0 then None else Some (wrap64 (Z.quot a b)).

Inductive consensusEventType :=
| evtProposeBlock
| evtReceiveBlock
| evtUnknown (code : Z).

(** [payload.PiggyBack], an [interface{}]. *)
Inductive PiggyBack :=
| PiggyBlock (b : Block)
| PiggyOther.

Record consensusEventPayload := mkPayload {
  Type_ : consensusEventType;
  PiggyBack_ : PiggyBack
}.

(** [e.Payload], an [interface{}]: a [*consensusEventPayload] or a value of
    another type. *)
Inductive Payload :=
| PayloadConsensus (p : consensusEventPayload)
| PayloadOther.

(** [test.Event]. *)
Record TestEvent := mkEvent {
  ev_NodeID : NodeID;
  ev_Time : Time;
  ev_ExecInterval : Z;
  ev_ParentHistoryIndex : Z;
  ev_Payload : Payload
}.

(** The maps of [test.App] that the statistics read under [app.Check]. *)
Record App := mkApp {
  Acked : gset N;
  TotalOrderedByHash : gset N;
  Delivered : gset N
}.

Record StatsSet := mkStatsSet {
  ProposedBlockCount : Z;
  ReceivedBlockCount : Z;
  StronglyAckedBlockCount : Z;
  TotalOrderedBlockCount : Z;
  DeliveredBlockCount : Z;
  ProposingLatency : Z;
  ReceivingLatency : Z;
  PrepareExecLatency : Z;
  ProcessExecLatency : Z
}.

Definition emptyStatsSet : StatsSet := mkStatsSet 0 0 0 0 0 0 0 0 0.

(** [history[i]] *)
Definition index (history : list TestEvent) (i : Z) : Outcome TestEvent :=
  if i <? 0 then Panics PanicIndexOutOfRange
  else match history !! Z.to_nat i with
       | Some e => Returns e
       | None => Panics PanicIndexOutOfRange
       end.

(** [newBlockProposeEvent]: lines 32-43. *)
Definition newBlockProposeEvent (s : StatsSet) (e : TestEvent)
           (history : list TestEvent) : Outcome StatsSet :=
  lat ← (if negb (ev_ParentHistoryIndex e =? -1) then
           parentEvent ← index history (ev_ParentHistoryIndex e);
           mret (wrap64 (ProposingLatency s +
                   wrap64 (Time_Sub (ev_Time e) (ev_Time parentEvent)
                           - ev_ExecInterval parentEvent)))
         else mret (ProposingLatency s));
  mret (mkStatsSet
          (wrap64 (ProposedBlockCount s + 1))
          (ReceivedBlockCount s) (StronglyAckedBlockCount s)
          (TotalOrderedBlockCount s) (DeliveredBlockCount s)
          lat
          (ReceivingLatency s)
          (wrap64 (PrepareExecLatency s + ev_ExecInterval e))
          (ProcessExecLatency s)).

(** The closure handed to [app.Check], lines 61-79: the three counters. *)
Definition checkCounts (app : App) (h : Hash) (s : StatsSet) : StatsSet :=
  if negb (bool_decide (h ∈ Acked app)) then s else
  let acked := wrap64 (StronglyAckedBlockCount s + 1) in
  if negb (bool_decide (h ∈ TotalOrderedByHash app)) then
    mkStatsSet (ProposedBlockCount s) (ReceivedBlockCount s) acked
      (TotalOrderedBlockCount s) (DeliveredBlockCount s)
      (ProposingLatency s) (ReceivingLatency s) (PrepareExecLatency s)
      (ProcessExecLatency s)
  else
  let ordered := wrap64 (TotalOrderedBlockCount s + 1) in
  if negb (bool_decide (h ∈ Delivered app)) then
    mkStatsSet (ProposedBlockCount s) (ReceivedBlockCount s) acked
      ordered (DeliveredBlockCount s)
      (ProposingLatency s) (ReceivingLatency s) (PrepareExecLatency s)
      (ProcessExecLatency s)
  else
    mkStatsSet (ProposedBlockCount s) (ReceivedBlockCount s) acked
      ordered (wrap64 (DeliveredBlockCount s + 1))
      (ProposingLatency s) (ReceivingLatency s) (PrepareExecLatency s)
      (ProcessExecLatency s).

(** [newBlockReceiveEvent]: lines 46-80; [app = None] is a nil [*test.App]. *)
Definition newBlockReceiveEvent (s : StatsSet) (e : TestEvent)
           (payload : consensusEventPayload) (history : list TestEvent)
           (app : option App) : Outcome StatsSet :=
  parentEvent ← index history (ev_ParentHistoryIndex e);
  let s := mkStatsSet
             (ProposedBlockCount s)
             (wrap64 (ReceivedBlockCount s + 1))
             (StronglyAckedBlockCount s) (TotalOrderedBlockCount s)
             (DeliveredBlockCount s) (ProposingLatency s)
             (wrap64 (ReceivingLatency s +
                wrap64 (Time_Sub (ev_Time e) (ev_Time parentEvent)
                        - ev_ExecInterval parentEvent)))
             (PrepareExecLatency s)
             (wrap64 (ProcessExecLatency s + ev_ExecInterval e)) in
  match PiggyBack_ payload with
  | PiggyOther => Panics PanicTypeAssertion
  | PiggyBlock block =>
      match app with
      | None => Panics PanicNilDereference
      | Some a => mret (checkCounts a (BHash block) s)
      end
  end.

(** [done]: lines 84-89. *)
Definition done (s : StatsSet) (nodeCount : Z) : option StatsSet :=
  pl ← div64 (ProposingLatency s) (wrap64 (ProposedBlockCount s - nodeCount));
  rl ← div64 (ReceivingLatency s) (ReceivedBlockCount s);
  pe ← div64 (PrepareExecLatency s) (ProposedBlockCount s);
  pr ← div64 (ProcessExecLatency s) (ReceivedBlockCount s);
  Some (mkStatsSet (ProposedBlockCount s) (ReceivedBlockCount s)
          (StronglyAckedBlockCount s) (TotalOrderedBlockCount s)
          (DeliveredBlockCount s) pl rl pe pr).

(** [type Stats struct]; [BPS] is a [float64]. *)
Record Stats := mkStats {
  ByNode : gmap N StatsSet;
  All : StatsSet;
  BPS : spec_float;
  ExecutionTime : Z
}.

Definition set_sets (m : gmap N StatsSet) (a : StatsSet) (st : Stats) : Stats :=
  mkStats m a (BPS st) (ExecutionTime st).

(** [getStatsSetByNode]: lines 149-158; the set and the map that holds it. *)
Definition getStatsSetByNode (m : gmap N StatsSet) (vID : NodeID)
  : StatsSet * gmap N StatsSet :=
  match m !! vID with
  | Some s => (s, m)
  | None => (emptyStatsSet, <[vID := emptyStatsSet]> m)
  end.

(** The loop of [calculate], lines 126-146: the sets so far and the error
    returned, if any; on a panic the sets are lost with the stack. *)
Fixpoint calculateLoop (rest history : list TestEvent) (apps : gmap N App)
         (m : gmap N StatsSet) (all : StatsSet)
  : Outcome (gmap N StatsSet * StatsSet * option StatsErr) :=
  match rest with
  | [] => mret (m, all, None)
  | e :: rest' =>
      match ev_Payload e with
      | PayloadOther => mret (m, all, Some ErrUnknownEvent)
      | PayloadConsensus payload =>
          match Type_ payload with
          | evtProposeBlock =>
              all' ← newBlockProposeEvent all e history;
              let '(s, m') := getStatsSetByNode m (ev_NodeID e) in
              s' ← newBlockProposeEvent s e history;
              calculateLoop rest' history apps (<[ev_NodeID e := s']> m') all'
          | evtReceiveBlock =>
              all' ← newBlockReceiveEvent all e payload history (apps !! ev_NodeID e);
              let '(s, m') := getStatsSetByNode m (ev_NodeID e) in
              s' ← newBlockReceiveEvent s e payload history (apps !! ev_NodeID e);
              calculateLoop rest' history apps (<[ev_NodeID e := s']> m') all'
          | evtUnknown _ => mret (m, all, Some ErrUnknownConsensusEventType)
          end
      end
  end.

(** The deferred function of [calculate], lines 119-124. *)
Definition calculateDeferred (m : gmap N StatsSet) (all : StatsSet)
  : Outcome (gmap N StatsSet * StatsSet) :=
  match done all (Z.of_nat (size m)) with
  | None => Panics PanicDivideByZero
  | Some all' =>
      if decide (map_Forall (fun _ s => is_Some (done s 1)) m)
      then Returns (omap (fun s => done s 1) m, all')
      else Panics PanicDivideByZero
  end.

(** [calculate]: lines 116-147.  The deferred function runs on every way
    out; a panic of the loop stays a panic whatever it does. *)
Definition calculate (st : Stats) (history : list TestEvent) (apps : gmap N App)
  : Outcome (Stats * option StatsErr) :=
  '(m, all, err) ← calculateLoop history history apps (ByNode st) (All st);
  '(m', all') ← calculateDeferred m all;
  mret (set_sets m' all' st, err).

(** [float64(z)] and the quotient of two [float64]. *)
Definition float64_of_Z (z : Z) : spec_float := binary_normalize 53 1024 z 0 false.
Definition float64_div (x y : spec_float) : spec_float := SFdiv 53 1024 x y.

(** [summary]: lines 160-176; [None] is a nil receiver. *)
Definition summary (stats : option Stats) (history : list TestEvent) : Outcome Stats :=
  match stats with
  | None => Panics PanicNilDereference                  (* stats.ByNode *)
  | Some st =>
      let totalConfirmedBlocks :=
        map_fold (fun _ s acc => wrap64 (acc + DeliveredBlockCount s)) 0 (ByNode st) in
      if decide (size (ByNode st) = 0%nat) then Panics PanicDivideByZero else
      let averageConfirmedBlocks :=
        wrap64 (Z.quot totalConfirmedBlocks (Z.of_nat (size (ByNode st)))) in
      last ← index history (Z.of_nat (length history) - 1);
      first ← index history 0;
      let executionTime := Time_Sub (ev_Time last) (ev_Time first) in
      let latencyAsSecond := Z.quot executionTime (1000 * 1000 * 1000) in
      mret (mkStats (ByNode st) (All st)
              (float64_div (float64_of_Z averageConfirmedBlocks)
                           (float64_of_Z latencyAsSecond))
              executionTime)
  end.

(** [NewStats]: lines 101-114. *)
Definition NewStats (history : list TestEvent) (apps : gmap N App)
  : Outcome (option Stats * option StatsErr) :=
  let stats := mkStats ∅ emptyStatsSet (S754_zero false) 0 in
  '(stats, err) ← calculate stats history apps;
  let stats := if err is Some _ then None else Some stats in
  stats' ← summary stats history;
  mret (Some stats', err).

End Stats.

(** ** The lattice data and the block pool, after the specification *)
Module SpecModel.

(** Modelled from the spec: the state of [latticeData] (its code is not
    among the sources).  "For each chain c: the tip block" and the blocks
    admitted so far, "on chain c, heights are dense from 0"; the round and
    the intervals come from the active configuration.  "Blocks admitted into
    the data structures are cloned at ingress": the chains hold the blocks
    themselves, as they were when they were admitted, not the addresses the
    callers keep. *)
Record SpecData := mkSpecData {
  sd_round : N;
  sd_numChains : N;
  sd_minInterval : Z;
  sd_maxInterval : Z;
  sd_chains : list (list Block)     (* chain c, ascending height *)
}.

Definition chainOf (d : SpecData) (c : N) : list Block :=
  default [] (sd_chains d !! N.to_nat c).

(** The admitted block at [(c, h)]. *)
Definition blockAt (d : SpecData) (c ht : N) : option Block :=
  chainOf d c !! N.to_nat ht.

Definition tipOf (d : SpecData) (c : N) : option Block := last (chainOf d c).

Definition nextHeight (d : SpecData) (c : N) : N := N.of_nat (length (chainOf d c)).

(** Modelled from the spec: "Acks are sorted by (chain_id, height)
    ascending". *)
Definition ackLess (a a' : Ack) : bool :=
  (ack_chain a <? ack_chain a')%N
  || ((ack_chain a =? ack_chain a')%N && (ack_height a <? ack_height a')%N).

(** Modelled from the spec: [prepare_block] "fills in the acks.  The
    policy is: for every chain c' ≠ b.chain_id include one ack = the
    current tip of c' if any; include the parent on b.chain_id"; the
    position is the next one of the chain. *)
Definition tipAck (d : SpecData) (c : N) : option Ack :=
  t ← tipOf d c; Some (mkAck c (Height (Position_ t)) (BHash t)).

Definition spec_prepareBlock (d : SpecData) (b : Block) : Block :=
  let c := ChainID (Position_ b) in
  let others := filter (fun c' => c' ≠ c) (map N.of_nat (seq 0 (N.to_nat (sd_numChains d)))) in
  mkBlock (ProposerID b)
    (default 0%N (BHash <$> tipOf d c))
    (BHash b)
    (mkPosition (ShardID (Position_ b)) (sd_round d) c (nextHeight d c))
    (Timestamp b)
    (omap (tipAck d) others)
    (Payload b) (Witness_ b) (Signature b).

(** The height of the last ack of chain [c'] in the blocks admitted on
    chain [c]; [None] when [c] never acked [c']. *)
Definition lastAckHeight (d : SpecData) (c c' : N) : option N :=
  let hs := (fun a => ack_height a) <$>
            filter (fun a => ack_chain a = c') (mjoin (Acks <$> chainOf d c)) in
  match hs with
  | [] => None
  | x :: l => Some (foldr N.max x l)
  end.

Fixpoint sortedBy (lt : Ack -> Ack -> bool) (l : list Ack) : bool :=
  match l with
  | a :: ((a' :: _) as l') => lt a a' && sortedBy lt l'
  | _ => true
  end.

(** Modelled from the spec: [sanity_check] "enforces, in order and each
    fatal: 1. Position: chain_id < num_chains; round matches the currently
    active config.  2. Parent/height continuity on b.chain_id.  3. Acks:
    strictly sorted; no self-ack; each referenced block has been admitted.
    If a referenced block is unknown, fail with AckingBlockNotExists.
    4. Monotone ack height: each (proposer, observed-chain) pair must
    strictly advance.  5. Timestamp window vs. acked blocks": "the block's
    timestamp must be ≥ max of acked tips' timestamps + min_block_interval
    and ≤ same + max_block_interval".  A block ahead of its chain waits for
    its parent: "block (1,2) arrives before (1,1); it is buffered with
    AckingBlockNotExists". *)
Definition spec_sanityCheck (d : SpecData) (b : Block) : option Err :=
  let c := ChainID (Position_ b) in
  let ht := Height (Position_ b) in
  let parent := tipOf d c in
  let acked := omap (fun a => blockAt d (ack_chain a) (ack_height a)) (Acks b) in
  let times := Timestamp <$> (option_list parent ++ acked) in
  if negb ((c <? sd_numChains d)%N && (Round (Position_ b) =? sd_round d)%N) then
    Some ErrIncorrectBlockPosition
  else if (nextHeight d c <? ht)%N then
    Some ErrAckingBlockNotExists
  else if negb ((ht =? nextHeight d c)%N
                && (ParentHash b =? default 0 (BHash <$> parent))%N) then
    Some ErrIncorrectBlockPosition
  else if negb (sortedBy ackLess (Acks b)) then
    Some ErrAcksNotSorted
  else if existsb (fun a => (ack_chain a =? c)%N) (Acks b) then
    Some ErrSelfAck
  else if negb (forallb (fun a =>
                 bool_decide (BHash <$> blockAt d (ack_chain a) (ack_height a)
                              = Some (ack_hash a))) (Acks b)) then
    Some ErrAckingBlockNotExists
  else if negb (forallb (fun a =>
                 match lastAckHeight d c (ack_chain a) with
                 | Some l => (l <? ack_height a)%N
                 | None => true
                 end) (Acks b)) then
    Some ErrNonMonotonicAckHeight
  else
    match times with
    | [] => None
    | t :: ts =>
        let latest := foldr Z.max t ts in
        if (latest + sd_minInterval d <=? Timestamp b)
           && (Timestamp b <=? latest + sd_maxInterval d)
        then None else Some ErrTimestampOutOfWindow
    end.

(** Modelled from the spec: [add_block] "must be called only after sanity
    check succeeds.  It updates the tip of b.chain_id" and "returns" the
    "previously-admitted blocks on other chains [that] have become
    strongly-acked".  A block that fails the checks of [sanity_check] is
    refused with its error ([addBlock] has an error result, which the facade
    returns as it is).  The block is read once, through the pointer, and its
    value joins the chain ("cloned at ingress").  A block is strongly acked
    through the acks of other chains, and acks are "none referring to the
    proposer's own chain": on a lattice of one chain no block is ever acked
    and nothing is returned.  On a lattice of several chains the blocks to
    return are copies the data own, for which the heap of the facade has no
    address: such lattices are outside this model, and [add_block] refuses
    them. *)
Definition spec_addBlock (d : SpecData) (h : Heap) (p : ptr) : SpecData * (Err + list ptr) :=
  match h !! p with
  | Some b =>
      match spec_sanityCheck d b with
      | Some e => (d, inl e)
      | None =>
          if (sd_numChains d =? 1)%N then
            (mkSpecData (sd_round d) (sd_numChains d) (sd_minInterval d) (sd_maxInterval d)
               (alter (fun l => l ++ [b]) (N.to_nat (ChainID (Position_ b))) (sd_chains d)),
             inr [])
          else (d, inl (ErrModule 1))
      end
  | None => (d, inl (ErrModule 0))
  end.

(** Modelled from the spec: the block pool, "a per-chain ordered sequence
    (ascending height)": [add] "insert at position for b.chain_id, keep
    ordered by height, reject duplicates"; [tip] "the lowest-height buffered
    block"; [remove_tip]; [purge_below(c, h)] "discard all buffered blocks
    on c with height ≤ h". *)
Definition SpecPool := list (list ptr).

Definition heightOf (h : Heap) (p : ptr) : N :=
  default 0%N ((fun b => Height (Position_ b)) <$> h !! p).

Fixpoint insertByHeight (h : Heap) (p : ptr) (l : list ptr) : list ptr :=
  match l with
  | [] => [p]
  | q :: l' =>
      if (heightOf h p <? heightOf h q)%N then p :: l
      else if (heightOf h p =? heightOf h q)%N then l
      else q :: insertByHeight h p l'
  end.

Definition spec_poolAdd (pl : SpecPool) (h : Heap) (p : ptr) : SpecPool :=
  match h !! p with
  | Some b => alter (insertByHeight h p) (N.to_nat (ChainID (Position_ b))) pl
  | None => pl
  end.

Definition spec_poolPurge (pl : SpecPool) (h : Heap) (c ht : N) : SpecPool :=
  alter (filter (fun p => (ht < heightOf h p)%N)) (N.to_nat c) pl.

Definition spec_poolTip (pl : SpecPool) (h : Heap) (c : N) : option ptr :=
  l ← pl !! N.to_nat c; head l.

Definition spec_poolRemoveTip (pl : SpecPool) (h : Heap) (c : N) : SpecPool :=
  alter (drop 1) (N.to_nat c) pl.

#[export] Instance specPool : BlockPool := {|
  Pool := SpecPool;
  newBlockPool n := replicate (N.to_nat n) [];
  pool_addBlock := spec_poolAdd;
  pool_purgeBlocks := spec_poolPurge;
  pool_tip := spec_poolTip;
  pool_removeTip := spec_poolRemoveTip
|}.

End SpecModel.

(** ** In-memory stand-ins of the collaborators, for concrete runs *)
Module Doubles.
Import SpecModel.

(** A hash of the fields a block is signed over, a signature that carries
    the signer's key, and the order of acks of the specification. *)
Definition toyHash (b : Block) : Hash :=
  (1 + ChainID (Position_ b) * 1000000 + Height (Position_ b) * 10000
   + Z.to_N (Timestamp b) * 10 + N.of_nat (length (Acks b)))%N.

#[export] Instance toyCrypto : Crypto := {|
  hashBlock b := Some (toyHash b);
  SigToPub h sig := match sig with [] => inl 1%N | _ => inr sig end;
  Keccak256Hash bs := foldr N.add 0%N bs;
  Less := ackLess
|}.

(** The authenticator of the node whose key is [[7]]. *)
#[export] Instance toyAuth : Authenticator := {|
  SignBlock b :=
    (mkBlock (Keccak256Hash [7%N]) (ParentHash b) (toyHash b) (Position_ b)
       (Timestamp b) (Acks b) (Payload b) (Witness_ b) [7%N], None)
|}.

#[export] Instance toyApp : Application := {|
  PreparePayload _ := [];
  PrepareWitness ht := mkWitness ht [];
  VerifyBlock _ := true
|}.

(** A database that keeps the blocks it is given, until it is broken. *)
Record ToyDB := mkToyDB { broken : bool; stored : list Block }.

Definition toyWrite (d : ToyDB) (b : Block) : ToyDB * option Err :=
  if broken d then (d, Some (ErrDB 1)) else (mkToyDB false (stored d ++ [b]), None).

#[export] Instance toyDB : BlockDatabase := {|
  DB := ToyDB;
  db_Put := toyWrite;
  db_Update := toyWrite
|}.

(** The lattice data of the specification. *)
#[export] Instance specData : LatticeDataI := {|
  LatticeData := SpecData;
  newLatticeData round n lo hi := mkSpecData round n lo hi (replicate (N.to_nat n) []);
  data_prepareBlock d _ b := spec_prepareBlock d b;
  data_sanityCheck d _ b := spec_sanityCheck d b;
  data_addBlock := spec_addBlock
|}.

(** Total ordering that delivers each block as it comes, timestamps that
    leave the blocks alone. *)
#[export] Instance toyTO : TotalOrderingI := {|
  TotalOrdering := unit;
  newTotalOrdering _ _ _ _ := tt;
  to_processBlock t _ b := (t, ([b], false, None))
|}.

#[export] Instance toyCT : ConsensusTimestampI := {|
  ConsensusTimestamp := unit;
  newConsensusTimestamp _ _ := tt;
  ct_processBlocks c h _ := (c, h, None)
|}.

(** Reliable broadcast over one chain: a block is strongly acked as soon
    as it is processed.  The state is the blocks waiting for extraction. *)
#[export] Instance toyRB : ReliableBroadcastI := {|
  ReliableBroadcast := list ptr;
  rb_chainNum _ := 1%N;
  rb_processBlock rb _ b := (rb ++ [b], None);
  rb_extractBlocks rb _ := ([], rb)
|}.

#[export] Instance toyCC : CompactionChainI := {|
  CompactionChain := unit;
  cc_processBlock c h _ := (c, h, None)
|}.

End Doubles.

(** ** Concrete states and blocks, for runs on the stand-ins *)
Module Scenarios.
Import SpecModel Doubles.

Definition unsigned (c ht : N) (parent : Hash) (t : Time) (acks : list Ack) : Block :=
  mkBlock 0%N parent 0%N (mkPosition 0 0 c ht) t acks [] (mkWitness 0 []) [].

Definition signed (b : Block) : Block := fst (SignBlock b).

(** The genesis block of chain 0, its child, a block two heights up whose
    parent nobody knows, a child that acks the same block twice, a block as
    the proposer hands it to [PrepareBlock], and a grandchild of genesis. *)
Definition genesis : Block := signed (unsigned 0 0 0%N 100 []).
Definition child : Block := signed (unsigned 0 1 (BHash genesis) 200 []).
Definition ahead : Block := signed (unsigned 0 2 77%N 300 []).
Definition twice : Block :=
  signed (unsigned 0 1 (BHash genesis) 200 [mkAck 1 0 5%N; mkAck 1 0 5%N]).
Definition blank : Block := unsigned 0 0 0%N 0 [].
Definition grandchild : Block := signed (unsigned 0 2 (BHash child) 300 []).

(** One chain, intervals 1 and 1000, genesis admitted. *)
Definition dataWithGenesis : SpecData := mkSpecData 0 1 1 1000 [[genesis]].

Definition latticeWorld (second : Block) (pl : SpecPool) : Lattice.World :=
  Lattice.mkWorld (<[2%positive := second]> (<[1%positive := genesis]> ∅))
    1 true (mkToyDB false []) pl dataWithGenesis tt tt [].

Definition worldAhead : Lattice.World := latticeWorld ahead [[]].
Definition worldTwice : Lattice.World := latticeWorld twice [[]].
Definition worldChild : Lattice.World := latticeWorld child [[]].
Definition worldPrepare : Lattice.World := latticeWorld blank [[]].

(** [child] arrives at address 2 while the pool holds [ahead] at address 3. *)
Definition worldFork : Lattice.World :=
  Lattice.mkWorld
    (<[3%positive := ahead]> (<[2%positive := child]> (<[1%positive := genesis]> ∅)))
    1 true (mkToyDB false []) [[3%positive]] dataWithGenesis tt tt [].

(** [Consensus] over one chain; the genesis block arrives at address 1. *)
Definition conWorld (brokenDB : bool) : Consensus.World :=
  Consensus.mkWorld (<[1%positive := genesis]> ∅) [] tt tt tt (mkToyDB brokenDB []) [].

Definition conRun (brokenDB : bool) : Res Consensus.World (option Err) :=
  Consensus.processBlock 1%positive (conWorld brokenDB).

(** A history of node 1: two proposals, a reception, then an event that is
    not of the consensus. *)
Definition statsBad : Stats.TestEvent := Stats.mkEvent 1%N 300 10 2 Stats.PayloadOther.

Definition statsHistory : list Stats.TestEvent :=
  [Stats.mkEvent 1%N 0 10 (-1)
     (Stats.PayloadConsensus (Stats.mkPayload Stats.evtProposeBlock Stats.PiggyOther));
   Stats.mkEvent 1%N 100 10 0
     (Stats.PayloadConsensus (Stats.mkPayload Stats.evtProposeBlock Stats.PiggyOther));
   Stats.mkEvent 1%N 200 10 0
     (Stats.PayloadConsensus
        (Stats.mkPayload Stats.evtReceiveBlock (Stats.PiggyBlock genesis)));
   statsBad].

Definition statsApps : gmap N Stats.App := {[1%N := Stats.mkApp ∅ ∅ ∅]}.

(** Eleven chains and the [float32] nearest to 0.7; four chains and the one
    nearest to 0.667. *)
Definition phi07 : float32 := S754_finite false 11744051 (-24).
Definition phi0667 : float32 := S754_finite false 11190403 (-24).
Definition config07 : Config := mkConfig 11 1 phi07 1 1000.
Definition config0667 : Config := mkConfig 4 1 phi0667 1 1000.

(** [2^24 + 1] chains and the ratio 1. *)
Definition phi1 : float32 := S754_finite false 8388608 (-23).
Definition configWide : Config := mkConfig 16777217 1 phi1 1 1000.

End Scenarios.

(** ** [core/lattice.go]: [NextPosition] and [AppendConfig] *)
Module LatticeConfig.
Import Lattice.
Section Facade.

Context `{Crypto, Authenticator, Application, BlockDatabase, BlockPool,
          LatticeDataI, TotalOrderingI, ConsensusTimestampI}.

(** The operations of the three modules behind [NextPosition] and
    [AppendConfig]. *)
Class ConfigModulesI := {
  data_nextPosition : LatticeData -> N -> Position;
  data_appendConfig : LatticeData -> N -> Config -> LatticeData * option Err;
  to_appendConfig : TotalOrdering -> N -> Config -> TotalOrdering * option Err;
  ct_appendConfig : ConsensusTimestamp -> N -> Config -> ConsensusTimestamp * option Err
}.

Context `{ConfigModulesI}.

(** [NextPosition]: lines 210-215. *)
Definition NextPosition (chainID : N) : M World Position :=
  d ← gets data; mret (data_nextPosition d chainID).

(** [AppendConfig]: lines 219-233. *)
Definition AppendConfig (round : N) (config : Config) : M World (option Err) :=
  d ← gets data;
  let '(d', err) := data_appendConfig d round config in
  modify (set_data d');;
  match err with
  | Some e => mret (Some e)
  | None =>
      t ← gets toModule;
      let '(t', err) := to_appendConfig t round config in
      modify (set_toModule t');;
      match err with
      | Some e => mret (Some e)
      | None =>
          c ← gets ctModule;
          let '(c', err) := ct_appendConfig c round config in
          modify (set_ctModule c');;
          mret err
      end
  end.

End Facade.
End LatticeConfig.

(** ** The dealings of [Consensus.processBlock] with the application and
    the database, as an automaton over the record of calls *)
Module Protocol.

(** Where an invocation stands. *)
Inductive Stage :=
| Start                      (* nothing has been called *)
| Checked                    (* the signature has been recovered *)
| Confirmed                  (* BlockConfirmed of the input is out *)
| Putting (hs : list Hash)   (* a block is strongly acked; [hs]: the hashes of
                                the delivered blocks written so far *)
| Delivering                 (* the batch is announced; its blocks go out *)
| Updated (b : Block)        (* [b] is updated in the database, not yet handed over *)
| Failed.                    (* a write to the database failed *)

(** A call moves the invocation on; a call that is out of place has no
    next stage. *)
Definition step (s : Stage) (e : Event) : option Stage :=
  match e with
  | EvSigToPub _ _ =>
      match s with Start => Some Checked | _ => None end
  | EvBlockConfirmed _ =>
      match s with Checked => Some Confirmed | _ => None end
  | EvStronglyAcked _ =>
      match s with
      | Confirmed | Putting [] | Delivering => Some (Putting [])
      | _ => None
      end
  | EvDBPut b ok =>
      match s with
      | Putting hs => Some (if ok then Putting (hs ++ [BHash b]) else Failed)
      | _ => None
      end
  | EvTotalOrderingDelivered hs' _ =>
      match s with
      | Putting hs => if decide (hs = hs' /\ hs <> []) then Some Delivering else None
      | _ => None
      end
  | EvDBUpdate b ok =>
      match s with
      | Delivering => Some (if ok then Updated b else Failed)
      | _ => None
      end
  | EvBlockDelivered b' =>
      match s with
      | Updated b => if decide (b = b') then Some Delivering else None
      | _ => None
      end
  | EvVerifyBlock _ => None
  end.

Fixpoint run (s : Stage) (d : list Event) : option Stage :=
  match d with
  | [] => Some s
  | e :: d' => match step s e with Some s' => run s' d' | None => None end
  end.

(** An invocation never ends between the update of a block and its
    delivery. *)
Definition settled (s : Stage) : bool :=
  match s with
  | Updated _ => false
  | _ => true
  end.

Definition followsProtocol (d : list Event) : Prop :=
  exists s, run Start d = Some s /\ settled s = true.

(** The stages between two rounds of the loop over the extracted blocks. *)
Definition betweenRounds (s : Stage) : Prop :=
  s = Confirmed \/ s = Putting [] \/ s = Delivering.

(** The blocks at the addresses [l] and their hashes. *)
Definition hashed (h : Heap) (l : list ptr) (hs : list Hash) : Prop :=
  Forall2 (fun p x => exists blk, h !! p = Some blk /\ BHash blk = x) l hs.

End Protocol.

(** ** [core/consensus.go]: preparing blocks, and the start of [RunLegacy] *)
Module ConsensusPrepare.
Import Consensus.

(** [ErrMissingBlockInfo], the error type of [checkPrepareBlock], beside the
    error values of the package. *)
Inductive PrepareErr :=
| ErrMissingBlockInfo (MissingField : string)
| ErrOf (e : Err).

(** [(e *ErrMissingBlockInfo) Error()]: lines 44-46. *)
Definition Error (MissingField : string) : string :=
  "missing " +:+ MissingField +:+ " in block".

(** Assignments to the fields of a block. *)
Definition withParentHash (x : Hash) (b : Block) : Block :=
  mkBlock (ProposerID b) x (BHash b) (Position_ b) (Timestamp b) (Acks b) (Payload b)
    (Witness_ b) (Signature b).
Definition withHash (x : Hash) (b : Block) : Block :=
  mkBlock (ProposerID b) (ParentHash b) x (Position_ b) (Timestamp b) (Acks b) (Payload b)
    (Witness_ b) (Signature b).
Definition withHeight (x : N) (b : Block) : Block :=
  mkBlock (ProposerID b) (ParentHash b) (BHash b)
    (mkPosition (ShardID (Position_ b)) (Round (Position_ b)) (ChainID (Position_ b)) x)
    (Timestamp b) (Acks b) (Payload b) (Witness_ b) (Signature b).
Definition withTimestamp (x : Time) (b : Block) : Block :=
  mkBlock (ProposerID b) (ParentHash b) (BHash b) (Position_ b) x (Acks b) (Payload b)
    (Witness_ b) (Signature b).
Definition withPayload (x : Bytes) (b : Block) : Block :=
  mkBlock (ProposerID b) (ParentHash b) (BHash b) (Position_ b) (Timestamp b) (Acks b) x
    (Witness_ b) (Signature b).
Definition withSignature (x : Bytes) (b : Block) : Block :=
  mkBlock (ProposerID b) (ParentHash b) (BHash b) (Position_ b) (Timestamp b) (Acks b)
    (Payload b) (Witness_ b) x.

Section Core.

Context `{Crypto, Application, BlockDatabase, ReliableBroadcastI, TotalOrderingI,
          ConsensusTimestampI, CompactionChainI}.

(** What [prepareBlock] and [PrepareGenesisBlock] take from other files:
    [rbModule.prepareBlock], which fills the block in place; the two
    results of [hashBlock] when its error is not nil; the two results of
    [prvKey.Sign]. *)
Class PrepareModulesI := {
  rb_prepareBlock : ReliableBroadcast -> Heap -> Block -> Block;
  hashBlock_failed : Block -> Hash * Err;
  Sign : Hash -> Bytes * option Err
}.

Context `{!PrepareModulesI}.

(** [hashBlock(b)] with both its results. *)
Definition hashBlock2 (b : Block) : Hash * option Err :=
  match hashBlock b with
  | Some h => (h, None)
  | None => let '(h, e) := hashBlock_failed b in (h, Some e)
  end.

(** [*b = blk] *)
Definition store (b : ptr) (blk : Block) : M World unit :=
  modify (fun w => set_heap (<[b := blk]> (heap w)) w).

(** [checkPrepareBlock]: lines 682-689; [types.NodeID{}] is the zero
    hash. *)
Definition checkPrepareBlock (blk : Block) (proposeTime : Time) : option PrepareErr :=
  if bool_decide (ProposerID blk = 0%N) then Some (ErrMissingBlockInfo "ProposerID")
  else None.

(** The last lines of [prepareBlock] and of [PrepareGenesisBlock]: the hash
    and the signature are assigned with whatever comes beside an error. *)
Definition hashAndSign (b : ptr) (blk : Block) : M World (option PrepareErr) :=
  let '(hash, err) := hashBlock2 blk in
  let blk := withHash hash blk in                               (* b.Hash, err = hashBlock(b) *)
  match err with
  | Some e => store b blk;; mret (Some (ErrOf e))
  | None =>
      let '(sig, err) := Sign (BHash blk) in
      store b (withSignature sig blk);;                          (* b.Signature, err = ... *)
      mret (ErrOf <$> err)
  end.

(** [prepareBlock]: lines 692-712. *)
Definition prepareBlock (b : ptr) (proposeTime : Time) : M World (option PrepareErr) :=
  blk ← deref b;
  match checkPrepareBlock blk proposeTime with
  | Some e => mret (Some e)
  | None =>
      rb ← gets rbModule; h ← gets heap;
      let blk := rb_prepareBlock rb h blk in                     (* con.rbModule.prepareBlock(b) *)
      let blk := withTimestamp proposeTime blk in
      let blk := withPayload (PreparePayload (Position_ blk)) blk in
      hashAndSign b blk
  end.

(** [PrepareGenesisBlock]: lines 715-736. *)
Definition PrepareGenesisBlock (b : ptr) (proposeTime : Time) : M World (option PrepareErr) :=
  blk ← deref b;
  match checkPrepareBlock blk proposeTime with
  | Some e => mret (Some e)
  | None =>
      if negb (length (Payload blk) =? 0)%nat then mret (Some (ErrOf ErrGenesisBlockNotEmpty))
      else
        let blk := withHeight 0 blk in
        let blk := withParentHash 0%N blk in
        let blk := withTimestamp proposeTime blk in
        hashAndSign b blk
  end.

End Core.

(** The start of [RunLegacy], lines 425-444: the chain of the node is its
    place among the sorted IDs of the notary set. *)

(** [sort.Sort(hashes)] over the keys of [con.notarySet]: the keys of a map
    are distinct, so the result is their one ascending arrangement,
    whatever the order of the iteration. *)
Definition sortedHashes (notarySet : gset Hash) : list Hash :=
  merge_sort N.le (elements notarySet).

(** [for i, hash := range hashes { if hash == con.ID.Hash { chainID =
    uint32(i); break } }], from index [i] on; [chainID] starts at 0. *)
Fixpoint findChainID (hashes : list Hash) (id : Hash) (i : nat) : N :=
  match hashes with
  | [] => 0%N
  | hash :: rest =>
      if bool_decide (hash = id) then (N.of_nat i mod 2 ^ 32)%N
      else findChainID rest id (S i)
  end.

Definition legacyChainID (notarySet : gset Hash) (id : Hash) : N :=
  findChainID (sortedHashes notarySet) id 0.

(** [uint32(len(hashes))], handed to [rbModule.setChainNum]. *)
Definition legacyChainNum (notarySet : gset Hash) : N :=
  (N.of_nat (length (sortedHashes notarySet)) mod 2 ^ 32)%N.

(** [genesisBlock := &types.Block{ProposerID: con.ID, Position:
    types.Position{ChainID: chainID}}] *)
Definition legacyGenesis (notarySet : gset Hash) (id : Hash) : Block :=
  mkBlock id 0%N 0%N (mkPosition 0 0 (legacyChainID notarySet id) 0) 0 [] []
    (mkWitness 0 []) [].

(** The notaries whose ID is below [id]. *)
Definition notariesBelow (notarySet : gset Hash) (id : Hash) : gset Hash :=
  filter (fun h => (h < id)%N) notarySet.

End ConsensusPrepare.

(** ** [core/consensus.go]: the entry points that go to the agreement
    modules, [PreProcessBlock] and [ProcessVote] *)
Module ConsensusBA.
Import Consensus.
Section Core.

Context `{Crypto, BlockDatabase, ReliableBroadcastI, TotalOrderingI,
          ConsensusTimestampI, CompactionChainI}.

(** [agreement] and [types.Vote], as far as the entry points go: a vote has
    a position, and the agreement of a chain processes votes and blocks. *)
Class AgreementI := {
  Agreement : Type;
  Vote : Type;
  vote_Position : Vote -> Position;
  ba_processVote : Agreement -> Vote -> Agreement * option Err;
  ba_processBlock : Agreement -> Heap -> ptr -> Agreement * option Err
}.

Context `{!AgreementI}.

(** [Consensus] with [con.baModules], a slice with one agreement per
    chain. *)
Record BAWorld := mkBAWorld {
  core : World;
  baModules : list Agreement
}.

(** A method of the core, run on the core of the state. *)
Definition onCore {A} (m : M World A) : M BAWorld A :=
  fun w => match m (core w) with
           | Done a c => Done a (mkBAWorld c (baModules w))
           | Panicked c => Panicked (mkBAWorld c (baModules w))
           end.

(** [con.baModules[chainID]]: an index outside the slice panics. *)
Definition baModule (chainID : N) : M BAWorld Agreement :=
  fun w => match baModules w !! N.to_nat chainID with
           | Some ba => Done ba w
           | None => Panicked w
           end.

Definition set_baModule (chainID : N) (ba : Agreement) (w : BAWorld) : BAWorld :=
  mkBAWorld (core w) (<[N.to_nat chainID := ba]> (baModules w)).

(** [PreProcessBlock]: lines 608-616. *)
Definition PreProcessBlock (b : ptr) : M BAWorld (option Err) :=
  err ← onCore (sanityCheck b);
  match err with
  | Some e => mret (Some e)
  | None =>
      blk ← onCore (deref b);
      ba ← baModule (ChainID (Position_ blk));
      h ← gets (fun w => heap (core w));
      let '(ba', err) := ba_processBlock ba h b in
      modify (set_baModule (ChainID (Position_ blk)) ba');;
      mret err
  end.

(** [ProcessVote]: lines 538-542; [vote.Clone()] is a copy of the value. *)
Definition ProcessVote (vote : Vote) : M BAWorld (option Err) :=
  let v := vote in
  ba ← baModule (ChainID (vote_Position v));
  let '(ba', err) := ba_processVote ba v in
  modify (set_baModule (ChainID (vote_Position v)) ba');;
  mret err.

End Core.
End ConsensusBA.

(** ** What the statistics are meant to count *)
Module StatsCount.
Import Stats.

Definition isPropose (e : TestEvent) : bool :=
  match ev_Payload e with
  | PayloadConsensus p =>
      match Type_ p with evtProposeBlock => true | _ => false end
  | PayloadOther => false
  end.

Definition isReceive (e : TestEvent) : bool :=
  match ev_Payload e with
  | PayloadConsensus p =>
      match Type_ p with evtReceiveBlock => true | _ => false end
  | PayloadOther => false
  end.

(** The number of events of [l] that satisfy [f]. *)
Definition count (f : TestEvent -> bool) (l : list TestEvent) : Z :=
  Z.of_nat (length (filter (fun e => f e = true) l)).

(** The events of node [v]. *)
Definition eventsOf (v : NodeID) (l : list TestEvent) : list TestEvent :=
  filter (fun e => ev_NodeID e = v) l.

(** The set [s] has counted the events [l]. *)
Definition counted (s : StatsSet) (l : list TestEvent) : Prop :=
  ProposedBlockCount s = count isPropose l
  /\ ReceivedBlockCount s = count isReceive l
  /\ 0 <= DeliveredBlockCount s <= TotalOrderedBlockCount s
  /\ TotalOrderedBlockCount s <= StronglyAckedBlockCount s
  /\ StronglyAckedBlockCount s <= ReceivedBlockCount s.

(** The sets of the nodes have counted the events [l], each its own. *)
Definition countedByNode (m : gmap N StatsSet) (l : list TestEvent) : Prop :=
  forall v, match m !! v with
            | Some s => counted s (eventsOf v l) /\ eventsOf v l <> []
            | None => eventsOf v l = []
            end.

(** A [float64] that is not a number one can compare: an infinity or NaN. *)
Definition notFinite (f : spec_float) : bool :=
  match f with
  | S754_infinity _ | S754_nan => true
  | _ => false
  end.

End StatsCount.

(** ** When the threshold needs no rounding *)
Module ThresholdExact.

(** The exact product [n * phi] is a whole number. *)
Definition wholeProduct (n : Z) (phi : float32) : bool :=
  match phi with
  | S754_finite false m e =>
      if 0 <=? e then true else (n * Z.pos m) mod 2 ^ (- e) =? 0
  | _ => true
  end.

End ThresholdExact.

(** ** The block chains of the crypto test suite: [prepareBlock],
    [newBlock], [generateCompactionChain], [generateBlockChain] *)
Module CryptoSuite.

(** [types.FinalizationResult] and the block that carries it. *)
Record FinalizationResult := mkFinalization {
  fin_Timestamp : Time;
  fin_Height : N                   (* uint64 *)
}.

Record FBlock := mkFBlock {
  block : Block;
  Finalization : FinalizationResult
}.

(** A test either goes on, with a value and the number of readings of the
    clock so far, or is stopped by a failed [Require], or panics. *)
Inductive Test (A : Type) :=
| GoesOn (a : A) (tick : nat)
| FailsNow
| TestPanics.
Arguments GoesOn {A} a tick.
Arguments FailsNow {A}.
Arguments TestPanics {A}.

(** The zero value of [types.Block]. *)
Definition zeroBlock : Block :=
  mkBlock 0%N 0%N 0%N (mkPosition 0 0 0 0) 0 [] [] (mkWitness 0 []) [].

Section Suite.

(** The successive readings of [time.Now()]; [HashBlock] with its two
    results; [signer.SignBlock], which fills the block in place. *)
Variable now : nat -> Time.
Variable HashBlock : FBlock -> Hash * option Err.
Variable SignBlock : FBlock -> FBlock * option Err.

(** [prepareBlock]: lines 272-295. *)
Definition prepareBlock (prevBlock : option FBlock) (tick : nat) : Test FBlock :=
  match prevBlock with
  | None =>
      GoesOn
        (mkFBlock
           (mkBlock 0%N 0%N 0%N (mkPosition 0 0 0 0) (now tick) [] [] (mkWitness 0 []) [])
           (mkFinalization (now (S tick)) 0))
        (S (S tick))
  | Some prev =>
      if bool_decide (BHash (block prev) = 0%N) then FailsNow   (* Require().NotEqual *)
      else
        GoesOn
          (mkFBlock
             (mkBlock 0%N (BHash (block prev)) 0%N
                (mkPosition 0 0 0 ((Height (Position_ (block prev)) + 1) mod 2 ^ 64)%N)
                (now tick) [] [] (mkWitness 0 []) [])
             (mkFinalization (now (S tick))
                ((fin_Height (Finalization prev) + 1) mod 2 ^ 64)%N))
          (S (S tick))
  end.

Definition setHash (x : Hash) (b : FBlock) : FBlock :=
  mkFBlock
    (mkBlock (ProposerID (block b)) (ParentHash (block b)) x (Position_ (block b))
       (Timestamp (block b)) (Acks (block b)) (Payload (block b)) (Witness_ (block b))
       (Signature (block b)))
    (Finalization b).

(** [newBlock]: lines 297-303. *)
Definition newBlock (prevBlock : option FBlock) (tick : nat) : Test FBlock :=
  match prepareBlock prevBlock tick with
  | GoesOn b tick' =>
      let '(hash, err) := HashBlock b in
      match err with
      | Some _ => FailsNow                                       (* Require().NoError *)
      | None => GoesOn (setHash hash b) tick'
      end
  | FailsNow => FailsNow
  | TestPanics => TestPanics
  end.

(** The loop of [generateCompactionChain], lines 309-313, [n] rounds to
    go. *)
Fixpoint compactionLoop (n : nat) (prevBlock : option FBlock) (tick : nat)
  : Test (list FBlock) :=
  match n with
  | O => GoesOn [] tick
  | S n' =>
      match newBlock prevBlock tick with
      | GoesOn b tick' =>
          match compactionLoop n' (Some b) tick' with        (* prevBlock = block *)
          | GoesOn bs tick'' => GoesOn (b :: bs) tick''
          | FailsNow => FailsNow
          | TestPanics => TestPanics
          end
      | FailsNow => FailsNow
      | TestPanics => TestPanics
      end
  end.

(** [generateCompactionChain]: lines 305-315; [make] panics on a negative
    length. *)
Definition generateCompactionChain (length : Z) (tick : nat) : Test (list FBlock) :=
  if length <? 0 then TestPanics else compactionLoop (Z.to_nat length) None tick.

(** The loop of [generateBlockChain], lines 321-326: [prevBlock] is never
    assigned. *)
Fixpoint blockChainLoop (n : nat) (prevBlock : option FBlock) (tick : nat)
  : Test (list FBlock) :=
  match n with
  | O => GoesOn [] tick
  | S n' =>
      match newBlock prevBlock tick with
      | GoesOn b tick' =>
          let '(b', err) := SignBlock b in
          match err with
          | Some _ => FailsNow
          | None =>
              match blockChainLoop n' prevBlock tick' with
              | GoesOn bs tick'' => GoesOn (b' :: bs) tick''
              | FailsNow => FailsNow
              | TestPanics => TestPanics
              end
          end
      | FailsNow => FailsNow
      | TestPanics => TestPanics
      end
  end.

(** [generateBlockChain]: lines 317-328. *)
Definition generateBlockChain (length : Z) (tick : nat) : Test (list FBlock) :=
  if length <? 0 then TestPanics else blockChainLoop (Z.to_nat length) None tick.

(** The blocks are linked from [prev] on: each one names the hash of the
    one before it as its parent and is one higher, in its position and in
    its finalization. *)
Fixpoint linked (prev : option FBlock) (bs : list FBlock) : Prop :=
  match bs with
  | [] => True
  | b :: rest =>
      match prev with
      | None =>
          ParentHash (block b) = 0%N /\ Height (Position_ (block b)) = 0%N
          /\ fin_Height (Finalization b) = 0%N
      | Some p =>
          ParentHash (block b) = BHash (block p) /\ BHash (block p) <> 0%N
          /\ Height (Position_ (block b)) = ((Height (Position_ (block p)) + 1) mod 2 ^ 64)%N
          /\ fin_Height (Finalization b) = ((fin_Height (Finalization p) + 1) mod 2 ^ 64)%N
      end
      /\ linked (Some b) rest
  end.

End Suite.
End CryptoSuite.

(** ** More stand-ins and concrete states *)
(** ** [core/lattice.go]: the blocks the replay of the pool checks again *)
Module LatticeReplay.
Import Lattice.
Section Facade.

Context `{Crypto, Authenticator, Application, BlockDatabase, BlockPool,
          LatticeDataI, TotalOrderingI, ConsensusTimestampI}.

(** The blocks the loop of lines 171-183 runs [data.sanityCheck] on, in
    order: for each chain in turn, [s.pool.tip(i)] when it is not nil, the
    pool being as the rounds before have left it. *)
Fixpoint recheckedTips (l : list N) (w : World) : list ptr :=
  match l with
  | [] => []
  | i :: l' =>
      option_list (pool_tip (pool w) (heap w) i)
      ++ match replayTip i ([], None) w with
         | Done _ w' => recheckedTips l' w'
         | Panicked _ => []
         end
  end.

(** [s.data.sanityCheck(b) == nil] for the block at address [p]. *)
Definition accepted (w : World) (p : ptr) : bool :=
  match heap w !! p with
  | Some blk => bool_decide (data_sanityCheck (data w) (heap w) blk = None)
  | None => false
  end.

End Facade.
End LatticeReplay.

Module MoreScenarios.
Import SpecModel Doubles Scenarios ConsensusPrepare.

(** The lattice of [worldChild] with a nil [Debug]. *)
Definition worldQuiet : Lattice.World :=
  Lattice.mkWorld (<[2%positive := child]> (<[1%positive := genesis]> ∅))
    1 false (mkToyDB false []) [[]] dataWithGenesis tt tt [].

(** [child] arrives at address 2 while the pool holds its child at
    address 3. *)
Definition worldReplay : Lattice.World :=
  Lattice.mkWorld
    (<[3%positive := grandchild]> (<[2%positive := child]> (<[1%positive := genesis]> ∅)))
    1 true (mkToyDB false []) [[3%positive]] dataWithGenesis tt tt [].

(** Reliable broadcast that leaves a block to prepare as it is, a hash that
    fails with the zero hash, and the key [[7]]. *)
#[export] Instance toyPrepare : PrepareModulesI := {|
  rb_prepareBlock _ _ b := b;
  hashBlock_failed _ := (0%N, ErrModule 0);
  Sign _ := ([7%N], None)
|}.

(** A block as the node of key [[7]] hands it to [PrepareGenesisBlock], and
    the same from nobody. *)
Definition draft : Block :=
  mkBlock (Keccak256Hash [7%N]) 0%N 0%N (mkPosition 0 0 0 0) 0 [] [] (mkWitness 0 []) [].

Definition conWorldOf (b : Block) : Consensus.World :=
  Consensus.mkWorld (<[1%positive := b]> ∅) [] tt tt tt (mkToyDB false []) [].

(** Agreement modules that count what they are shown; a vote is its
    position. *)
#[export] Instance toyBA : ConsensusBA.AgreementI := {|
  ConsensusBA.Agreement := nat;
  ConsensusBA.Vote := Position;
  ConsensusBA.vote_Position v := v;
  ConsensusBA.ba_processVote ba _ := (S ba, None);
  ConsensusBA.ba_processBlock ba _ _ := (S ba, None)
|}.

(** [Consensus] over one chain with its agreement module; the genesis
    block is at address 1. *)
Definition baWorld : ConsensusBA.BAWorld := ConsensusBA.mkBAWorld (conWorld false) [0%nat].

(** Three notaries. *)
Definition notaries : gset Hash := {[5%N; 9%N; 2%N]}.

(** The history of [statsHistory] without its last event. *)
Definition statsGood : list Stats.TestEvent := take 3 statsHistory.

(** Five nodes and the ratio one half. *)
Definition phiHalf : float32 := S754_finite false 8388608 (-24).
Definition configHalf : Config := mkConfig 5 1 phiHalf 1 1000.

(** A clock that ticks once per reading, a hash that is never zero, a
    signer that leaves the block alone. *)
Definition suiteNow (tick : nat) : Time := Z.of_nat tick.
Definition suiteHash (b : CryptoSuite.FBlock) : Hash * option Err :=
  ((1 + Height (Position_ (CryptoSuite.block b)))%N, None).
Definition suiteSign (b : CryptoSuite.FBlock) : CryptoSuite.FBlock * option Err := (b, None).

(** The child of [grandchild]. *)
Definition greatgrandchild : Block := signed (unsigned 0 3 (BHash grandchild) 400 []).

(** [child] at address 2, its child at 3 and its grandchild at 4, nothing
    in the pool; then the same once [SanityCheck] has been run on 3, and on
    3 and 4. *)
Definition worldShelf : Lattice.World :=
  Lattice.mkWorld
    (<[4%positive := greatgrandchild]>
       (<[3%positive := grandchild]>
          (<[2%positive := child]> (<[1%positive := genesis]> ∅))))
    1 true (mkToyDB false []) [[]] dataWithGenesis tt tt [].

Definition worldShelved3 : Lattice.World := final (Lattice.SanityCheck 3%positive worldShelf).
Definition worldShelved : Lattice.World := final (Lattice.SanityCheck 4%positive worldShelved3).

(** [child] at the addresses 2 and 3; the genesis block at the addresses 1
    and 2. *)
Definition worldTwin : Lattice.World :=
  Lattice.mkWorld
    (<[3%positive := child]> (<[2%positive := child]> (<[1%positive := genesis]> ∅)))
    1 true (mkToyDB false []) [[]] dataWithGenesis tt tt [].

Definition conTwin : Consensus.World :=
  Consensus.mkWorld (<[2%positive := genesis]> (<[1%positive := genesis]> ∅))
    [] tt tt tt (mkToyDB false []) [].

(** Ten chains and the ratio nearest to 0.667. *)
Definition configTen : Config := mkConfig 10 1 phi0667 1 1000.

End MoreScenarios.

(** * Theorems *)

(** ** The lattice facade *)
Module LatticeFacts.
Import Lattice.
Section Facts.

Context `{Crypto, Authenticator, Application, BlockDatabase, BlockPool,
          LatticeDataI, TotalOrderingI, ConsensusTimestampI}.

Lemma emitsOnly_ret φ {A} (a : A) : emitsOnly φ (mret a : M World A).
Proof. intros w. exists []. by rewrite app_nil_r. Qed.

Lemma emitsOnly_bind φ {A B} (m : M World A) (k : A -> M World B) :
  emitsOnly φ m -> (forall a, emitsOnly φ (k a)) -> emitsOnly φ (m ≫= k).
Proof.
  intros Hm Hk w. unfold mbind, M_bind, bind.
  destruct (Hm w) as (d1 & E1 & F1).
  destruct (m w) as [a w'|w']; simpl in *.
  - destruct (Hk a w') as (d2 & E2 & F2).
    exists (d1 ++ d2). rewrite E2, E1, app_assoc. split; [done|]. by apply Forall_app.
  - by exists d1.
Qed.

Lemma emitsOnly_gets φ {A} (f : World -> A) : emitsOnly φ (gets f).
Proof. intros w. exists []. by rewrite app_nil_r. Qed.

Lemma emitsOnly_modify φ (f : World -> World) :
  (forall w, log (f w) = log w) -> emitsOnly φ (modify f).
Proof. intros Hf w. exists []. simpl. by rewrite Hf, app_nil_r. Qed.

Lemma emitsOnly_emit φ e : φ e = true -> emitsOnly φ (emit e).
Proof. intros He w. exists [e]. simpl. split; [done|]. by constructor. Qed.

Lemma emitsOnly_deref φ p : emitsOnly φ (deref p).
Proof.
  intros w. exists []. unfold deref. rewrite app_nil_r. by destruct (heap w !! p).
Qed.

Lemma emitsOnly_when φ c m : emitsOnly φ m -> emitsOnly φ (when c m).
Proof. intros Hm. unfold when. destruct c; [done|]. apply (emitsOnly_ret φ tt). Qed.

Lemma emitsOnly_forEach φ {A S} (body : A -> S -> M World S) (l : list A) :
  (forall a s, emitsOnly φ (body a s)) -> forall s, emitsOnly φ (forEach l body s).
Proof.
  intros Hb. induction l as [|a l IH]; intros s; simpl.
  - apply emitsOnly_ret.
  - apply emitsOnly_bind; [apply Hb|apply IH].
Qed.

Ltac emits_step :=
  first
    [ apply emitsOnly_ret
    | apply emitsOnly_gets
    | apply emitsOnly_deref
    | apply emitsOnly_modify; intros ?; reflexivity
    | apply emitsOnly_emit; reflexivity
    | apply emitsOnly_when
    | apply emitsOnly_bind; [|intros ?]
    | case_match ].

(** Replaying the tips of the pool calls nobody. *)
Lemma replayTip_quiet φ i acc : emitsOnly φ (replayTip i acc).
Proof. unfold replayTip. destruct acc. repeat emits_step. Qed.

Lemma replayTips_quiet φ n acc : emitsOnly φ (replayTips n acc).
Proof. apply emitsOnly_forEach. intros. apply replayTip_quiet. Qed.

Lemma hashesOf_quiet φ l : emitsOnly φ (hashesOf l).
Proof. induction l; simpl; repeat emits_step. done. Qed.

(** The ordering loop calls [TotalOrderingDelivered] and nothing else. *)
Lemma orderLoop_emits inLattice : forall verified delivered err,
  emitsOnly isTotalOrderingDelivered (orderLoop inLattice verified delivered err).
Proof.
  induction inLattice as [|b rest IH]; intros verified delivered err; simpl.
  - apply emitsOnly_ret.
  - repeat (first [apply IH | apply hashesOf_quiet | emits_step]).
Qed.

Ltac wsimpl :=
  cbn [heap chainNum debug db pool data toModule ctModule log
       set_heap set_db set_pool set_data set_toModule set_ctModule].

(** Running the first step of a computation. *)
Lemma run_gets {A B} (f : World -> A) (k : A -> M World B) w :
  (gets f ≫= k) w = k (f w) w.
Proof. done. Qed.

Lemma run_modify {B} (f : World -> World) (k : unit -> M World B) w :
  (modify f ≫= k) w = k tt (f w).
Proof. done. Qed.

Lemma run_emit {B} e (k : unit -> M World B) w :
  (emit e ≫= k) w =
  k tt (mkWorld (heap w) (chainNum w) (debug w) (db w) (pool w) (data w) (toModule w)
          (ctModule w) (log w ++ [e])).
Proof. done. Qed.

Lemma run_when {B} c m (k : unit -> M World B) w :
  (when c m ≫= k) w = if c then (m ≫= k) w else k tt w.
Proof. by destruct c. Qed.

Lemma run_assoc {A B C} (m : M World A) (f : A -> M World B) (k : B -> M World C) w :
  ((m ≫= f) ≫= k) w = (m ≫= fun a => f a ≫= k) w.
Proof. unfold mbind, M_bind, bind. by destruct (m w). Qed.

Lemma run_deref {B} p blk (k : Block -> M World B) w :
  heap w !! p = Some blk -> (deref p ≫= k) w = k blk w.
Proof. intros Hp. unfold mbind, M_bind, bind, deref. by rewrite Hp. Qed.

Lemma run_deref_nil {B} p (k : Block -> M World B) w :
  heap w !! p = None -> (deref p ≫= k) w = Panicked w.
Proof. intros Hp. unfold mbind, M_bind, bind, deref. by rewrite Hp. Qed.

(** The four ways through the head of [ProcessBlock], lines 156-169. *)
Lemma ProcessBlock_rejected input w d' e :
  data_addBlock (data w) (heap w) input = (d', inl e) ->
  ProcessBlock input w = Done ([], [], Some e) (set_data d' w).
Proof. intros Hadd. unfold ProcessBlock. rewrite !run_gets, Hadd. done. Qed.

Lemma ProcessBlock_nil input w d' inLattice :
  data_addBlock (data w) (heap w) input = (d', inr inLattice) ->
  heap w !! input = None ->
  ProcessBlock input w = Panicked (set_data d' w).
Proof.
  intros Hadd Hblk. unfold ProcessBlock. rewrite !run_gets, Hadd. cbv beta iota.
  rewrite run_modify. by rewrite run_deref_nil.
Qed.

Lemma ProcessBlock_put_failed input w d' inLattice blk db' e :
  data_addBlock (data w) (heap w) input = (d', inr inLattice) ->
  heap w !! input = Some blk ->
  db_Put (db w) blk = (db', Some e) ->
  ProcessBlock input w =
  Done ([], [], Some e)
    (mkWorld (heap w) (chainNum w) (debug w) db' (pool w) d' (toModule w) (ctModule w)
       (log w ++ [EvDBPut blk false])).
Proof.
  intros Hadd Hblk Hput. unfold ProcessBlock. rewrite !run_gets, Hadd. cbv beta iota.
  rewrite run_modify, (run_deref _ blk) by done. rewrite run_gets. wsimpl.
  rewrite Hput. cbv beta iota. by rewrite run_modify, run_emit.
Qed.

Lemma ProcessBlock_persisted input w d' inLattice blk db' :
  data_addBlock (data w) (heap w) input = (d', inr inLattice) ->
  heap w !! input = Some blk ->
  db_Put (db w) blk = (db', None) ->
  ProcessBlock input w =
  ('(verified, err) ← replayTips (chainNum w) ([], None);
   orderLoop inLattice verified [] err) (afterPurge w blk d' db').
Proof.
  intros Hadd Hblk Hput. unfold ProcessBlock. rewrite !run_gets, Hadd. cbv beta iota.
  rewrite run_modify, (run_deref _ blk) by done. rewrite run_gets. wsimpl.
  rewrite Hput. cbv beta iota. rewrite run_modify, run_emit, run_gets. wsimpl.
  rewrite run_when. unfold afterPurge. destruct (debug w).
  - rewrite run_assoc, !run_emit, run_modify, run_gets. wsimpl.
    rewrite <- !app_assoc. done.
  - rewrite run_modify, run_gets. wsimpl. done.
Qed.

Lemma ProcessBlock_record input w :
  exists d, log (final (ProcessBlock input w)) = log w ++ d /\ invocationRecord w input d.
Proof.
  destruct (data_addBlock (data w) (heap w) input) as [d' [e|inLattice]] eqn:Hadd.
  { rewrite (ProcessBlock_rejected _ _ _ _ Hadd). exists []. rewrite app_nil_r.
    split; [done|constructor]. }
  destruct (heap w !! input) as [blk|] eqn:Hblk.
  2:{ rewrite (ProcessBlock_nil _ _ _ _ Hadd Hblk). exists []. rewrite app_nil_r.
      split; [done|constructor]. }
  destruct (db_Put (db w) blk) as [db' [e|]] eqn:Hput.
  { rewrite (ProcessBlock_put_failed _ _ _ _ _ _ _ Hadd Hblk Hput).
    exists [EvDBPut blk false]. split; [done|by constructor]. }
  rewrite (ProcessBlock_persisted _ _ _ _ _ _ Hadd Hblk Hput).
  match goal with |- context [final (?m (afterPurge _ _ _ _))] => set (tail := m) end.
  assert (Htail : emitsOnly isTotalOrderingDelivered tail).
  { subst tail. repeat (first [apply orderLoop_emits | apply replayTips_quiet | emits_step]). }
  destruct (Htail (afterPurge w blk d' db')) as (tods & Et & Ft).
  exists (EvDBPut blk true ::
            (if debug w then [EvStronglyAcked (BHash blk); EvBlockConfirmed (BHash blk)] else [])
            ++ tods).
  split; [|by constructor].
  rewrite Et. unfold afterPurge. wsimpl. by rewrite <- app_assoc.
Qed.

Lemma record_debugOrder w input d : invocationRecord w input d -> debugOrder d.
Proof.
  intros Hrec h i j e e' r r' Hij Hi Hj _ _ Hr Hr'.
  destruct Hrec as [|blk Hblk|blk tods Hblk Htods].
  - done.
  - destruct j as [|j]; [lia|]. done.
  - assert (Hle : forall k x q, tods !! k = Some x -> rank x = Some q -> q = 2%nat).
    { intros k x q Hk Hq. eapply Forall_lookup_1 in Htods; [|done].
      destruct x; simplify_eq/=. done. }
    destruct (debug w); simpl in *.
    + destruct j as [|[|[|j]]], i as [|[|[|i]]]; simplify_eq/=; try lia;
        try (pose proof (Hle _ _ _ Hj Hr')); try (pose proof (Hle _ _ _ Hi Hr)); lia.
    + destruct j as [|j], i as [|i]; simplify_eq/=; try lia.
      pose proof (Hle _ _ _ Hj Hr'). pose proof (Hle _ _ _ Hi Hr). lia.
Qed.

Lemma record_no_BlockDelivered w input d :
  invocationRecord w input d -> forall b, EvBlockDelivered b ∉ d.
Proof.
  intros Hrec b Hin.
  destruct Hrec as [|blk Hblk|blk tods Hblk Htods].
  - by apply elem_of_nil in Hin.
  - apply list_elem_of_singleton in Hin. done.
  - apply elem_of_cons in Hin as [|Hin]; [done|].
    apply elem_of_app in Hin as [Hin|Hin].
    + destruct (debug w); [|by apply elem_of_nil in Hin].
      apply elem_of_cons in Hin as [|Hin]; [done|].
      by apply list_elem_of_singleton in Hin.
    + eapply Forall_forall in Htods; [|done]. done.
Qed.

Lemma record_allOrNothing w input d : invocationRecord w input d -> allOrNothing d.
Proof.
  intros Hrec. split.
  - intros pre e post Hd Hcb.
    destruct Hrec as [|blk Hblk|blk tods Hblk Htods].
    + by destruct pre.
    + destruct pre as [|? [|]]; simplify_eq/=.
    + destruct pre as [|x pre]; simplify_eq/=. exists blk. apply elem_of_cons. by left.
  - intros b Hfail e Hin Hcb.
    destruct Hrec as [|blk Hblk|blk tods Hblk Htods].
    + by apply elem_of_nil in Hin.
    + apply list_elem_of_singleton in Hin. by subst e.
    + exfalso.
      assert (Hno : forall x, x ∈ EvDBPut blk true ::
                      (if debug w
                       then [EvStronglyAcked (BHash blk); EvBlockConfirmed (BHash blk)]
                       else []) ++ tods ->
                    x <> EvDBPut b false /\ x <> EvDBUpdate b false).
      { intros x Hx. apply elem_of_cons in Hx as [->|Hx]; [done|].
        apply elem_of_app in Hx as [Hx|Hx].
        - destruct (debug w); [|by apply elem_of_nil in Hx].
          apply elem_of_cons in Hx as [->|Hx]; [done|].
          apply list_elem_of_singleton in Hx as ->. done.
        - eapply Forall_forall in Htods; [|done]. by destruct x. }
      destruct Hfail as [Hf|Hf]; apply Hno in Hf; destruct Hf; congruence.
Qed.

(** C2, amended for the facade.  Within one invocation of
    [Lattice.ProcessBlock] the callbacks about a block fire in the order
    StronglyAcked, BlockConfirmed, TotalOrderingDelivered, and the facade
    never fires BlockDelivered. *)
Theorem ProcessBlock_debug_order (input : ptr) (w : World) :
  exists d, log (final (ProcessBlock input w)) = log w ++ d
            /\ invocationRecord w input d
            /\ debugOrder d
            /\ forall b, EvBlockDelivered b ∉ d.
Proof.
  destruct (ProcessBlock_record input w) as (d & Hlog & Hrec).
  exists d. split; [done|]. split; [done|]. split.
  - by eapply record_debugOrder.
  - by eapply record_no_BlockDelivered.
Qed.

(** C3, amended for the facade.  Within one invocation of
    [Lattice.ProcessBlock] no callback fires before [Put] of the input has
    succeeded, and when a database write fails the record of the invocation
    is that failed write alone. *)
Theorem ProcessBlock_all_or_nothing (input : ptr) (w : World) :
  exists d, log (final (ProcessBlock input w)) = log w ++ d
            /\ allOrNothing d
            /\ forall b, EvDBPut b false ∈ d \/ EvDBUpdate b false ∈ d ->
                 d = [EvDBPut b false]
                 /\ exists e w', ProcessBlock input w = Done ([], [], Some e) w'.
Proof.
  destruct (ProcessBlock_record input w) as (d & Hlog & Hrec).
  exists d. split; [done|]. split; [by eapply record_allOrNothing|].
  intros b Hfail.
  destruct (data_addBlock (data w) (heap w) input) as [d' [e|inLattice]] eqn:Hadd.
  { rewrite (ProcessBlock_rejected _ _ _ _ Hadd) in Hlog. simpl in Hlog.
    assert (d = []) as -> by (apply (app_inv_head (log w)); by rewrite app_nil_r).
    destruct Hfail as [Hf|Hf]; by apply elem_of_nil in Hf. }
  destruct (heap w !! input) as [blk|] eqn:Hblk.
  2:{ rewrite (ProcessBlock_nil _ _ _ _ Hadd Hblk) in Hlog. simpl in Hlog.
      assert (d = []) as -> by (apply (app_inv_head (log w)); by rewrite app_nil_r).
      destruct Hfail as [Hf|Hf]; by apply elem_of_nil in Hf. }
  destruct (db_Put (db w) blk) as [db' [e|]] eqn:Hput.
  - rewrite (ProcessBlock_put_failed _ _ _ _ _ _ _ Hadd Hblk Hput) in Hlog |- *.
    simpl in Hlog. apply app_inv_head in Hlog. subst d.
    destruct Hfail as [Hf|Hf]; apply list_elem_of_singleton in Hf; simplify_eq.
    split; [done|]. eauto.
  - exfalso. destruct Hrec as [|blk' Hblk'|blk' tods Hblk' Htods].
    + destruct Hfail as [Hf|Hf]; by apply elem_of_nil in Hf.
    + rewrite (ProcessBlock_persisted _ _ _ _ _ _ Hadd Hblk Hput) in Hlog.
      match type of Hlog with context [final (?m (afterPurge _ _ _ _))] =>
        assert (Htail : emitsOnly isTotalOrderingDelivered m)
          by repeat (first [apply orderLoop_emits | apply replayTips_quiet | emits_step])
      end.
      destruct (Htail (afterPurge w blk d' db')) as (tods & Et & Ft).
      rewrite Et in Hlog. unfold afterPurge in Hlog. simpl in Hlog.
      rewrite <- app_assoc in Hlog. apply app_inv_head in Hlog. simplify_eq/=.
    + assert (Hno : forall x, x ∈ EvDBPut blk' true ::
                      (if debug w
                       then [EvStronglyAcked (BHash blk'); EvBlockConfirmed (BHash blk')]
                       else []) ++ tods ->
                    x <> EvDBPut b false /\ x <> EvDBUpdate b false).
      { intros x Hx. apply elem_of_cons in Hx as [->|Hx]; [done|].
        apply elem_of_app in Hx as [Hx|Hx].
        - destruct (debug w); [|by apply elem_of_nil in Hx].
          apply elem_of_cons in Hx as [->|Hx]; [done|].
          apply list_elem_of_singleton in Hx as ->. done.
        - eapply Forall_forall in Htods; [|done]. by destruct x. }
      destruct Hfail as [Hf|Hf]; apply Hno in Hf; destruct Hf; congruence.
Qed.

Ltac run_all :=
  unfold when, emit, mbind, M_bind, bind, mret, M_ret, ret, gets, modify, deref in *.

(** When [SanityCheck] fails with [ErrAckingBlockNotExists] it has put the
    block into the pool; when it fails with any other error the pool is as
    it was. *)
Lemma SanityCheck_shelves_only_missing_acks (b : ptr) (w w' : World) (e : Err) :
  SanityCheck b w = Done (Some e) w' ->
  (e = ErrAckingBlockNotExists -> pool w' = pool_addBlock (pool w) (heap w) b)
  /\ (e <> ErrAckingBlockNotExists -> pool w' = pool w).
Proof.
  unfold SanityCheck. run_all. intros Hrun.
  repeat (case_match; simplify_eq/=); try done;
    try (case_bool_decide; simplify_eq/=; done).
Qed.

(** Adjacent acks in order, with a transitive [Less], are in order
    throughout. *)
Lemma acksSorted_adjacent acks :
  acksSorted acks = true ->
  forall j p a, acks !! j = Some p -> acks !! S j = Some a -> Less p a = true.
Proof.
  unfold acksSorted. intros Hs j p a Hp Ha.
  apply negb_true_iff in Hs.
  destruct (Less p a) eqn:HL; [done|]. exfalso.
  assert (existsb (ackOutOfOrder acks) (seq 0 (length acks)) = true); [|congruence].
  apply existsb_exists. exists (S j). split.
  - apply in_seq. apply lookup_lt_Some in Ha. lia.
  - simpl. by rewrite Hp, Ha, HL.
Qed.

Lemma acksSorted_ascending acks :
  (forall x y z, Less x y = true -> Less y z = true -> Less x z = true) ->
  acksSorted acks = true -> strictlyAscending acks.
Proof.
  intros Htrans Hs i j a a' Hij Hi Hj.
  assert (Hgen : forall n i a a', acks !! i = Some a -> acks !! (S (i + n)) = Some a' ->
                                  Less a a' = true).
  { clear i j a a' Hij Hi Hj. induction n as [|n IH]; intros i a a' Hi Hj.
    - rewrite Nat.add_0_r in Hj. by eapply acksSorted_adjacent.
    - destruct (acks !! S i) as [m|] eqn:Hm.
      + eapply Htrans; [by eapply acksSorted_adjacent|].
        apply (IH (S i) m a' Hm). by replace (S (S i + n)) with (S (i + S n)) by lia.
      + apply lookup_ge_None in Hm. apply lookup_lt_Some in Hj. lia. }
  apply (Hgen (j - S i)%nat i a a' Hi). by replace (S (i + (j - S i))) with j by lia.
Qed.

(** C8.  A block whose hash is right but whose acks are not strictly
    ascending is rejected with [ErrAcksNotSorted]; the run ends in the state
    it started in: the signature was not looked at ([SigToPub] was not
    called), the pool is untouched. *)
Theorem SanityCheck_rejects_unsorted_acks (b : ptr) (w : World) (blk : Block) :
  (forall x y z, Less x y = true -> Less y z = true -> Less x z = true) ->
  heap w !! b = Some blk ->
  hashBlock blk = Some (BHash blk) ->
  ~ strictlyAscending (Acks blk) ->
  SanityCheck b w = Done (Some ErrAcksNotSorted) w.
Proof.
  intros Htrans Hblk Hhash Hacks.
  unfold SanityCheck. rewrite (run_deref _ blk) by done.
  rewrite bool_decide_eq_true_2 by done. simpl.
  destruct (acksSorted (Acks blk)) eqn:Hs; [|done].
  exfalso. apply Hacks. by apply acksSorted_ascending.
Qed.

(** Two equal acks are not strictly ascending when [Less] is irreflexive. *)
Lemma equal_acks_not_ascending acks i j a :
  (forall x, Less x x = false) ->
  (i < j)%nat -> acks !! i = Some a -> acks !! j = Some a ->
  ~ strictlyAscending acks.
Proof.
  intros Hirr Hij Hi Hj Hasc. specialize (Hasc i j a a Hij Hi Hj).
  rewrite Hirr in Hasc. done.
Qed.

Lemma forEach_app {A S} (l1 l2 : list A) (body : A -> S -> M World S) (s : S) (w : World) :
  forEach (l1 ++ l2) body s w =
  match forEach l1 body s w with
  | Done s' w' => forEach l2 body s' w'
  | Panicked w' => Panicked w'
  end.
Proof.
  revert s w. induction l1 as [|a l1 IH]; intros s w; simpl; [done|].
  unfold mbind, M_bind, bind. destruct (body a s w) as [s' w'|w']; [apply IH|done].
Qed.

Lemma forEach_cons {A S} (a : A) (l : list A) (body : A -> S -> M World S) (s : S) (w : World) :
  forEach (a :: l) body s w =
  match body a s w with
  | Done s' w' => forEach l body s' w'
  | Panicked w' => Panicked w'
  end.
Proof. done. Qed.

Lemma chainIDs_split (n k : N) :
  (k < n)%N ->
  chainIDs n = chainIDs k ++ k :: map N.of_nat (seq (S (N.to_nat k)) (N.to_nat n - S (N.to_nat k))).
Proof.
  intros Hk. unfold chainIDs.
  replace (N.to_nat n) with (N.to_nat k + S (N.to_nat n - S (N.to_nat k)))%nat at 1 by lia.
  rewrite seq_app, map_app. simpl. by rewrite N2Nat.id.
Qed.

(** A chain without a buffered tip is skipped. *)
Lemma replayTips_no_tips (l : list N) acc w :
  (forall j, j ∈ l -> pool_tip (pool w) (heap w) j = None) ->
  forEach l replayTip acc w = Done acc w.
Proof.
  induction l as [|j l IH]; intros Hnone; simpl; [done|].
  unfold mbind, M_bind, bind.
  assert (replayTip j acc w = Done acc w) as ->.
  { unfold replayTip. destruct acc as [v e]. rewrite !run_gets.
    rewrite (Hnone j); [done|]. apply elem_of_cons. by left. }
  apply IH. intros j' Hj'. apply Hnone. apply elem_of_cons. by right.
Qed.

(** A tip that fails its check for good is dropped and leaves its error in
    [err]. *)
Lemma replayTip_rejects k verified err0 w tip tblk e :
  pool_tip (pool w) (heap w) k = Some tip ->
  heap w !! tip = Some tblk ->
  data_sanityCheck (data w) (heap w) tblk = Some e ->
  e <> ErrAckingBlockNotExists ->
  replayTip k (verified, err0) w =
  Done (verified, Some e) (set_pool (pool_removeTip (pool w) (heap w) k) w).
Proof.
  intros Htip Hblk Hcheck Hne. unfold replayTip. rewrite !run_gets, Htip.
  rewrite (run_deref _ tblk) by done. rewrite run_gets, Hcheck.
  rewrite bool_decide_eq_false_2 by congruence. by rewrite run_modify.
Qed.

(** C9.  The input is admitted ([addBlock] succeeds), nothing enters total
    ordering ([inLattice] is empty), the input is persisted ([Put]
    succeeds); the tip of chain [k] is the last one the replay examines (no
    later chain has a tip) and its check fails with an error [e] other than
    [ErrAckingBlockNotExists].  Then [ProcessBlock] returns [e]. *)
Theorem ProcessBlock_returns_pool_tip_error
    (input : ptr) (w : World) (blk : Block) (d' : LatticeData) (db' : DB)
    (k : N) (verified : list ptr) (err0 : option Err) (w1 : World)
    (tip : ptr) (tblk : Block) (e : Err) :
  data_addBlock (data w) (heap w) input = (d', inr []) ->
  heap w !! input = Some blk ->
  db_Put (db w) blk = (db', None) ->
  (k < chainNum w)%N ->
  replayTips k ([], None) (afterPurge w blk d' db') = Done (verified, err0) w1 ->
  pool_tip (pool w1) (heap w1) k = Some tip ->
  heap w1 !! tip = Some tblk ->
  data_sanityCheck (data w1) (heap w1) tblk = Some e ->
  e <> ErrAckingBlockNotExists ->
  (forall j, (k < j < chainNum w)%N ->
             pool_tip (pool_removeTip (pool w1) (heap w1) k) (heap w1) j = None) ->
  ProcessBlock input w =
  Done (verified, [], Some e) (set_pool (pool_removeTip (pool w1) (heap w1) k) w1).
Proof.
  intros Hadd Hblk Hput Hk Hreplay Htip Htblk Hcheck Hne Hlater.
  rewrite (ProcessBlock_persisted _ _ _ _ _ _ Hadd Hblk Hput).
  unfold replayTips in *. rewrite (chainIDs_split _ _ Hk).
  unfold mbind at 1, M_bind, bind at 1.
  rewrite forEach_app, Hreplay, forEach_cons.
  rewrite (replayTip_rejects _ _ _ _ _ _ _ Htip Htblk Hcheck Hne).
  rewrite replayTips_no_tips; [done|].
  intros j Hj. apply Hlater.
  apply list_elem_of_fmap in Hj as (i & -> & Hi).
  apply list_elem_of_In, in_seq in Hi.
  assert (N.to_nat (chainNum (afterPurge w blk d' db')) = N.to_nat (chainNum w)) by done.
  lia.
Qed.

(** What the facade leaves alone. *)
Lemma keeps_ret {X} (f : World -> X) {A} (a : A) : keeps f (mret a : M World A).
Proof. done. Qed.

Lemma keeps_bind {X} (f : World -> X) {A B} (m : M World A) (k : A -> M World B) :
  keeps f m -> (forall a, keeps f (k a)) -> keeps f (m ≫= k).
Proof.
  intros Hm Hk w. unfold mbind, M_bind, bind.
  specialize (Hm w). destruct (m w) as [a w'|w']; simpl in *; [|done].
  by rewrite Hk.
Qed.

Lemma keeps_gets {X} (f : World -> X) {A} (g : World -> A) : keeps f (gets g).
Proof. done. Qed.

Lemma keeps_modify {X} (f : World -> X) (g : World -> World) :
  (forall w, f (g w) = f w) -> keeps f (modify g).
Proof. intros Hg w. apply Hg. Qed.

Lemma keeps_deref {X} (f : World -> X) p : keeps f (deref p).
Proof. intros w. unfold deref. by destruct (heap w !! p). Qed.

Lemma keeps_when {X} (f : World -> X) c m : keeps f m -> keeps f (when c m).
Proof. intros Hm. unfold when. by destruct c. Qed.

Lemma keeps_forEach {X} (f : World -> X) {A S} (body : A -> S -> M World S) (l : list A) :
  (forall a s, keeps f (body a s)) -> forall s, keeps f (forEach l body s).
Proof.
  intros Hb. induction l as [|a l IH]; intros s; simpl.
  - apply keeps_ret.
  - apply keeps_bind; [apply Hb|apply IH].
Qed.

Ltac keeps_step :=
  first
    [ apply keeps_ret
    | apply keeps_gets
    | apply keeps_deref
    | apply keeps_modify; intros ?; reflexivity
    | apply keeps_when
    | apply keeps_bind; [|intros ?]
    | case_match ].

Lemma hashesOf_keeps {X} (f : World -> X) l : keeps f (hashesOf l).
Proof. induction l; simpl; repeat keeps_step. done. Qed.

Lemma orderLoop_keeps_data inLattice : forall verified delivered err,
  keeps data (orderLoop inLattice verified delivered err).
Proof.
  induction inLattice as [|b rest IH]; intros verified delivered err; simpl.
  - apply keeps_ret.
  - repeat (first [apply IH | apply hashesOf_keeps | keeps_step]).
Qed.

Lemma replayTips_keeps_data n acc : keeps data (replayTips n acc).
Proof.
  apply keeps_forEach. intros i [v e]. unfold replayTip. repeat keeps_step.
Qed.

(** The lattice data after [ProcessBlock] are what [addBlock] made of them,
    and [addBlock] was handed the address the caller holds: no copy is made
    on the way in. *)
Lemma ProcessBlock_data input w :
  data (final (ProcessBlock input w)) = fst (data_addBlock (data w) (heap w) input).
Proof.
  destruct (data_addBlock (data w) (heap w) input) as [d' [e|inLattice]] eqn:Hadd.
  { by rewrite (ProcessBlock_rejected _ _ _ _ Hadd). }
  destruct (heap w !! input) as [blk|] eqn:Hblk.
  2:{ by rewrite (ProcessBlock_nil _ _ _ _ Hadd Hblk). }
  destruct (db_Put (db w) blk) as [db' [e|]] eqn:Hput.
  { by rewrite (ProcessBlock_put_failed _ _ _ _ _ _ _ Hadd Hblk Hput). }
  rewrite (ProcessBlock_persisted _ _ _ _ _ _ Hadd Hblk Hput).
  match goal with |- context [final (?m (afterPurge _ _ _ _))] =>
    assert (Htail : keeps data m)
  end.
  { apply keeps_bind; [apply replayTips_keeps_data|].
    intros [v e]. apply orderLoop_keeps_data. }
  by rewrite Htail.
Qed.

End Facts.
End LatticeFacts.

(** ** The entry point of [Consensus] *)
Module ConsensusFacts.
Import Consensus.
Section Facts.

Context `{Crypto, BlockDatabase, ReliableBroadcastI, TotalOrderingI,
          ConsensusTimestampI, CompactionChainI}.

Lemma extends_ret {A} (a : A) : extends (mret a : M World A).
Proof. intros w. exists []. by rewrite app_nil_r. Qed.

Lemma extends_bind {A B} (m : M World A) (k : A -> M World B) :
  extends m -> (forall a, extends (k a)) -> extends (m ≫= k).
Proof.
  intros Hm Hk w. unfold mbind, M_bind, bind.
  destruct (Hm w) as (d1 & E1).
  destruct (m w) as [a w'|w']; simpl in *.
  - destruct (Hk a w') as (d2 & E2).
    exists (d1 ++ d2). by rewrite E2, E1, app_assoc.
  - by exists d1.
Qed.

Lemma extends_gets {A} (f : World -> A) : extends (gets f).
Proof. intros w. exists []. by rewrite app_nil_r. Qed.

Lemma extends_modify (f : World -> World) :
  (forall w, log (f w) = log w) -> extends (modify f).
Proof. intros Hf w. exists []. simpl. by rewrite Hf, app_nil_r. Qed.

Lemma extends_emit e : extends (emit e).
Proof. intros w. by exists [e]. Qed.

Lemma extends_deref p : extends (deref p).
Proof.
  intros w. exists []. unfold deref. rewrite app_nil_r. by destruct (heap w !! p).
Qed.

Ltac extends_step :=
  first
    [ apply extends_ret
    | apply extends_gets
    | apply extends_deref
    | apply extends_modify; intros ?; reflexivity
    | apply extends_emit
    | apply extends_bind; [|intros ?]
    | case_match ].

Lemma putAll_extends l : extends (putAll l).
Proof. induction l; simpl; repeat extends_step. done. Qed.

Lemma hashesOf_extends l : extends (hashesOf l).
Proof. induction l; simpl; repeat extends_step. done. Qed.

Lemma deliverAll_extends l : extends (deliverAll l).
Proof. induction l; simpl; repeat extends_step. done. Qed.

Lemma extractLoop_extends l : extends (extractLoop l).
Proof.
  induction l as [|b rest IH]; simpl.
  - apply extends_ret.
  - repeat (first [apply IH | apply putAll_extends | apply hashesOf_extends
                  | apply deliverAll_extends | extends_step]).
Qed.

Ltac world_simpl :=
  cbn [heap rbModule toModule ctModule ccModule db log
       set_heap set_rbModule set_toModule set_ctModule set_ccModule set_db].

Lemma step_gets {A B} (f : World -> A) (k : A -> M World B) w :
  (gets f ≫= k) w = k (f w) w.
Proof. done. Qed.

Lemma step_modify {B} (f : World -> World) (k : unit -> M World B) w :
  (modify f ≫= k) w = k tt (f w).
Proof. done. Qed.

Lemma step_emit {B} e (k : unit -> M World B) w :
  (emit e ≫= k) w =
  k tt (mkWorld (heap w) (rbModule w) (toModule w) (ctModule w) (ccModule w) (db w)
          (log w ++ [e])).
Proof. done. Qed.

Lemma step_ret {A B} (a : A) (k : A -> M World B) w : (mret a ≫= k) w = k a w.
Proof. done. Qed.

Lemma step_assoc {A B C} (m : M World A) (f : A -> M World B) (k : B -> M World C) w :
  ((m ≫= f) ≫= k) w = (m ≫= fun a => f a ≫= k) w.
Proof. unfold mbind, M_bind, bind. by destruct (m w). Qed.

Lemma step_deref {B} p blk (k : Block -> M World B) w :
  heap w !! p = Some blk -> (deref p ≫= k) w = k blk w.
Proof. intros Hp. unfold mbind, M_bind, bind, deref. by rewrite Hp. Qed.

(** A block that is well placed, hashed and signed passes [sanityCheck]. *)
Lemma sanityCheck_passes b w blk pubKey :
  heap w !! b = Some blk ->
  ShardID (Position_ blk) = 0%N ->
  (ChainID (Position_ blk) < rb_chainNum (rbModule w))%N ->
  hashBlock blk = Some (BHash blk) ->
  SigToPub (BHash blk) (Signature blk) = inr pubKey ->
  ProposerID blk = Keccak256Hash pubKey ->
  sanityCheck b w =
  Done None (mkWorld (heap w) (rbModule w) (toModule w) (ctModule w) (ccModule w) (db w)
               (log w ++ [EvSigToPub (BHash blk) (Signature blk)])).
Proof.
  intros Hblk Hshard Hchain Hhash Hsig Hproposer.
  unfold sanityCheck. rewrite (step_deref _ blk) by done. rewrite step_gets.
  rewrite bool_decide_eq_false_2 by (intros Hne; by apply Hne).
  replace (rb_chainNum (rbModule w) <=? ChainID (Position_ blk))%N with false
    by (symmetry; apply N.leb_gt; exact Hchain).
  rewrite bool_decide_eq_true_2 by done. cbn [orb negb].
  rewrite step_emit, Hsig. by rewrite bool_decide_eq_true_2 by done.
Qed.

(** Whatever the modules do: once the block has passed [sanityCheck] and
    reliable broadcast takes it, the first thing [processBlock] tells the
    application is BlockConfirmed of the input, before any StronglyAcked and
    before any write to the database. *)
Lemma processBlock_confirms_first block w blk pubKey :
  heap w !! block = Some blk ->
  ShardID (Position_ blk) = 0%N ->
  (ChainID (Position_ blk) < rb_chainNum (rbModule w))%N ->
  hashBlock blk = Some (BHash blk) ->
  SigToPub (BHash blk) (Signature blk) = inr pubKey ->
  ProposerID blk = Keccak256Hash pubKey ->
  (forall h b, snd (rb_processBlock (rbModule w) h b) = None) ->
  exists rest,
    log (final (processBlock block w)) =
    log w ++ EvSigToPub (BHash blk) (Signature blk) :: EvBlockConfirmed (BHash blk) :: rest.
Proof.
  intros Hblk Hshard Hchain Hhash Hsig Hproposer Hrb.
  unfold processBlock. unfold mbind at 1, M_bind, bind at 1.
  rewrite (sanityCheck_passes _ _ blk pubKey) by done.
  unfold clone. rewrite step_assoc, (step_deref _ blk) by done.
  rewrite step_assoc, step_gets, step_assoc, step_modify, step_ret.
  rewrite !step_gets. world_simpl.
  match goal with |- context [rb_processBlock (rbModule w) ?h ?b] =>
    pose proof (Hrb h b) as Hok;
    assert (Hne : b <> block);
    [ intros Heq; apply (is_fresh (dom (D:=gset positive) (heap w))); apply elem_of_dom;
      exists blk; rewrite <- Hblk; f_equal; exact Heq
    | destruct (rb_processBlock (rbModule w) h b) as [rb' err] ]
  end.
  simpl in Hok. subst err.
  rewrite step_modify, (step_deref _ blk) by (world_simpl; by rewrite lookup_insert_ne).
  rewrite step_emit, !step_gets. world_simpl.
  match goal with |- context [final (?m ?w1)] =>
    assert (Hext : extends m) by repeat (first [apply extractLoop_extends | extends_step]);
    destruct (Hext w1) as (rest & Hrest)
  end.
  exists rest. rewrite Hrest. simpl log. by rewrite <- !app_assoc.
Qed.

(** [Consensus.processBlock] works on a copy: the address [clone] returns
    is not the caller's, nobody held it before, and the caller's block is
    where it was. *)
Lemma clone_fresh block w b w' :
  clone block w = Done b w' ->
  exists blk, heap w !! block = Some blk
              /\ b <> block
              /\ heap w !! b = None
              /\ heap w' = <[b := blk]> (heap w)
              /\ heap w' !! block = Some blk.
Proof.
  unfold clone, mbind, M_bind, bind, deref, gets, modify, mret, M_ret, ret.
  destruct (heap w !! block) as [blk|] eqn:Hblk; [|done].
  intros Hrun. simplify_eq/=. exists blk.
  assert (Hfresh : fresh (dom (heap w) : gset positive) ∉ (dom (heap w) : gset positive))
    by apply is_fresh.
  assert (Hne : fresh (dom (heap w) : gset positive) <> block).
  { intros Heq. apply Hfresh. apply elem_of_dom. exists blk.
    rewrite <- Hblk. f_equal. exact Heq. }
  split; [done|]. split; [done|]. split; [by apply not_elem_of_dom|].
  split; [done|]. by rewrite lookup_insert_ne.
Qed.

End Facts.
End ConsensusFacts.

(** ** The statistics *)
Module StatsFacts.
Import Stats.

(** With an event of an unknown payload ahead, the loop of [calculate] does
    not come back without an error. *)
Lemma calculateLoop_unknown rest history apps m all :
  (exists e, e ∈ rest /\ ev_Payload e = PayloadOther) ->
  (exists k, calculateLoop rest history apps m all = Panics k)
  \/ (exists m' all' err, calculateLoop rest history apps m all = Returns (m', all', Some err)).
Proof.
  revert m all. induction rest as [|e rest IH]; intros m all (bad & Hin & Hbad).
  { by apply elem_of_nil in Hin. }
  simpl. destruct (ev_Payload e) as [payload|] eqn:Hp.
  2:{ right. exists m, all, ErrUnknownEvent. done. }
  assert (Hrest : exists e', e' ∈ rest /\ ev_Payload e' = PayloadOther).
  { apply elem_of_cons in Hin as [->|Hin]; [congruence|]. eauto. }
  destruct (Type_ payload).
  - unfold mbind, Outcome_bind.
    destruct (newBlockProposeEvent all e history) as [all'|k]; [|left; eauto].
    destruct (getStatsSetByNode m (ev_NodeID e)) as [s m'].
    destruct (newBlockProposeEvent s e history) as [s'|k]; [|left; eauto].
    by apply IH.
  - unfold mbind, Outcome_bind.
    destruct (newBlockReceiveEvent all e payload history (apps !! ev_NodeID e))
      as [all'|k]; [|left; eauto].
    destruct (getStatsSetByNode m (ev_NodeID e)) as [s m'].
    destruct (newBlockReceiveEvent s e payload history (apps !! ev_NodeID e))
      as [s'|k]; [|left; eauto].
    by apply IH.
  - right. exists m, all, ErrUnknownConsensusEventType. done.
Qed.

(** Once [calculate] has returned an error, [stats] is nil and [summary]
    dereferences it. *)
Lemma NewStats_error_panics history apps st err :
  calculate (mkStats ∅ emptyStatsSet (S754_zero false) 0) history apps
    = Returns (st, Some err) ->
  NewStats history apps = Panics PanicNilDereference.
Proof. intros Hcalc. unfold NewStats. rewrite Hcalc. done. Qed.

(** [NewStats] returns no error at all: whenever it returns, [err] is nil. *)
Lemma NewStats_returns_no_error history apps stats err :
  NewStats history apps = Returns (stats, err) -> err = None.
Proof.
  unfold NewStats, mbind, Outcome_bind. intros Hret.
  destruct (calculate _ history apps) as [[st [e|]]|k]; cbv beta iota in Hret;
    [discriminate| |discriminate].
  destruct (summary (Some st) history); [|discriminate].
  unfold mret, Outcome_ret in Hret. by injection Hret.
Qed.

(** C10, amended.  On a history with an event whose payload is not a
    [consensusEventPayload], [NewStats] panics: it does not return
    [ErrUnknownEvent].  [calculate] either comes back with its error, and
    then [stats] is set to nil and the panic is the dereference of the nil
    [stats] in [summary]; or it panics itself (in the loop, or in the
    deferred [done], which divides by a count that is zero), and then that
    panic leaves [NewStats] before [stats = nil] is reached. *)
Theorem NewStats_panics_on_unknown_event
    (history : list TestEvent) (apps : gmap N App) :
  (exists e, e ∈ history /\ ev_Payload e = PayloadOther) ->
  (exists k, NewStats history apps = Panics k)
  /\ (forall stats, NewStats history apps <> Returns (stats, Some ErrUnknownEvent))
  /\ (forall st err,
        calculate (mkStats ∅ emptyStatsSet (S754_zero false) 0) history apps
          = Returns (st, Some err) ->
        NewStats history apps = Panics PanicNilDereference)
  /\ (forall k,
        calculate (mkStats ∅ emptyStatsSet (S754_zero false) 0) history apps = Panics k ->
        NewStats history apps = Panics k)
  /\ ((exists st err,
         calculate (mkStats ∅ emptyStatsSet (S754_zero false) 0) history apps
           = Returns (st, Some err))
      \/ (exists k,
            calculate (mkStats ∅ emptyStatsSet (S754_zero false) 0) history apps
              = Panics k)).
Proof.
  intros Hbad.
  assert (Hcalc :
    (exists st err,
       calculate (mkStats ∅ emptyStatsSet (S754_zero false) 0) history apps
         = Returns (st, Some err))
    \/ (exists k,
          calculate (mkStats ∅ emptyStatsSet (S754_zero false) 0) history apps
            = Panics k)).
  { unfold calculate, mbind, Outcome_bind. simpl.
    destruct (calculateLoop_unknown history history apps ∅ emptyStatsSet Hbad)
      as [[k Hk]|(m' & all' & err & Hret)].
    - rewrite Hk. eauto.
    - rewrite Hret. destruct (calculateDeferred m' all') as [[m'' all'']|k]; simpl; eauto. }
  assert (Hthrough : forall k,
    calculate (mkStats ∅ emptyStatsSet (S754_zero false) 0) history apps = Panics k ->
    NewStats history apps = Panics k).
  { intros k Hk. unfold NewStats. by rewrite Hk. }
  assert (Hpanics : exists k, NewStats history apps = Panics k).
  { destruct Hcalc as [(st & err & Hret)|[k Hk]].
    - exists PanicNilDereference. by eapply NewStats_error_panics.
    - exists k. by apply Hthrough. }
  split; [done|]. split.
  { intros stats Hret. destruct Hpanics as [k Hk]. congruence. }
  split; [apply NewStats_error_panics|]. split; done.
Qed.

End StatsFacts.

(** ** The threshold of total ordering *)
Module ThresholdFacts.

Lemma digits2_size p : digits2_pos p = Pos.size p.
Proof. induction p; simpl; congruence. Qed.

(* 2^(d-1) <= m < 2^d *)
Lemma digits2_bounds p :
  2 ^ (Z.pos (digits2_pos p) - 1) <= Z.pos p < 2 ^ Z.pos (digits2_pos p).
Proof.
  rewrite digits2_size. split.
  - pose proof (Pos.size_le p) as H.
    assert (2 ^ Z.pos (Pos.size p) <= 2 * Z.pos p).
    { change (2 * Z.pos p) with (Z.pos p~0). rewrite <- Pos2Z.inj_pow. apply Pos2Z.pos_le_pos. exact H. }
    replace (Z.pos (Pos.size p)) with (Z.succ (Z.pos (Pos.size p) - 1)) in H0 by lia.
    rewrite Z.pow_succ_r in H0 by lia. lia.
  - pose proof (Pos.size_gt p) as H. 
    change 2 with (Z.pos 2). rewrite <- Pos2Z.inj_pow. apply Pos2Z.pos_lt_pos. exact H.
Qed.

Lemma shr_1_m r : 0 <= shr_m r -> shr_m (shr_1 r) = shr_m r / 2.
Proof.
  destruct r as [m rb sb]. simpl. intros Hm.
  destruct m as [|p|p]; [reflexivity| |lia].
  destruct p as [p|p|]; simpl.
  - rewrite <- Z.div2_div. reflexivity.
  - rewrite <- Z.div2_div. reflexivity.
  - reflexivity.
Qed.

Lemma shr_m_iter p : forall r, 0 <= shr_m r ->
  shr_m (SpecFloat.iter_pos shr_1 p r) = shr_m r / 2 ^ Z.pos p.
Proof.
  induction p as [p IH|p IH|]; intros r Hr; simpl SpecFloat.iter_pos.
  - assert (H1 : 0 <= shr_m (shr_1 r)) by (rewrite shr_1_m by lia; apply Z.div_pos; lia).
    assert (H2 : 0 <= shr_m (SpecFloat.iter_pos shr_1 p (shr_1 r))) by (rewrite IH by lia; apply Z.div_pos; lia).
    rewrite IH by lia. rewrite IH by lia. rewrite shr_1_m by lia.
    rewrite !Z.div_div by lia. f_equal.
    replace (Z.pos p~1) with (1 + Z.pos p + Z.pos p) by lia.
    rewrite !Z.pow_add_r by lia. change (2 ^ 1) with 2. ring.
  - assert (H2 : 0 <= shr_m (SpecFloat.iter_pos shr_1 p r)) by (rewrite IH by lia; apply Z.div_pos; lia).
    rewrite IH by lia. rewrite IH by lia.
    rewrite !Z.div_div by lia. f_equal.
    replace (Z.pos p~0) with (Z.pos p + Z.pos p) by lia.
    rewrite !Z.pow_add_r by lia. ring.
  - rewrite shr_1_m by lia. reflexivity.
Qed.


Lemma shr_1_clean r : clean r -> 0 <= shr_m r -> shr_m r mod 2 = 0 -> clean (shr_1 r).
Proof.
  destruct r as [m rb sb]. unfold clean. simpl. intros [-> ->] Hm Hmod.
  destruct m as [|p|p]; [done| |lia].
  destruct p as [p|p|]; simpl; try done.
  - rewrite Pos2Z.inj_xI in Hmod. rewrite Z.add_comm, Z.mul_comm, Z.mod_add in Hmod by lia. discriminate.
Qed.

Lemma shr_iter_clean p : forall r, clean r -> 0 <= shr_m r ->
  shr_m r mod 2 ^ Z.pos p = 0 -> clean (SpecFloat.iter_pos shr_1 p r).
Proof.
  assert (Hdiv : forall m a b, 0 < a -> 0 < b -> m mod (a * b) = 0 -> m mod a = 0 /\ (m / a) mod b = 0).
  { intros m a b Ha Hb Hm. apply Z.mod_divide in Hm; [|lia]. destruct Hm as [q Hq]. subst m.
    split.
    - replace (q * (a * b)) with (q * b * a) by ring. apply Z.mod_mul. lia.
    - replace (q * (a * b)) with (q * b * a) by ring. rewrite Z.div_mul by lia. apply Z.mod_mul. lia. }
  induction p as [p IH|p IH|]; intros r Hc Hr Hmod; simpl SpecFloat.iter_pos.
  - replace (Z.pos p~1) with (1 + Z.pos p + Z.pos p) in Hmod by lia.
    rewrite !Z.pow_add_r in Hmod by lia. change (2 ^ 1) with 2 in Hmod.
    rewrite <- Z.mul_assoc in Hmod.
    apply Hdiv in Hmod as [H1 H2]; [|lia|]. 2:{ pose proof (Z.pow_pos_nonneg 2 (Z.pos p)). lia. }
    apply Hdiv in H2 as [H2 H3]; try (apply Z.pow_pos_nonneg; lia).
    assert (Hm1 : shr_m (shr_1 r) = shr_m r / 2) by (apply shr_1_m; lia).
    assert (Hp1 : 0 <= shr_m (shr_1 r)) by (rewrite Hm1; apply Z.div_pos; lia).
    assert (Hm2 : shr_m (SpecFloat.iter_pos shr_1 p (shr_1 r)) = shr_m r / 2 / 2 ^ Z.pos p)
      by (rewrite shr_m_iter by lia; rewrite Hm1; reflexivity).
    apply IH.
    + apply IH; [apply shr_1_clean; assumption|lia|rewrite Hm1; assumption].
    + rewrite Hm2. apply Z.div_pos; [apply Z.div_pos; lia|]. apply Z.pow_pos_nonneg; lia.
    + rewrite Hm2. assumption.
  - replace (Z.pos p~0) with (Z.pos p + Z.pos p) in Hmod by lia.
    rewrite !Z.pow_add_r in Hmod by lia.
    apply Hdiv in Hmod as [H1 H2]; try (apply Z.pow_pos_nonneg; lia).
    assert (Hm2 : shr_m (SpecFloat.iter_pos shr_1 p r) = shr_m r / 2 ^ Z.pos p)
      by (rewrite shr_m_iter by lia; reflexivity).
    apply IH.
    + apply IH; assumption.
    + rewrite Hm2. apply Z.div_pos; [lia|]. apply Z.pow_pos_nonneg; lia.
    + rewrite Hm2. assumption.
  - apply shr_1_clean; assumption.
Qed.

Lemma clean_loc r : clean r -> loc_of_shr_record r = loc_Exact.
Proof. destruct r as [m rb sb]. intros [H1 H2]. simpl in *. subst. reflexivity. Qed.

(** One truncation to the exponent of the format. *)
Lemma shr_fexp_spec prec emax m e :
  0 <= m ->
  let s := Z.max 0 (fexp prec emax (Zdigits2 m + e) - e) in
  exists mrs, shr_fexp prec emax m e loc_Exact = (mrs, e + s)
    /\ shr_m mrs = m / 2 ^ s
    /\ (m mod 2 ^ s = 0 -> loc_of_shr_record mrs = loc_Exact).
Proof.
  intros Hm. cbv zeta. unfold shr_fexp, shr. simpl shr_record_of_loc.
  destruct (fexp prec emax (Zdigits2 m + e) - e) as [|p|p] eqn:Hs.
  - exists (Build_shr_record m false false). simpl.
    rewrite Z.add_0_r, Z.div_1_r. repeat split; reflexivity.
  - exists (SpecFloat.iter_pos shr_1 p (Build_shr_record m false false)).
    replace (Z.max 0 (Z.pos p)) with (Z.pos p) by lia. split; [reflexivity|]. split.
    + rewrite shr_m_iter by (simpl; lia). reflexivity.
    + intros Hmod. apply clean_loc. apply shr_iter_clean; [split; reflexivity|simpl; lia|assumption].
  - exists (Build_shr_record m false false).
    replace (Z.max 0 (Z.neg p)) with 0 by lia. simpl.
    rewrite Z.add_0_r, Z.div_1_r. repeat split; reflexivity.
Qed.

Lemma round_nearest_even_bounds m l :
  m <= round_nearest_even m l <= m + 1 /\ (l = loc_Exact -> round_nearest_even m l = m).
Proof.
  split.
  - destruct l as [|[| |]]; simpl; try lia. destruct (Z.even m); lia.
  - intros ->. reflexivity.
Qed.


Lemma pow2_pos n : 0 <= n -> 0 < 2 ^ n.
Proof. intros. apply Z.pow_pos_nonneg; lia. Qed.

Lemma pow2_split a b : 0 <= a -> 0 <= b -> 2 ^ (a + b) = 2 ^ a * 2 ^ b.
Proof. intros. apply Z.pow_add_r; lia. Qed.

Lemma Zdigits2_bounds m : 0 < m -> 0 < Zdigits2 m /\ 2 ^ (Zdigits2 m - 1) <= m < 2 ^ Zdigits2 m.
Proof.
  destruct m as [|p|p]; try lia. intros _. simpl. split; [lia|]. apply digits2_bounds.
Qed.

Lemma digits_exp_bound m e :
  0 < m -> - bias <= e -> sc m e < 2 ^ (24 + bias) -> Zdigits2 m + e <= 24.
Proof.
  intros Hm He Hlt. destruct (Zdigits2_bounds m Hm) as [Hd [Hlo _]].
  unfold sc in Hlt.
  assert (H1 : 2 ^ (Zdigits2 m - 1 + (e + bias)) < 2 ^ (24 + bias)).
  { rewrite pow2_split by lia. pose proof (pow2_pos (e + bias)). nia. }
  apply Z.pow_lt_mono_r_iff in H1; unfold bias in *; lia.
Qed.

Lemma floor_lower m e s k :
  0 <= m -> - bias <= e -> 0 <= s -> e + s <= 0 ->
  k * 2 ^ bias <= sc m e -> k * 2 ^ bias <= sc (m / 2 ^ s) (e + s).
Proof.
  intros Hm He Hs Hes Hk. unfold sc in *.
  set (u := 2 ^ (e + bias)) in *. set (S := 2 ^ s). set (G := 2 ^ (- (e + s))).
  assert (Hu : 0 < u) by (apply pow2_pos; lia).
  assert (HS : 0 < S) by (apply pow2_pos; lia).
  assert (HG : 0 < G) by (apply pow2_pos; lia).
  assert (E1 : 2 ^ (e + s + bias) = u * S).
  { subst u S. rewrite <- pow2_split by lia. f_equal. lia. }
  assert (E2 : 2 ^ bias = G * (u * S)).
  { rewrite <- E1. subst G. rewrite <- pow2_split by lia. f_equal. lia. }
  rewrite E1, E2 in *.
  assert (H1 : k * G * S <= m) by nia.
  assert (H2 : k * G <= m / S) by (apply Z.div_le_lower_bound; lia).
  nia.
Qed.

Lemma floor_upper m e s :
  0 <= m -> - bias <= e -> 0 <= s -> sc (m / 2 ^ s) (e + s) <= sc m e.
Proof.
  intros Hm He Hs. unfold sc.
  replace (e + s + bias) with (s + (e + bias)) by lia. rewrite pow2_split by lia.
  pose proof (pow2_pos (e + bias)). pose proof (pow2_pos s Hs).
  pose proof (Z.mul_div_le m (2 ^ s)). nia.
Qed.

Lemma ceil_upper m e s k :
  0 <= m -> - bias <= e -> 0 <= s -> e + s <= 0 ->
  sc m e <= k * 2 ^ bias -> m mod 2 ^ s <> 0 ->
  sc (m / 2 ^ s + 1) (e + s) <= k * 2 ^ bias.
Proof.
  intros Hm He Hs Hes Hk Hmod. unfold sc in *.
  set (u := 2 ^ (e + bias)) in *. set (S := 2 ^ s) in *. set (G := 2 ^ (- (e + s))).
  assert (Hu : 0 < u) by (apply pow2_pos; lia).
  assert (HS : 0 < S) by (apply pow2_pos; lia).
  assert (HG : 0 < G) by (apply pow2_pos; lia).
  assert (E1 : 2 ^ (e + s + bias) = u * S).
  { subst u S. rewrite <- pow2_split by lia. f_equal. lia. }
  assert (E2 : 2 ^ bias = G * (u * S)).
  { rewrite <- E1. subst G. rewrite <- pow2_split by lia. f_equal. lia. }
  rewrite E1, E2 in *.
  assert (H1 : m <= k * G * S) by nia.
  assert (H2 : m <> k * G * S).
  { intros ->. apply Hmod. apply Z.mod_mul. lia. }
  assert (H3 : m / S < k * G) by (apply Z.div_lt_upper_bound; lia).
  nia.
Qed.

Lemma fexp32 x : fexp prec emax x = Z.max (x - 24) (-149).
Proof. reflexivity. Qed.

(** One rounding, followed by the renormalisation, keeps a value between
    the integers it was between. *)
Lemma round_between mx ex k1 k2 :
  0 < mx -> - bias <= ex -> 0 <= k1 -> k2 < 2 ^ 24 ->
  k1 * 2 ^ bias <= sc mx ex <= k2 * 2 ^ bias ->
  between k1 k2 (binary_round_aux prec emax false mx ex loc_Exact).
Proof.
  intros Hmx Hex Hk1 Hk2 [Hlo Hhi].
  assert (Hb : 0 < 2 ^ bias) by (apply pow2_pos; unfold bias; lia).
  assert (Hcap : forall m e, sc m e <= k2 * 2 ^ bias -> sc m e < 2 ^ (24 + bias)).
  { intros m e Hle. rewrite pow2_split by (unfold bias; lia). nia. }
  unfold binary_round_aux.
  (* first truncation *)
  destruct (shr_fexp_spec prec emax mx ex ltac:(lia)) as (mrs1 & E1 & Hq1 & Hx1).
  rewrite E1. set (s1 := Z.max 0 (fexp prec emax (Zdigits2 mx + ex) - ex)) in *.
  set (e1 := ex + s1) in *.
  pose proof (digits_exp_bound mx ex Hmx Hex (Hcap _ _ Hhi)) as Hd.
  destruct (Zdigits2_bounds mx Hmx) as [Hdpos _].
  assert (Hs1 : 0 <= s1) by (subst s1; lia).
  assert (He1 : -149 <= e1 /\ (0 < s1 -> e1 <= 0) /\ e1 <= 23 /\ - bias <= e1).
  { subst e1 s1. rewrite fexp32. unfold bias in *. lia. }
  destruct (round_nearest_even_bounds (shr_m mrs1) (loc_of_shr_record mrs1)) as [Hr1 Hr1x].
  set (m1 := round_nearest_even (shr_m mrs1) (loc_of_shr_record mrs1)) in *.
  rewrite Hq1 in Hr1.
  assert (Hm1 : 0 <= m1).
  { assert (0 <= mx / 2 ^ s1) by (apply Z.div_pos; [lia|apply pow2_pos; lia]). lia. }
  assert (Hbr1 : k1 * 2 ^ bias <= sc m1 e1 <= k2 * 2 ^ bias).
  { destruct (Z.eq_dec s1 0) as [Hz|Hnz].
    - assert (m1 = mx) as ->.
      { subst m1. rewrite Hr1x; [rewrite Hq1, Hz; apply Z.div_1_r|].
        apply Hx1. rewrite Hz. apply Z.mod_1_r. }
      subst e1. rewrite Hz, Z.add_0_r. done.
    - assert (He10 : e1 <= 0) by lia. split.
      + pose proof (floor_lower mx ex s1 k1 ltac:(lia) Hex Hs1 He10 Hlo) as Hfl.
        fold e1 in Hfl. unfold sc in *. pose proof (pow2_pos (e1 + bias) ltac:(lia)). nia.
      + destruct (Z.eq_dec (mx mod 2 ^ s1) 0) as [Hdiv|Hndiv].
        * assert (m1 = mx / 2 ^ s1) as ->.
          { subst m1. rewrite Hr1x; [done|]. by apply Hx1. }
          pose proof (floor_upper mx ex s1 ltac:(lia) Hex Hs1). fold e1 in H. lia.
        * pose proof (ceil_upper mx ex s1 k2 ltac:(lia) Hex Hs1 He10 Hhi Hndiv) as Hce.
          fold e1 in Hce. unfold sc in *. pose proof (pow2_pos (e1 + bias) ltac:(lia)). nia. }
  (* renormalisation *)
  destruct (shr_fexp_spec prec emax m1 e1 Hm1) as (mrs2 & E2 & Hq2 & _).
  rewrite E2. set (s2 := Z.max 0 (fexp prec emax (Zdigits2 m1 + e1) - e1)) in *.
  assert (Hs2 : 0 <= s2) by (subst s2; lia).
  assert (He2 : e1 + s2 <= 23 /\ (0 < s2 -> e1 + s2 <= 0 /\ 0 < m1)).
  { destruct (Z.eq_dec m1 0) as [Hz|Hnz].
    - subst s2. rewrite Hz. simpl Zdigits2. rewrite fexp32. lia.
    - pose proof (digits_exp_bound m1 e1 ltac:(lia) ltac:(lia) (Hcap _ _ (proj2 Hbr1))) as Hd1.
      subst s2. rewrite fexp32. lia. }
  rewrite Hq2.
  assert (Hbr2 : k1 * 2 ^ bias <= sc (m1 / 2 ^ s2) (e1 + s2) <= k2 * 2 ^ bias).
  { destruct (Z.eq_dec s2 0) as [Hz|Hnz].
    - rewrite Hz, Z.div_1_r, Z.add_0_r. done.
    - split.
      + apply floor_lower; lia.
      + pose proof (floor_upper m1 e1 s2 Hm1 ltac:(lia) Hs2). lia. }
  assert (Hm3 : 0 <= m1 / 2 ^ s2) by (apply Z.div_pos; [lia|apply pow2_pos; lia]).
  destruct (m1 / 2 ^ s2) as [|m3|m3] eqn:Em3; [| |lia].
  - simpl. unfold sc in *. split; [nia|]. pose proof (pow2_pos (ex + bias) ltac:(lia)). nia.
  - replace (e1 + s2 <=? emax - prec) with true.
    2:{ symmetry. apply Z.leb_le. unfold emax, prec. lia. }
    simpl. split; [lia|done].
Qed.

Lemma shl_align_spec mx ex ex' :
  - bias <= ex -> - bias <= ex' ->
  exists mz, shl_align mx ex ex' = (mz, Z.min ex ex')
             /\ sc (Z.pos mz) (Z.min ex ex') = sc (Z.pos mx) ex.
Proof.
  intros Hex Hex'. unfold shl_align.
  destruct (ex' - ex) as [|d|d] eqn:Hd.
  - exists mx. replace (Z.min ex ex') with ex by lia. done.
  - exists mx. replace (Z.min ex ex') with ex by lia. done.
  - exists (Pos.iter xO mx d). replace (Z.min ex ex') with ex' by lia. split; [done|].
    change (Pos.iter xO mx d) with (shift_pos d mx). rewrite shift_pos_correct.
    change (Z.pow_pos 2 d) with (2 ^ Z.pos d). unfold sc.
    replace (ex + bias) with (Z.pos d + (ex' + bias)) by lia.
    rewrite (pow2_split (Z.pos d) (ex' + bias)) by lia. ring.
Qed.

Lemma binary_round_between mx ex k1 k2 :
  - bias <= ex -> 0 <= k1 -> k2 < 2 ^ 24 ->
  k1 * 2 ^ bias <= sc (Z.pos mx) ex <= k2 * 2 ^ bias ->
  between k1 k2 (binary_round prec emax false mx ex).
Proof.
  intros Hex Hk1 Hk2 Hbr. unfold binary_round.
  assert (He' : - bias <= fexp prec emax (Z.pos (digits2_pos mx) + ex))
    by (rewrite fexp32; unfold bias; lia).
  destruct (shl_align_spec mx ex _ Hex He') as (mz & -> & Hsc).
  apply round_between; try lia.
Qed.

Lemma of_Z_between n : 0 <= n < 2 ^ 24 -> between n n (of_Z n).
Proof.
  intros Hn. unfold of_Z, binary_normalize.
  destruct n as [|p|p]; [simpl; lia| |lia].
  apply binary_round_between; try lia; [unfold bias; lia|].
  unfold sc. rewrite Z.add_0_l. lia.
Qed.

Lemma one_between : between 1 1 one.
Proof. apply (of_Z_between 1). lia. Qed.

Lemma valid_exponent m e : valid_binary prec emax (S754_finite false m e) = true -> -149 <= e.
Proof.
  simpl. unfold bounded, canonical_mantissa. intros Hv.
  apply andb_true_iff in Hv as [Hc _]. apply Z.eqb_eq in Hc. rewrite fexp32 in Hc. lia.
Qed.

(** The exact product lies between its floor and the next integer. *)
Lemma floorMul_sc n m e :
  0 <= n -> - bias <= e ->
  let F := floorMul n (S754_finite false m e) in
  0 <= F /\ F * 2 ^ bias <= sc (n * Z.pos m) e <= (F + 1) * 2 ^ bias.
Proof.
  intros Hn He. simpl. unfold sc.
  destruct (0 <=? e) eqn:Hs.
  - apply Z.leb_le in Hs. rewrite (pow2_split e bias) by (unfold bias; lia).
    pose proof (pow2_pos e Hs). pose proof (pow2_pos bias ltac:(unfold bias; lia)). nia.
  - apply Z.leb_gt in Hs.
    assert (E : 2 ^ bias = 2 ^ (- e) * 2 ^ (e + bias)).
    { rewrite <- pow2_split by lia. f_equal. lia. }
    rewrite E. pose proof (pow2_pos (- e) ltac:(lia)). pose proof (pow2_pos (e + bias) ltac:(lia)).
    assert (0 <= n * Z.pos m) by lia.
    pose proof (Z.mul_div_le (n * Z.pos m) (2 ^ (- e)) ltac:(lia)).
    pose proof (Z.mul_succ_div_gt (n * Z.pos m) (2 ^ (- e)) ltac:(lia)).
    assert (0 <= n * Z.pos m / 2 ^ (- e)) by (apply Z.div_pos; lia).
    split; [lia|]. nia.
Qed.

(** The product of the mantissas, at the sum of the exponents, is the
    product of the values. *)
Lemma sc_product n mn en mphi ephi :
  -149 <= en -> -149 <= ephi -> sc (Z.pos mn) en = n * 2 ^ bias ->
  sc (Z.pos (mn * mphi)) (en + ephi) = sc (n * Z.pos mphi) ephi.
Proof.
  intros Hen Hephi Hsc. unfold sc in *. rewrite Pos2Z.inj_mul.
  assert (Hb : 0 < 2 ^ bias) by (apply pow2_pos; unfold bias; lia).
  assert (E2 : 2 ^ (en + bias) * 2 ^ (ephi + bias) = 2 ^ (en + ephi + bias) * 2 ^ bias).
  { rewrite <- !pow2_split by (unfold bias; lia). f_equal. lia. }
  apply (Z.mul_cancel_r _ _ (2 ^ bias)); [lia|].
  transitivity (Z.pos mn * 2 ^ (en + bias) * (Z.pos mphi * 2 ^ (ephi + bias))).
  - rewrite <- Z.mul_assoc, <- E2. ring.
  - rewrite Hsc. ring.
Qed.

Lemma floorMul_zero phi : floorMul 0 phi = 0.
Proof.
  destruct phi as [| | |[|] m e]; simpl; try reflexivity.
  destruct (0 <=? e) eqn:Hs; [reflexivity|]. apply Z.leb_gt in Hs.
  apply Z.div_0_l. pose proof (pow2_pos (- e)). lia.
Qed.

(** [float32(n) * phi] is between the floor of the product and the next
    integer. *)
Lemma mul_between n phi :
  0 <= n < 2 ^ 24 -> ratio phi = true -> floorMul n phi + 1 < 2 ^ 24 ->
  between (floorMul n phi) (floorMul n phi + 1) (mul (of_Z n) phi).
Proof.
  intros Hn Hphi HF. pose proof (of_Z_between n Hn) as Hof.
  destruct phi as [sphi| | |[|] mphi ephi]; try discriminate.
  - (* phi = 0 *)
    unfold mul. destruct (of_Z n) as [s| | |[|] mn en]; simpl in *; try done; lia.
  - pose proof (valid_exponent _ _ Hphi) as Hephi.
    destruct (floorMul_sc n mphi ephi ltac:(lia) ltac:(unfold bias; lia)) as [HF0 HFb].
    unfold mul. destruct (of_Z n) as [s| | |[|] mn en]; simpl in Hof; try done.
    + (* n = 0 *)
      assert (n = 0) as -> by lia. rewrite floorMul_zero. simpl. lia.
    + destruct Hof as [Hen Hsc]. unfold SFmul.
      change (xorb false false) with false.
      apply round_between; try lia; [unfold bias; lia|].
      rewrite (sc_product n) by lia. exact HFb.
Qed.

Lemma one_eq : one = S754_finite false 8388608 (-23).
Proof. vm_compute. reflexivity. Qed.

Lemma sc_one : sc 8388608 (-23) = 2 ^ bias.
Proof.
  unfold sc. change 8388608 with (2 ^ 23).
  rewrite <- pow2_split by (unfold bias; lia). f_equal.
Qed.

(** Adding one, with its rounding, moves both integers up by one. *)
Lemma add_one_between k1 k2 r :
  0 <= k1 -> k2 + 1 < 2 ^ 24 -> between k1 k2 r ->
  between (k1 + 1) (k2 + 1) (add r one).
Proof.
  intros Hk1 Hk2 Hr. rewrite one_eq. unfold add.
  assert (Hb : 0 < 2 ^ bias) by (apply pow2_pos; unfold bias; lia).
  destruct r as [s| | |[|] m e]; simpl in Hr; try done.
  - simpl. rewrite sc_one. split; [lia|]. nia.
  - destruct Hr as [He Hsc]. unfold SFadd.
    set (ez := Z.min e (-23)).
    destruct (shl_align_spec m e ez ltac:(unfold bias; lia) ltac:(unfold bias; lia))
      as (mz1 & E1 & S1).
    destruct (shl_align_spec 8388608 (-23) ez ltac:(unfold bias; lia) ltac:(unfold bias; lia))
      as (mz2 & E2 & S2).
    replace (Z.min e ez) with ez in * by lia.
    replace (Z.min (-23) ez) with ez in * by lia.
    rewrite E1, E2. simpl fst. simpl cond_Zopp.
    change (Z.pos mz1 + Z.pos mz2) with (Z.pos (mz1 + mz2)).
    unfold binary_normalize.
    apply binary_round_between; try lia; [unfold bias; lia|].
    rewrite Pos2Z.inj_add. pose proof sc_one as So. unfold sc in *.
    rewrite (Z.mul_add_distr_r (Z.pos mz1)), S1, S2, So. lia.
Qed.

Lemma trunc_between k1 k2 r :
  0 < k1 -> between k1 k2 r -> exists t, trunc r = Some t /\ k1 <= t <= k2.
Proof.
  intros Hk1 Hr.
  destruct r as [s| | |[|] m e]; simpl in Hr; try done; [lia|].
  destruct Hr as [He Hsc]. simpl. eexists. split; [reflexivity|].
  unfold sc in Hsc.
  destruct (0 <=? e) eqn:Hs.
  - apply Z.leb_le in Hs. rewrite (pow2_split e bias) in Hsc by (unfold bias; lia).
    pose proof (pow2_pos bias ltac:(unfold bias; lia)). nia.
  - apply Z.leb_gt in Hs.
    assert (E : 2 ^ bias = 2 ^ (- e) * 2 ^ (e + bias)).
    { rewrite <- pow2_split by (unfold bias; lia). f_equal. lia. }
    rewrite E in Hsc.
    pose proof (pow2_pos (- e) ltac:(lia)).
    pose proof (pow2_pos (e + bias) ltac:(unfold bias; lia)).
    assert (H1 : k1 * 2 ^ (- e) <= Z.pos m) by nia.
    assert (H2 : Z.pos m <= k2 * 2 ^ (- e)) by nia.
    split.
    + apply Z.div_le_lower_bound; lia.
    + apply Z.div_le_upper_bound; lia.
Qed.

Lemma phiThreshold_floor n phi :
  0 <= n < 2 ^ 24 -> ratio phi = true -> floorMul n phi + 2 < 2 ^ 24 ->
  phiThreshold n phi = Some (floorMul n phi + 1)
  \/ phiThreshold n phi = Some (floorMul n phi + 2).
Proof.
  intros Hn Hphi HF.
  pose proof (mul_between n phi Hn Hphi ltac:(lia)) as Hmul.
  assert (HF0 : 0 <= floorMul n phi).
  { destruct phi as [| | |[|] m e]; simpl; try lia.
    destruct (0 <=? e) eqn:Hs.
    - apply Z.leb_le in Hs. pose proof (pow2_pos e Hs). nia.
    - apply Z.div_pos; [lia|]. apply Z.leb_gt in Hs. apply pow2_pos. lia. }
  pose proof (add_one_between (floorMul n phi) (floorMul n phi + 1) _ HF0 ltac:(lia) Hmul)
    as Hadd.
  destruct (trunc_between (floorMul n phi + 1) (floorMul n phi + 1 + 1) _ ltac:(lia) Hadd)
    as (t & Ht & Hrange).
  unfold phiThreshold, to_uint64. rewrite Ht.
  replace ((0 <=? t) && (t <? 2 ^ 64)) with true.
  2:{ symmetry. apply andb_true_iff. split; [apply Z.leb_le; lia|apply Z.ltb_lt; lia]. }
  assert (t = floorMul n phi + 1 \/ t = floorMul n phi + 2) as [->| ->] by lia.
  - by left.
  - by right.
Qed.

(** The same bounds when the product and the sum are fused: one rounding
    of the exact value of [n * phi + 1]. *)
Lemma phiThresholdFused_floor n phi :
  0 <= n < 2 ^ 24 -> ratio phi = true -> floorMul n phi + 2 < 2 ^ 24 ->
  phiThresholdFused n phi = Some (floorMul n phi + 1)
  \/ phiThresholdFused n phi = Some (floorMul n phi + 2).
Proof.
  intros Hn Hphi HF.
  assert (Hsame : forall x, (forall s m e, x <> S754_finite s m e) \/
                            (forall s m e, phi <> S754_finite s m e) ->
                            fma x phi one = add (mul x phi) one).
  { intros x [Hx|Hp]; unfold fma.
    - destruct x; try reflexivity. exfalso. by eapply Hx.
    - destruct x; try reflexivity. destruct phi; try reflexivity. exfalso. by eapply Hp. }
  pose proof (of_Z_between n Hn) as Hof.
  destruct (of_Z n) as [s| | |[|] mn en] eqn:En; simpl in Hof; try done.
  { unfold phiThresholdFused. rewrite En, Hsame by (left; congruence).
    rewrite <- En. by apply phiThreshold_floor. }
  destruct phi as [sphi| | |[|] mphi ephi] eqn:Ep; try discriminate.
  { unfold phiThresholdFused. rewrite En, Hsame by (right; congruence).
    rewrite <- En. by apply phiThreshold_floor. }
  destruct Hof as [Hen Hsc].
  pose proof (valid_exponent _ _ Hphi) as Hephi.
  destruct (floorMul_sc n mphi ephi ltac:(lia) ltac:(unfold bias; lia)) as [HF0 HFb].
  assert (Hb : 0 < 2 ^ bias) by (apply pow2_pos; unfold bias; lia).
  assert (Hbet : between (floorMul n (S754_finite false mphi ephi) + 1)
                         (floorMul n (S754_finite false mphi ephi) + 2)
                         (fma (S754_finite false mn en) (S754_finite false mphi ephi) one)).
  { rewrite one_eq. unfold fma. change (xorb false false) with false.
    set (ez := Z.min (en + ephi) (-23)).
    destruct (shl_align_spec (mn * mphi) (en + ephi) ez
                ltac:(unfold bias; lia) ltac:(unfold bias; lia)) as (mz1 & E1 & S1).
    destruct (shl_align_spec 8388608 (-23) ez
                ltac:(unfold bias; lia) ltac:(unfold bias; lia)) as (mz2 & E2 & S2).
    replace (Z.min (en + ephi) ez) with ez in * by lia.
    replace (Z.min (-23) ez) with ez in * by lia.
    rewrite E1, E2. simpl fst. simpl cond_Zopp.
    change (Z.pos mz1 + Z.pos mz2) with (Z.pos (mz1 + mz2)).
    unfold binary_normalize.
    apply binary_round_between; try lia; [unfold bias; lia|].
    rewrite (sc_product n) in S1 by lia.
    rewrite Pos2Z.inj_add. pose proof sc_one as So. unfold sc in *.
    rewrite (Z.mul_add_distr_r (Z.pos mz1)), S1, S2, So. lia. }
  destruct (trunc_between (floorMul n (S754_finite false mphi ephi) + 1) _ _
              ltac:(lia) Hbet) as (t & Ht & Hrange).
  unfold phiThresholdFused, to_uint64. rewrite En, Ht.
  replace ((0 <=? t) && (t <? 2 ^ 64)) with true.
  2:{ symmetry. apply andb_true_iff. split; [apply Z.leb_le; lia|apply Z.ltb_lt; lia]. }
  assert (t = floorMul n (S754_finite false mphi ephi) + 1
          \/ t = floorMul n (S754_finite false mphi ephi) + 2) as [->| ->] by lia.
  - by left.
  - by right.
Qed.

(** C5, amended.  [NewLattice] computes the threshold from the number of
    chains, [cfg.NumChains], and [NewConsensus] from the size of the notary
    set, [len(notarySet)], whatever [config.NumChains] is.  With [N] (at
    most [2^24]) that number, of chains for the one and of notaries for the
    other, and a ratio [phi], the threshold handed to [newTotalOrdering] is
    the integer part of [(N-1) * phi] plus one, or plus two: the product and
    the sum are each rounded to [float32], and each rounding can reach the
    next integer. *)
Theorem threshold_floor_plus_one_or_two (N : Z) (cfg : Config) :
  1 <= N <= 2 ^ 24 ->
  ratio (PhiRatio cfg) = true ->
  floorMul (N - 1) (PhiRatio cfg) + 2 < 2 ^ 24 ->
  (NumChains cfg = Z.to_N N ->
   latticeThreshold cfg = Some (floorMul (N - 1) (PhiRatio cfg) + 1)
   \/ latticeThreshold cfg = Some (floorMul (N - 1) (PhiRatio cfg) + 2))
  /\ (consensusThreshold N cfg = Some (floorMul (N - 1) (PhiRatio cfg) + 1)
      \/ consensusThreshold N cfg = Some (floorMul (N - 1) (PhiRatio cfg) + 2)).
Proof.
  intros HN Hphi HF. split.
  - intros Hchains. unfold latticeThreshold, numChainsMinus1. rewrite Hchains.
    rewrite Z2N.id by lia. rewrite Z.mod_small by lia.
    apply phiThreshold_floor; [lia|done|done].
  - unfold consensusThreshold. apply phiThreshold_floor; [lia|done|done].
Qed.

End ThresholdFacts.

(** ** Runs of the facade and of [Consensus] on the stand-ins *)
Module Runs.
Import Lattice SpecModel Doubles Scenarios.

Lemma ackLess_trans x y z : ackLess x y = true -> ackLess y z = true -> ackLess x z = true.
Proof.
  unfold ackLess. intros Hxy Hyz.
  apply orb_true_iff in Hxy. apply orb_true_iff in Hyz. apply orb_true_iff.
  rewrite !andb_true_iff, !N.ltb_lt, !N.eqb_eq in *. lia.
Qed.

Lemma ackLess_irrefl x : ackLess x x = false.
Proof.
  unfold ackLess. rewrite !N.ltb_irrefl, N.eqb_refl. done.
Qed.

Lemma SanityCheck_rejects_unsorted_acks_witness :
  SanityCheck 2%positive worldTwice = Done (Some ErrAcksNotSorted) worldTwice.
Proof.
  apply (LatticeFacts.SanityCheck_rejects_unsorted_acks 2%positive worldTwice twice).
  - exact ackLess_trans.
  - vm_compute; reflexivity.
  - vm_compute; reflexivity.
  - apply (LatticeFacts.equal_acks_not_ascending _ 0%nat 1%nat (mkAck 1 0 5%N)).
    + exact ackLess_irrefl.
    + lia.
    + reflexivity.
    + reflexivity.
Defined.

Lemma ProcessBlock_returns_pool_tip_error_witness :
  ProcessBlock 2%positive worldFork =
  Done ([], [], Some ErrIncorrectBlockPosition) (final (ProcessBlock 2%positive worldFork)).
Proof.
  pose (d' := fst (data_addBlock (data worldFork) (heap worldFork) 2%positive)).
  pose (db' := fst (db_Put (db worldFork) child)).
  pose (w1 := afterPurge worldFork child d' db').
  assert (Hfinal : final (ProcessBlock 2%positive worldFork) =
                   set_pool (pool_removeTip (pool w1) (heap w1) 0%N) w1)
    by (vm_compute; reflexivity).
  rewrite Hfinal.
  apply (LatticeFacts.ProcessBlock_returns_pool_tip_error
           2%positive worldFork child d' db' 0%N [] None w1 3%positive ahead
           ErrIncorrectBlockPosition).
  - vm_compute; reflexivity.
  - vm_compute; reflexivity.
  - vm_compute; reflexivity.
  - vm_compute; reflexivity.
  - vm_compute; reflexivity.
  - vm_compute; reflexivity.
  - vm_compute; reflexivity.
  - vm_compute; reflexivity.
  - discriminate.
  - intros j Hj. simpl in Hj. lia.
Defined.

(** What [Consensus.processBlock] tells the application and the database
    when the genesis block of the only chain arrives. *)
Lemma conRun_log :
  Consensus.log (final (conRun false)) =
  [EvSigToPub (BHash genesis) (Signature genesis);
   EvBlockConfirmed (BHash genesis);
   EvStronglyAcked (BHash genesis);
   EvDBPut genesis true;
   EvTotalOrderingDelivered [BHash genesis] false;
   EvDBUpdate genesis true;
   EvBlockDelivered genesis].
Proof. vm_compute. reflexivity. Qed.

Lemma conRun_broken :
  conRun true =
  Done (Some (ErrDB 1))
    (Consensus.mkWorld (<[2%positive := genesis]> (<[1%positive := genesis]> ∅))
       [] tt tt tt (mkToyDB true [])
       [EvSigToPub (BHash genesis) (Signature genesis);
        EvBlockConfirmed (BHash genesis);
        EvStronglyAcked (BHash genesis);
        EvDBPut genesis false]).
Proof. vm_compute. reflexivity. Qed.

(** C2, as stated, fails on [Consensus.processBlock]: BlockConfirmed of the
    block comes before its StronglyAcked. *)
Lemma Consensus_confirms_before_strongly_acked :
  ~ debugOrder (Consensus.log (final (conRun false))).
Proof.
  rewrite conRun_log. intros Horder.
  specialize (Horder (BHash genesis) 1%nat 2%nat
                (EvBlockConfirmed (BHash genesis)) (EvStronglyAcked (BHash genesis))
                1%nat 0%nat).
  assert (1 <= 0)%nat; [|lia].
  apply Horder; try reflexivity. lia.
Qed.

(** C3, as stated, fails on [Consensus.processBlock]: BlockConfirmed and
    StronglyAcked of the block have fired when its [Put] fails, and no write
    had succeeded before them. *)
Lemma Consensus_calls_back_before_persisting :
  ~ persistFirst (Consensus.log (final (conRun true)))
  /\ ~ failureSilent (Consensus.log (final (conRun true)))
  /\ ~ allOrNothing (Consensus.log (final (conRun true))).
Proof.
  rewrite conRun_broken. simpl.
  assert (Hfirst : ~ persistFirst
            [EvSigToPub (BHash genesis) (Signature genesis);
             EvBlockConfirmed (BHash genesis);
             EvStronglyAcked (BHash genesis);
             EvDBPut genesis false]).
  { intros Hp.
    destruct (Hp [EvSigToPub (BHash genesis) (Signature genesis)]
                 (EvBlockConfirmed (BHash genesis))
                 [EvStronglyAcked (BHash genesis); EvDBPut genesis false]
                 eq_refl eq_refl) as [b Hb].
    apply list_elem_of_singleton in Hb. discriminate. }
  assert (Hsilent : ~ failureSilent
            [EvSigToPub (BHash genesis) (Signature genesis);
             EvBlockConfirmed (BHash genesis);
             EvStronglyAcked (BHash genesis);
             EvDBPut genesis false]).
  { intros Hs.
    assert (mentions (BHash genesis) (EvBlockConfirmed (BHash genesis)) = false) as Hm.
    { apply (Hs genesis).
      - left. do 3 (apply elem_of_cons; right). apply elem_of_cons. by left.
      - apply elem_of_cons; right. apply elem_of_cons. by left.
      - reflexivity. }
    vm_compute in Hm. discriminate. }
  split; [done|]. split; [done|]. intros [Hp _]. done.
Qed.

(** C7 at a propose time before the tip of the chain: [PrepareBlock]
    succeeds and [SanityCheck] of its result fails; at a propose time after
    the tip it passes. *)
Theorem PrepareBlock_then_SanityCheck_fails :
  (exists w1 w2,
     PrepareBlock 2%positive 50 worldPrepare = Done None w1
     /\ SanityCheck 2%positive w1 = Done (Some ErrTimestampOutOfWindow) w2)
  /\ (exists w1 w2,
        PrepareBlock 2%positive 150 worldPrepare = Done None w1
        /\ SanityCheck 2%positive w1 = Done None w2).
Proof.
  split.
  - exists (final (PrepareBlock 2%positive 50 worldPrepare)).
    exists (final (SanityCheck 2%positive (final (PrepareBlock 2%positive 50 worldPrepare)))).
    split; vm_compute; reflexivity.
  - exists (final (PrepareBlock 2%positive 150 worldPrepare)).
    exists (final (SanityCheck 2%positive (final (PrepareBlock 2%positive 150 worldPrepare)))).
    split; vm_compute; reflexivity.
Qed.

Lemma NewStats_panics_witness :
  Stats.NewStats statsHistory statsApps = Stats.Panics Stats.PanicNilDereference.
Proof.
  assert (Hbad : exists e, e ∈ statsHistory /\ Stats.ev_Payload e = Stats.PayloadOther).
  { exists statsBad. split; [|reflexivity].
    do 3 (apply elem_of_cons; right). apply elem_of_cons. by left. }
  destruct (StatsFacts.NewStats_panics_on_unknown_event statsHistory statsApps Hbad)
    as (_ & _ & Hnil & _).
  eapply Hnil. vm_compute. reflexivity.
Defined.

(** C10, as stated, fails on the history of the unknown event alone:
    [calculate] does not come back with [ErrUnknownEvent], its deferred
    [done] divides by the zero count of proposed blocks, and [NewStats]
    panics with that division before [stats = nil] and [summary] are
    reached. *)
Lemma NewStats_panics_in_done :
  (exists e, e ∈ [statsBad] /\ Stats.ev_Payload e = Stats.PayloadOther)
  /\ Stats.calculate (Stats.mkStats ∅ Stats.emptyStatsSet (S754_zero false) 0)
       [statsBad] statsApps = Stats.Panics Stats.PanicDivideByZero
  /\ Stats.NewStats [statsBad] statsApps = Stats.Panics Stats.PanicDivideByZero
  /\ Stats.NewStats [statsBad] statsApps <> Stats.Panics Stats.PanicNilDereference.
Proof.
  split.
  { exists statsBad. split; [by apply list_elem_of_singleton|reflexivity]. }
  split; [vm_compute; reflexivity|]. split; [vm_compute; reflexivity|].
  vm_compute. discriminate.
Qed.

Lemma ProcessBlock_debug_order_witness :
  exists d, log (final (ProcessBlock 2%positive worldChild)) = log worldChild ++ d
            /\ invocationRecord worldChild 2%positive d
            /\ debugOrder d
            /\ forall b, EvBlockDelivered b ∉ d.
Proof. exact (LatticeFacts.ProcessBlock_debug_order 2%positive worldChild). Defined.

Lemma ProcessBlock_all_or_nothing_witness :
  exists d, log (final (ProcessBlock 2%positive worldChild)) = log worldChild ++ d
            /\ allOrNothing d.
Proof.
  destruct (LatticeFacts.ProcessBlock_all_or_nothing 2%positive worldChild)
    as (d & Hlog & Haon & _).
  exists d. split; assumption.
Defined.

(** C5, as stated, fails.  With eleven chains and the ratio 0.7 (as a
    [float32]: 11744051 * 2^-24, a little below 0.7) the product [10 * phi]
    is below 7 and rounds to 7, so the threshold is 8 where the integer part
    of the product plus one is 7; fusing the product and the sum gives 8 as
    well.  With [2^24 + 1] chains and the ratio 1 the sum [2^24 + 1] rounds
    to [2^24]. *)
Lemma threshold_is_not_floor_plus_one :
  (latticeThreshold config07 = Some 8
   /\ consensusThreshold 11 config07 = Some 8
   /\ phiThresholdFused 10 phi07 = Some 8
   /\ floorMul (11 - 1) (PhiRatio config07) + 1 = 7
   /\ latticeThreshold config07 <> Some (floorMul (11 - 1) (PhiRatio config07) + 1))
  /\ (latticeThreshold configWide = Some 16777216
      /\ phiThresholdFused 16777216 phi1 = Some 16777216
      /\ floorMul (16777217 - 1) (PhiRatio configWide) + 1 = 16777217).
Proof. vm_compute. repeat split; try reflexivity. discriminate. Qed.

Lemma threshold_floor_witness :
  latticeThreshold config07 = Some (floorMul (11 - 1) (PhiRatio config07) + 1)
  \/ latticeThreshold config07 = Some (floorMul (11 - 1) (PhiRatio config07) + 2).
Proof.
  apply (ThresholdFacts.threshold_floor_plus_one_or_two 11 config07).
  - lia.
  - vm_compute; reflexivity.
  - vm_compute; reflexivity.
Defined.

(** The scenario of the specification: four chains, ratio 0.667, threshold
    3. *)
Lemma threshold_of_the_scenarios :
  latticeThreshold config0667 = Some 3
  /\ floorMul (4 - 1) (PhiRatio config0667) + 1 = 3.
Proof. vm_compute. split; reflexivity. Qed.

End Runs.

(** ** More on the lattice facade *)
Module LatticeMore.
Import Lattice LatticeConfig.
Section Facts.

Context `{Crypto, Authenticator, Application, BlockDatabase, BlockPool,
          LatticeDataI, TotalOrderingI, ConsensusTimestampI}.
Context `{!ConfigModulesI}.

Ltac unfold_run :=
  unfold when, emit, mbind, M_bind, bind, mret, M_ret, ret, gets, modify, deref in *.

Ltac world_cbn :=
  cbn [heap chainNum debug db pool data toModule ctModule log
       set_heap set_db set_pool set_data set_toModule set_ctModule].

(** X1.  [SanityCheck] accepts a block exactly when its hash is the one
    [hashBlock] computes, its acks are in order, the signature recovers a
    key whose hash is the proposer, the application verifies the block and
    the lattice data find nothing wrong; an accepted block leaves the pool
    alone and the run records the signature recovery and the call of
    [VerifyBlock], in this order. *)
Theorem SanityCheck_accepts_iff (b : ptr) (w : World) (blk : Block) :
  heap w !! b = Some blk ->
  ((exists w', SanityCheck b w = Done None w') <->
   (hashBlock blk = Some (BHash blk)
    /\ acksSorted (Acks blk) = true
    /\ (exists pubKey, SigToPub (BHash blk) (Signature blk) = inr pubKey
                       /\ ProposerID blk = Keccak256Hash pubKey)
    /\ VerifyBlock blk = true
    /\ data_sanityCheck (data w) (heap w) blk = None))
  /\ (forall w', SanityCheck b w = Done None w' ->
        w' = mkWorld (heap w) (chainNum w) (debug w) (db w) (pool w) (data w)
               (toModule w) (ctModule w)
               (log w ++ [EvSigToPub (BHash blk) (Signature blk); EvVerifyBlock (BHash blk)])).
Proof.
  intros Hblk. unfold SanityCheck. rewrite (LatticeFacts.run_deref _ blk) by done.
  split; [split|].
  - intros [w' Hrun]. unfold_run.
    repeat (case_match; simplify_eq/=); try done.
    all: try (case_bool_decide; simplify_eq/=; done).
    repeat match goal with
    | Hn : negb _ = false |- _ => apply negb_false_iff in Hn
    | Hb : bool_decide _ = true |- _ => apply bool_decide_eq_true_1 in Hb
    end.
    eauto 10.
  - intros (Hhash & Hs & (pk & Hsig & Hprop) & Hv & Hd).
    unfold_run. rewrite bool_decide_eq_true_2 by done. simpl.
    rewrite Hs. simpl. rewrite Hsig.
    rewrite bool_decide_eq_true_2 by done. simpl. rewrite Hv. simpl.
    rewrite Hd. eauto.
  - intros w' Hrun. unfold_run.
    repeat (case_match; simplify_eq/=); try done.
    all: try (case_bool_decide; simplify_eq/=; done).
    by rewrite <- app_assoc.
Qed.

(** X2.  [SanityCheck] looks at a block in a fixed order, and each step is taken
    only when the ones before it passed: the signature is recovered only
    from a block whose hash is right and whose acks are in order, and the
    application is asked to verify only a block signed by its proposer. *)
Theorem SanityCheck_checks_in_order (b : ptr) (w : World) (blk : Block) :
  heap w !! b = Some blk ->
  let sorted := hashBlock blk = Some (BHash blk) /\ acksSorted (Acks blk) = true in
  let signed := exists pubKey, SigToPub (BHash blk) (Signature blk) = inr pubKey
                               /\ ProposerID blk = Keccak256Hash pubKey in
  exists d, log (final (SanityCheck b w)) = log w ++ d
    /\ ((~ sorted /\ d = [])
        \/ (sorted /\ ~ signed /\ d = [EvSigToPub (BHash blk) (Signature blk)])
        \/ (sorted /\ signed
            /\ d = [EvSigToPub (BHash blk) (Signature blk); EvVerifyBlock (BHash blk)])).
Proof.
  intros Hblk sorted signed. subst sorted signed.
  unfold SanityCheck. rewrite (LatticeFacts.run_deref _ blk) by done.
  destruct (decide (hashBlock blk = Some (BHash blk))) as [Hhash|Hhash].
  2:{ rewrite bool_decide_eq_false_2 by done. simpl.
      exists []. rewrite app_nil_r. split; [done|]. left. split; [|done]. tauto. }
  rewrite bool_decide_eq_true_2 by done. simpl.
  destruct (acksSorted (Acks blk)) eqn:Hs; simpl.
  2:{ exists []. rewrite app_nil_r. split; [done|]. left. split; [|done].
      intros [_ ?]. done. }
  rewrite LatticeFacts.run_emit.
  destruct (SigToPub (BHash blk) (Signature blk)) as [c|pk] eqn:Hsig.
  { eexists. split; [reflexivity|]. right. left. split; [done|]. split; [|done].
    intros (pk & ? & _). done. }
  destruct (decide (ProposerID blk = Keccak256Hash pk)) as [Hprop|Hprop].
  2:{ rewrite bool_decide_eq_false_2 by done. simpl.
      eexists. split; [reflexivity|]. right. left. split; [done|]. split; [|done].
      intros (pk' & ? & ?). by simplify_eq. }
  rewrite bool_decide_eq_true_2 by done. simpl.
  exists [EvSigToPub (BHash blk) (Signature blk); EvVerifyBlock (BHash blk)].
  split; [|right; right; eauto 10].
  unfold_run. simpl.
  repeat (case_match; simplify_eq/=); by rewrite <- app_assoc.
Qed.

(** X3.  [SanityCheck] reads the lattice: whatever it answers, and even when it
    is handed a nil pointer, the blocks, the lattice data, the database and
    the ordering modules are as they were.  Only the pool and the record of
    calls can differ. *)
Theorem SanityCheck_reads_only (b : ptr) (w : World) :
  let w' := final (SanityCheck b w) in
  heap w' = heap w /\ data w' = data w /\ db w' = db w
  /\ toModule w' = toModule w /\ ctModule w' = ctModule w
  /\ chainNum w' = chainNum w /\ debug w' = debug w.
Proof.
  unfold SanityCheck. unfold_run.
  repeat (case_match; simplify_eq/=); done.
Qed.

(** X4.  The loop over the acks compares neighbours only; with a transitive
    [Less] this is the same as every ack being [Less] than every later one.
    A block with no ack or one ack always passes. *)
Theorem acksSorted_iff_ascending (acks : list Ack) :
  (forall x y z, Less x y = true -> Less y z = true -> Less x z = true) ->
  (acksSorted acks = true <-> strictlyAscending acks)
  /\ ((length acks <= 1)%nat -> acksSorted acks = true).
Proof.
  intros Htrans. assert (Hconv : strictlyAscending acks -> acksSorted acks = true).
  { intros Hasc. unfold acksSorted. apply negb_true_iff.
    destruct (existsb _ _) eqn:Hex; [|done]. exfalso.
    apply existsb_exists in Hex as (i & _ & Hi).
    destruct i as [|j]; [done|]. simpl in Hi.
    destruct (acks !! j) as [p|] eqn:Hp; [|done].
    destruct (acks !! S j) as [a|] eqn:Ha; [|done].
    rewrite (Hasc j (S j) p a) in Hi; [done|lia|done|done]. }
  split; [split; [by apply LatticeFacts.acksSorted_ascending|done]|].
  intros Hlen. apply Hconv. intros i j a a' Hij Hi Hj.
  apply lookup_lt_Some in Hj. lia.
Qed.

Lemma run_bind {A B} (m : M World A) (k : A -> M World B) w :
  (m ≫= k) w = match m w with Done a w' => k a w' | Panicked w' => Panicked w' end.
Proof. done. Qed.

(** With a nil [Debug] the ordering loop calls nobody. *)
Lemma hashesOf_silent l w :
  log (final (hashesOf l w)) = log w /\ debug (final (hashesOf l w)) = debug w.
Proof.
  destruct (LatticeFacts.hashesOf_quiet (fun _ => false) l w) as (d & Hd & Hall).
  split; [|apply (LatticeFacts.hashesOf_keeps debug)].
  destruct d as [|e d]; [by rewrite app_nil_r in Hd|].
  by apply Forall_cons in Hall as [? _].
Qed.

Lemma orderLoop_silent inLattice : forall verified delivered err w,
  debug w = false ->
  log (final (orderLoop inLattice verified delivered err w)) = log w.
Proof.
  induction inLattice as [|b rest IH]; intros verified delivered err w Hdbg; [done|].
  cbn [orderLoop]. rewrite !LatticeFacts.run_gets.
  destruct (to_processBlock (toModule w) (heap w) b) as [t' [[toDelivered early] [e|]]].
  { by rewrite LatticeFacts.run_modify. }
  rewrite LatticeFacts.run_modify.
  destruct toDelivered as [|p l].
  { rewrite IH; done. }
  rewrite run_bind.
  pose proof (hashesOf_silent (p :: l) (set_toModule t' w)) as [Hlog Hd].
  destruct (hashesOf (p :: l) (set_toModule t' w)) as [hs w1|w1]; simpl in Hlog, Hd; [|done].
  assert (Hdbg1 : debug w1 = false) by (by rewrite Hd).
  rewrite LatticeFacts.run_gets. rewrite Hdbg1. rewrite LatticeFacts.run_when.
  rewrite 2!LatticeFacts.run_gets.
  destruct (ct_processBlocks (ctModule w1) (heap w1) (p :: l)) as [[c' h'] [e|]].
  { by rewrite LatticeFacts.run_modify. }
  rewrite LatticeFacts.run_modify, IH; done.
Qed.

(** X5.  With a nil [Debug], [ProcessBlock] calls nothing but [db.Put], once, on
    the input block: the record of the invocation is empty (the block was
    not admitted) or that one write. *)
Theorem ProcessBlock_without_debug (input : ptr) (w : World) :
  debug w = false ->
  exists d, log (final (ProcessBlock input w)) = log w ++ d
    /\ (d = [] \/ exists blk ok, heap w !! input = Some blk /\ d = [EvDBPut blk ok]).
Proof.
  intros Hdbg.
  destruct (data_addBlock (data w) (heap w) input) as [d' [e|inLattice]] eqn:Hadd.
  { rewrite (LatticeFacts.ProcessBlock_rejected _ _ _ _ Hadd).
    exists []. by rewrite app_nil_r; eauto. }
  destruct (heap w !! input) as [blk|] eqn:Hblk.
  2:{ rewrite (LatticeFacts.ProcessBlock_nil _ _ _ _ Hadd Hblk).
      exists []. by rewrite app_nil_r; eauto. }
  destruct (db_Put (db w) blk) as [db' [e|]] eqn:Hput.
  { rewrite (LatticeFacts.ProcessBlock_put_failed _ _ _ _ _ _ _ Hadd Hblk Hput).
    exists [EvDBPut blk false]. split; [done|]. right. eauto. }
  rewrite (LatticeFacts.ProcessBlock_persisted _ _ _ _ _ _ Hadd Hblk Hput).
  exists [EvDBPut blk true]. split; [|right; eauto].
  rewrite run_bind.
  pose proof (LatticeFacts.replayTips_quiet (fun _ => false) (chainNum w) ([], None)
                (afterPurge w blk d' db')) as (dl & Hdl & Hall).
  assert (Hkeep : debug (final (replayTips (chainNum w) ([], None) (afterPurge w blk d' db')))
                  = false).
  { unfold replayTips. rewrite (LatticeFacts.keeps_forEach debug); [done|].
    intros i [v e]. unfold replayTip.
    repeat first
      [ apply LatticeFacts.keeps_ret | apply LatticeFacts.keeps_gets
      | apply LatticeFacts.keeps_deref
      | apply LatticeFacts.keeps_modify; intros ?; reflexivity
      | apply LatticeFacts.keeps_bind; [|intros ?] | case_match ]. }
  destruct dl as [|ev dl]; [|by apply Forall_cons in Hall as [? _]].
  rewrite app_nil_r in Hdl.
  destruct (replayTips _ _ _) as [[v e] w1|w1]; simpl in Hdl, Hkeep.
  - rewrite orderLoop_silent by done. rewrite Hdl. unfold afterPurge. simpl.
    by rewrite Hdbg.
  - simpl. rewrite Hdl. unfold afterPurge. simpl. by rewrite Hdbg.
Qed.

(** The ordering loop hands back the verified blocks it was given. *)
Lemma orderLoop_verified inLattice : forall verified delivered err w v' d' e' w',
  orderLoop inLattice verified delivered err w = Done (v', d', e') w' -> v' = verified.
Proof.
  induction inLattice as [|b rest IH]; intros verified delivered err w v' d' e' w'.
  { intros Hrun. simpl in Hrun. unfold_run. by simplify_eq/=. }
  cbn [orderLoop]. rewrite !LatticeFacts.run_gets.
  destruct (to_processBlock (toModule w) (heap w) b) as [t' [[toDelivered early] [e|]]].
  { rewrite LatticeFacts.run_modify. intros Hrun. unfold_run. by simplify_eq/=. }
  rewrite LatticeFacts.run_modify.
  destruct toDelivered as [|p l]; [apply IH|].
  rewrite run_bind. destruct (hashesOf (p :: l) (set_toModule t' w)) as [hs w1|w1]; [|done].
  rewrite LatticeFacts.run_gets, LatticeFacts.run_when.
  destruct (debug w1).
  - rewrite LatticeFacts.run_emit, !LatticeFacts.run_gets. world_cbn.
    destruct (ct_processBlocks (ctModule w1) (heap w1) (p :: l)) as [[c' h'] [e|]];
      rewrite LatticeFacts.run_modify; [intros Hrun; unfold_run; by simplify_eq/=|apply IH].
  - rewrite !LatticeFacts.run_gets.
    destruct (ct_processBlocks (ctModule w1) (heap w1) (p :: l)) as [[c' h'] [e|]];
      rewrite LatticeFacts.run_modify; [intros Hrun; unfold_run; by simplify_eq/=|apply IH].
Qed.

(** One round of the replay adds at most the tip of its chain, and only a
    tip the lattice data accept; it touches neither the blocks nor the
    lattice data. *)
Lemma replayTip_step i v e w v' e' w' :
  replayTip i (v, e) w = Done (v', e') w' ->
  heap w' = heap w /\ data w' = data w
  /\ (v' = v
      \/ exists tip blk, v' = v ++ [tip] /\ heap w !! tip = Some blk
                         /\ data_sanityCheck (data w) (heap w) blk = None).
Proof.
  unfold replayTip. rewrite !LatticeFacts.run_gets.
  destruct (pool_tip (pool w) (heap w) i) as [tip|].
  2:{ intros Hrun. unfold_run. simplify_eq/=. eauto. }
  destruct (heap w !! tip) as [blk|] eqn:Hblk.
  2:{ by rewrite (LatticeFacts.run_deref_nil _ _ _ Hblk). }
  rewrite (LatticeFacts.run_deref _ blk) by done. rewrite LatticeFacts.run_gets.
  destruct (data_sanityCheck (data w) (heap w) blk) as [err|] eqn:Hcheck.
  - case_bool_decide.
    + intros Hrun. unfold_run. simplify_eq/=. eauto.
    + rewrite LatticeFacts.run_modify. intros Hrun. unfold_run. simplify_eq/=. eauto.
  - rewrite bool_decide_eq_false_2 by done. rewrite LatticeFacts.run_modify.
    intros Hrun. unfold_run. simplify_eq/=. split; [done|]. split; [done|]. right. eauto.
Qed.

Lemma replayTips_steps (l : list N) : forall v e w v' e' w',
  forEach l replayTip (v, e) w = Done (v', e') w' ->
  heap w' = heap w /\ data w' = data w
  /\ (length v' <= length v + length l)%nat
  /\ forall p, p ∈ v' ->
       p ∈ v \/ exists blk, heap w !! p = Some blk
                            /\ data_sanityCheck (data w) (heap w) blk = None.
Proof.
  induction l as [|i l IH]; intros v e w v' e' w' Hrun.
  { simpl in Hrun. unfold_run. simplify_eq/=. split; [done|]. split; [done|]. split; [lia|]. eauto. }
  rewrite LatticeFacts.forEach_cons in Hrun.
  destruct (replayTip i (v, e) w) as [[v1 e1] w1|w1] eqn:Hstep; [|done].
  apply replayTip_step in Hstep as (Hh & Hd & Hv).
  apply IH in Hrun as (Hh' & Hd' & Hlen & Hin).
  rewrite Hh, Hd in *. split; [done|]. split; [done|]. split.
  - cbn [length]. destruct Hv as [->|(tip & blk & -> & _)]; [lia|].
    rewrite length_app in Hlen. simpl in Hlen. lia.
  - intros p Hp. destruct (Hin p Hp) as [Hp1|?]; [|by right].
    destruct Hv as [->|(tip & blk & -> & Hblk & Hcheck)]; [by left|].
    apply elem_of_app in Hp1 as [?|Hp1]; [by left|].
    apply list_elem_of_singleton in Hp1 as ->. right. eauto.
Qed.

(** X6.  The replay of the pool looks at each chain once, so one invocation of
    [ProcessBlock] returns at most one verified block per chain, however
    many buffered blocks have become valid; and every block it returns as
    verified is a block of the heap that passed [data.sanityCheck] against
    the lattice data as they are once the input has been added. *)
Theorem ProcessBlock_verified_blocks
    (input : ptr) (w w' : World) (verified delivered : list ptr) (err : option Err) :
  ProcessBlock input w = Done (verified, delivered, err) w' ->
  (length verified <= N.to_nat (chainNum w))%nat
  /\ forall p, p ∈ verified ->
       exists blk, heap w !! p = Some blk
         /\ data_sanityCheck (fst (data_addBlock (data w) (heap w) input)) (heap w) blk = None.
Proof.
  destruct (data_addBlock (data w) (heap w) input) as [d' [e|inLattice]] eqn:Hadd.
  { rewrite (LatticeFacts.ProcessBlock_rejected _ _ _ _ Hadd). intros Hrun. unfold_run. simplify_eq/=.
    split; [lia|]. intros p Hp. by apply elem_of_nil in Hp. }
  destruct (heap w !! input) as [blk|] eqn:Hblk.
  2:{ by rewrite (LatticeFacts.ProcessBlock_nil _ _ _ _ Hadd Hblk). }
  destruct (db_Put (db w) blk) as [db' [e|]] eqn:Hput.
  { rewrite (LatticeFacts.ProcessBlock_put_failed _ _ _ _ _ _ _ Hadd Hblk Hput).
    intros Hrun. unfold_run. simplify_eq/=.
    split; [lia|]. intros p Hp. by apply elem_of_nil in Hp. }
  rewrite (LatticeFacts.ProcessBlock_persisted _ _ _ _ _ _ Hadd Hblk Hput).
  rewrite run_bind.
  destruct (replayTips _ _ _) as [[v e] w1|w1] eqn:Hreplay; [|done].
  intros Hrun. apply orderLoop_verified in Hrun as ->.
  apply replayTips_steps in Hreplay as (_ & _ & Hlen & Hin).
  split.
  - simpl in Hlen. unfold chainIDs in Hlen.
    rewrite length_map, length_seq in Hlen. by unfold afterPurge in Hlen.
  - intros p Hp. destruct (Hin p Hp) as [Hnil|Hok]; [by apply elem_of_nil in Hnil|].
    exact Hok.
Qed.

(** X7.  [AppendConfig] hands the configuration to the lattice data, to total
    ordering and to the timestamps, in this order, and stops at the first
    that refuses: the modules after it are untouched, the modules before it
    keep the configuration (nothing is undone).  It always returns, and it
    never changes [chainNum], the pool, the database, the blocks or the
    record of calls: the loop of [ProcessBlock] over the chains keeps the
    bound [NewLattice] gave it. *)
Theorem AppendConfig_stops_without_undoing (round : N) (config : Config) (w : World) :
  let rd := data_appendConfig (data w) round config in
  let rt := to_appendConfig (toModule w) round config in
  let rc := ct_appendConfig (ctModule w) round config in
  exists err w', AppendConfig round config w = Done err w'
    /\ (chainNum w' = chainNum w /\ pool w' = pool w /\ db w' = db w
        /\ heap w' = heap w /\ log w' = log w /\ debug w' = debug w)
    /\ data w' = fst rd
    /\ match snd rd with
       | Some e => err = Some e /\ toModule w' = toModule w /\ ctModule w' = ctModule w
       | None =>
           toModule w' = fst rt
           /\ match snd rt with
              | Some e => err = Some e /\ ctModule w' = ctModule w
              | None => ctModule w' = fst rc /\ err = snd rc
              end
       end.
Proof.
  unfold AppendConfig. unfold_run. cbv zeta.
  destruct (data_appendConfig (data w) round config) as [d' [e|]]; simpl.
  { do 2 eexists. split; [reflexivity|]. simpl. tauto. }
  destruct (to_appendConfig (toModule w) round config) as [t' [e|]]; simpl.
  { do 2 eexists. split; [reflexivity|]. simpl. tauto. }
  destruct (ct_appendConfig (ctModule w) round config) as [c' e]; simpl.
  do 2 eexists. split; [reflexivity|]. simpl. tauto.
Qed.

End Facts.
End LatticeMore.

(** ** The record of [Consensus.processBlock] *)
Module ConsensusMore.
Import Consensus Protocol.
Section Facts.

Context `{Crypto, BlockDatabase, ReliableBroadcastI, TotalOrderingI,
          ConsensusTimestampI, CompactionChainI}.

Ltac unfold_run :=
  unfold emit, mbind, M_bind, bind, mret, M_ret, ret, gets, modify, deref in *.

Ltac world_cbn :=
  cbn [heap rbModule toModule ctModule ccModule db log
       set_heap set_rbModule set_toModule set_ctModule set_ccModule set_db].

Lemma step_bind {A B} (m : M World A) (k : A -> M World B) w :
  (m ≫= k) w = match m w with Done a w' => k a w' | Panicked w' => Panicked w' end.
Proof. done. Qed.

Lemma step_deref_nil {B} p (k : Block -> M World B) w :
  heap w !! p = None -> (deref p ≫= k) w = Panicked w.
Proof. intros Hp. unfold_run. by rewrite Hp. Qed.

Lemma run_app s d1 d2 :
  run s (d1 ++ d2) = match run s d1 with Some s' => run s' d2 | None => None end.
Proof.
  revert s. induction d1 as [|e d1 IH]; intros s; simpl; [done|].
  destruct (step s e); [apply IH|done].
Qed.

(** X8.  [sanityCheck] accepts a block exactly when its position is on shard 0
    and on a chain reliable broadcast knows, its hash is the one
    [hashBlock] computes, and the signature recovers a key whose hash is the
    proposer.  It changes nothing but the record of calls. *)
Theorem Consensus_sanityCheck_accepts_iff (b : ptr) (w : World) (blk : Block) :
  heap w !! b = Some blk ->
  ((exists w', sanityCheck b w = Done None w') <->
   (ShardID (Position_ blk) = 0%N
    /\ (ChainID (Position_ blk) < rb_chainNum (rbModule w))%N
    /\ hashBlock blk = Some (BHash blk)
    /\ exists pubKey, SigToPub (BHash blk) (Signature blk) = inr pubKey
                      /\ ProposerID blk = Keccak256Hash pubKey))
  /\ (forall r w', sanityCheck b w = Done r w' ->
        heap w' = heap w /\ rbModule w' = rbModule w /\ toModule w' = toModule w
        /\ ctModule w' = ctModule w /\ ccModule w' = ccModule w /\ db w' = db w
        /\ (log w' = log w \/ log w' = log w ++ [EvSigToPub (BHash blk) (Signature blk)])
        /\ (r = None -> log w' = log w ++ [EvSigToPub (BHash blk) (Signature blk)])).
Proof.
  intros Hblk. unfold sanityCheck.
  rewrite (ConsensusFacts.step_deref _ blk) by done. rewrite ConsensusFacts.step_gets.
  split; [split|].
  - intros [w' Hrun]. unfold_run.
    repeat (case_match; simplify_eq/=); try done.
    repeat match goal with
    | Hn : negb _ = false |- _ => apply negb_false_iff in Hn
    | Ho : _ || _ = false |- _ => apply orb_false_iff in Ho as [? ?]
    | Hb : bool_decide _ = true |- _ => apply bool_decide_eq_true_1 in Hb
    | Hb : bool_decide _ = false |- _ => apply bool_decide_eq_false_1 in Hb
    | Hl : (_ <=? _)%N = false |- _ => apply N.leb_gt in Hl
    end.
    split; [by destruct (decide (ShardID (Position_ blk) = 0%N))|]. eauto 10.
  - intros (Hshard & Hchain & Hhash & pk & Hsig & Hprop).
    rewrite bool_decide_eq_false_2 by (intros Hne; by apply Hne).
    replace (rb_chainNum (rbModule w) <=? ChainID (Position_ blk))%N with false
      by (symmetry; by apply N.leb_gt).
    rewrite bool_decide_eq_true_2 by done. cbn [orb negb].
    rewrite ConsensusFacts.step_emit, Hsig. rewrite bool_decide_eq_true_2 by done. eauto.
  - intros r w' Hrun. unfold_run.
    repeat (case_match; simplify_eq/=); repeat split; eauto; done.
Qed.

Lemma hashesOf_hashed l : forall w hs,
  hashed (heap w) l hs -> hashesOf l w = Done hs w.
Proof.
  induction l as [|p l IH]; intros w hs Hh.
  - apply Forall2_nil_inv_l in Hh as ->. done.
  - apply Forall2_cons_inv_l in Hh as (x & hs' & (blk & Hblk & <-) & Hh & ->).
    cbn [hashesOf]. rewrite (ConsensusFacts.step_deref _ blk) by done.
    rewrite step_bind, (IH _ _ Hh). done.
Qed.

(** The writes of a batch: each successful one adds the hash of its block;
    the first failed one ends the invocation. *)
Lemma putAll_run l : forall w hs,
  exists d s', log (final (putAll l w)) = log w ++ d
    /\ heap (final (putAll l w)) = heap w
    /\ run (Putting hs) d = Some s'
    /\ match putAll l w with
       | Done None _ => exists hs', s' = Putting (hs ++ hs') /\ hashed (heap w) l hs'
       | Done (Some _) _ => s' = Failed
       | Panicked _ => exists hs', s' = Putting hs'
       end.
Proof.
  induction l as [|b l IH]; intros w hs.
  { exists [], (Putting hs). cbn. rewrite !app_nil_r. repeat split; try done.
    exists []. rewrite app_nil_r. split; [done|]. constructor. }
  cbn [putAll].
  destruct (heap w !! b) as [blk|] eqn:Hblk.
  2:{ rewrite (step_deref_nil _ _ _ Hblk). exists [], (Putting hs).
      cbn. rewrite app_nil_r. eauto 10. }
  rewrite (ConsensusFacts.step_deref _ blk) by done. rewrite ConsensusFacts.step_gets.
  destruct (db_Put (db w) blk) as [db' [e|]].
  { rewrite ConsensusFacts.step_modify, ConsensusFacts.step_emit.
    rewrite bool_decide_eq_false_2 by done.
    exists [EvDBPut blk false], Failed. cbn. done. }
  rewrite ConsensusFacts.step_modify, ConsensusFacts.step_emit.
  rewrite bool_decide_eq_true_2 by done.
  match goal with |- context [putAll l ?w1] =>
    destruct (IH w1 (hs ++ [BHash blk])) as (d & s' & Hlog & Hheap & Hrun & Hres);
    set (w1' := w1) in *
  end.
  exists (EvDBPut blk true :: d), s'.
  split; [rewrite Hlog; subst w1'; world_cbn; by rewrite <- app_assoc|].
  split; [by rewrite Hheap|]. split; [done|].
  destruct (putAll l _) as [[e|] w2|w2]; [done| |done].
  destruct Hres as (hs' & -> & Hh). exists (BHash blk :: hs').
  rewrite <- app_assoc. split; [done|]. constructor; eauto.
Qed.

(** The hand-over of a batch: each block is updated, then delivered; a
    failed update ends the invocation. *)
Lemma deliverAll_run l : forall w,
  exists d s', log (final (deliverAll l w)) = log w ++ d
    /\ run Delivering d = Some s'
    /\ match deliverAll l w with
       | Done None _ => s' = Delivering
       | Done (Some _) _ => s' = Delivering \/ s' = Failed
       | Panicked _ => s' = Delivering
       end.
Proof.
  induction l as [|b l IH]; intros w.
  { exists [], Delivering. cbn. by rewrite app_nil_r. }
  cbn [deliverAll]. rewrite !ConsensusFacts.step_gets.
  destruct (cc_processBlock (ccModule w) (heap w) b) as [[c' h'] [e|]].
  { rewrite ConsensusFacts.step_modify. exists [], Delivering. cbn.
    rewrite app_nil_r. eauto. }
  rewrite ConsensusFacts.step_modify.
  match goal with |- context [(deref b ≫= _) ?w1] => set (w1' := w1) end.
  destruct (heap w1' !! b) as [blk|] eqn:Hblk.
  2:{ rewrite (step_deref_nil _ _ _ Hblk). exists [], Delivering. cbn.
      by rewrite app_nil_r. }
  rewrite (ConsensusFacts.step_deref _ blk) by done. rewrite ConsensusFacts.step_gets.
  destruct (db_Update (db w1') blk) as [db' [e|]].
  { rewrite ConsensusFacts.step_modify, ConsensusFacts.step_emit.
    rewrite bool_decide_eq_false_2 by done.
    exists [EvDBUpdate blk false], Failed. cbn. eauto. }
  rewrite ConsensusFacts.step_modify, ConsensusFacts.step_emit.
  rewrite bool_decide_eq_true_2 by done. rewrite ConsensusFacts.step_emit.
  match goal with |- context [deliverAll l ?w2] =>
    destruct (IH w2) as (d & s' & Hlog & Hrun & Hres)
  end.
  exists (EvDBUpdate blk true :: EvBlockDelivered blk :: d), s'.
  split; [rewrite Hlog; subst w1'; world_cbn; by rewrite <- !app_assoc|].
  split; [|done].
  cbn. by rewrite decide_True by done.
Qed.

Lemma step_strongly_acked s h :
  betweenRounds s -> step s (EvStronglyAcked h) = Some (Putting []).
Proof. by intros [->|[->| ->]]. Qed.

Lemma betweenRounds_settled s : betweenRounds s -> settled s = true /\ s <> Failed.
Proof. by intros [->|[->| ->]]. Qed.

(** The loop over the extracted blocks keeps to the automaton; when a write
    has failed the loop has returned an error. *)
Lemma extractLoop_run l : forall w s,
  betweenRounds s ->
  exists d s', log (final (extractLoop l w)) = log w ++ d
    /\ run s d = Some s'
    /\ settled s' = true
    /\ (s' = Failed -> exists e w', extractLoop l w = Done (Some e) w').
Proof.
  induction l as [|b rest IH]; intros w s Hs.
  { exists [], s. cbn. rewrite app_nil_r. destruct (betweenRounds_settled s Hs). done. }
  cbn [extractLoop].
  destruct (heap w !! b) as [blk|] eqn:Hblk.
  2:{ rewrite (step_deref_nil _ _ _ Hblk). exists [], s. cbn. rewrite app_nil_r.
      destruct (betweenRounds_settled s Hs). done. }
  rewrite (ConsensusFacts.step_deref _ blk) by done.
  rewrite ConsensusFacts.step_emit, !ConsensusFacts.step_gets. world_cbn.
  destruct (to_processBlock (toModule w) (heap w) b) as [t' [[delivered early] [e|]]].
  { rewrite ConsensusFacts.step_modify. exists [EvStronglyAcked (BHash blk)], (Putting []).
    cbn [run]. rewrite (step_strongly_acked _ (BHash blk) Hs). done. }
  rewrite ConsensusFacts.step_modify.
  destruct delivered as [|p ps].
  { match goal with |- context [extractLoop rest ?w1] =>
      destruct (IH w1 (Putting [])) as (d & s' & Hlog & Hrun & Hset & Hfail);
        [right; by left|]
    end.
    exists (EvStronglyAcked (BHash blk) :: d), s'.
    split; [rewrite Hlog; world_cbn; by rewrite <- app_assoc|].
    split; [cbn [run]; by rewrite (step_strongly_acked _ (BHash blk) Hs)|]. done. }
  rewrite step_bind.
  match goal with |- context [putAll (p :: ps) ?w1] =>
    destruct (putAll_run (p :: ps) w1 []) as (d1 & s1 & Hlog1 & Hheap1 & Hrun1 & Hres1);
    set (w1' := w1) in *
  end.
  assert (Hpre : forall d2 s2 w2,
            log w2 = log (final (putAll (p :: ps) w1')) ++ d2 -> run s1 d2 = Some s2 ->
            log w2 = log w ++ EvStronglyAcked (BHash blk) :: d1 ++ d2
            /\ run s (EvStronglyAcked (BHash blk) :: d1 ++ d2) = Some s2).
  { intros d2 s2 w2 Hlog2 Hrun2. split.
    - rewrite Hlog2, Hlog1. subst w1'. world_cbn. by rewrite <- !app_assoc.
    - cbn [run]. rewrite (step_strongly_acked _ (BHash blk) Hs), run_app, Hrun1. done. }
  destruct (putAll (p :: ps) w1') as [[e|] w2|w2] eqn:Hput; cbn [final] in *.
  { subst s1. destruct (Hpre [] Failed w2) as [Hl Hr]; [by rewrite app_nil_r|done|].
    rewrite app_nil_r in Hl, Hr. exists (EvStronglyAcked (BHash blk) :: d1), Failed.
    eauto 10. }
  2:{ destruct Hres1 as (hs' & ->).
      destruct (Hpre [] (Putting hs') w2) as [Hl Hr]; [by rewrite app_nil_r|done|].
      rewrite app_nil_r in Hl, Hr. exists (EvStronglyAcked (BHash blk) :: d1), (Putting hs').
      done. }
  destruct Hres1 as (hs' & -> & Hh). cbn [app] in *.
  rewrite step_bind, (hashesOf_hashed _ _ hs') by (by rewrite Hheap1).
  rewrite ConsensusFacts.step_emit, !ConsensusFacts.step_gets. world_cbn.
  assert (Htod : step (Putting hs') (EvTotalOrderingDelivered hs' early) = Some Delivering).
  { cbn. rewrite decide_True; [done|]. split; [done|].
    intros ->. by apply Forall2_nil_inv_r in Hh. }
  destruct (ct_processBlocks (ctModule w2) (heap w2) (p :: ps)) as [[c' h'] [e|]].
  { rewrite ConsensusFacts.step_modify.
    destruct (Hpre [EvTotalOrderingDelivered hs' early] Delivering
                (mkWorld (heap w2) (rbModule w2) (toModule w2) (ctModule w2) (ccModule w2)
                   (db w2) (log w2 ++ [EvTotalOrderingDelivered hs' early])))
      as [Hl Hr]; [done|by cbn [run]; rewrite Htod|].
    do 2 eexists. split; [exact Hl|]. split; [exact Hr|]. done. }
  rewrite ConsensusFacts.step_modify, step_bind.
  match goal with |- context [deliverAll (p :: ps) ?w3] =>
    destruct (deliverAll_run (p :: ps) w3) as (d3 & s3 & Hlog3 & Hrun3 & Hres3);
    set (w3' := w3) in *
  end.
  assert (Hpre3 : forall d4 s4 w4,
            log w4 = log (final (deliverAll (p :: ps) w3')) ++ d4 -> run s3 d4 = Some s4 ->
            exists d, log w4 = log w ++ d /\ run s d = Some s4).
  { intros d4 s4 w4 Hlog4 Hrun4.
    destruct (Hpre (EvTotalOrderingDelivered hs' early :: d3 ++ d4) s4 w4) as [Hl Hr].
    - rewrite Hlog4, Hlog3. subst w3'. world_cbn. by rewrite <- !app_assoc.
    - cbn [run]. rewrite Htod, run_app, Hrun3. done.
    - eauto. }
  destruct (deliverAll (p :: ps) w3') as [[e|] w4|w4] eqn:Hdel; cbn [final] in *.
  - destruct (Hpre3 [] s3 w4) as (d & Hl & Hr); [by rewrite app_nil_r|done|].
    exists d, s3. split; [done|]. split; [done|].
    destruct Hres3 as [->| ->]; eauto.
  - subst s3.
    destruct (IH w4 Delivering) as (d4 & s4 & Hlog4 & Hrun4 & Hset4 & Hfail4);
      [right; by right|].
    destruct (Hpre3 d4 s4 (final (extractLoop rest w4))) as (d & Hl & Hr); [done|done|].
    exists d, s4. done.
  - subst s3. destruct (Hpre3 [] Delivering w4) as (d & Hl & Hr); [by rewrite app_nil_r|done|].
    exists d, Delivering. done.
Qed.

Lemma sanityCheck_run b w :
  heap (final (sanityCheck b w)) = heap w
  /\ ((log (final (sanityCheck b w)) = log w
       /\ forall w', sanityCheck b w <> Done None w')
      \/ exists blk, heap w !! b = Some blk
           /\ log (final (sanityCheck b w)) = log w ++ [EvSigToPub (BHash blk) (Signature blk)]).
Proof.
  unfold sanityCheck. unfold_run.
  destruct (heap w !! b) as [blk|] eqn:Hblk.
  2:{ split; [done|]. left. done. }
  repeat (case_match; simplify_eq/=); split; try done.
  all: first [ left; split; [done|]; intros w'; congruence | right; by exists blk ].
Qed.

(** The record of an invocation of [processBlock], whatever the state and
    whatever the modules answer: it keeps to the automaton, it does not end
    between an update and its delivery, a failed write makes the invocation
    return an error, and it starts with the recovery of the signature and
    BlockConfirmed of the input. *)
Lemma processBlock_run block w :
  exists d s, log (final (processBlock block w)) = log w ++ d
    /\ run Start d = Some s
    /\ settled s = true
    /\ (s = Failed -> exists e w', processBlock block w = Done (Some e) w')
    /\ (d = []
        \/ exists blk, heap w !! block = Some blk
             /\ (d = [EvSigToPub (BHash blk) (Signature blk)]
                 \/ exists rest,
                      d = EvSigToPub (BHash blk) (Signature blk)
                            :: EvBlockConfirmed (BHash blk) :: rest
                      /\ run Confirmed rest = Some s)).
Proof.
  unfold processBlock. rewrite step_bind.
  destruct (sanityCheck_run block w) as [Hheap Hlog].
  destruct (sanityCheck block w) as [[e|] w1|w1] eqn:Hcheck; cbn [final] in *.
  - destruct Hlog as [[Hlog _]|(blk & Hblk & Hlog)].
    + exists [], Start. rewrite app_nil_r. cbn. repeat split; try done. by left.
    + exists [EvSigToPub (BHash blk) (Signature blk)], Checked. cbn.
      repeat split; try done. right. exists blk. split; [done|]. by left.
  - destruct Hlog as [[_ Hno]|(blk & Hblk & Hlog)]; [by destruct (Hno w1)|].
    unfold clone. rewrite ConsensusFacts.step_assoc.
    rewrite (ConsensusFacts.step_deref _ blk) by (by rewrite Hheap).
    rewrite ConsensusFacts.step_assoc, ConsensusFacts.step_gets.
    rewrite ConsensusFacts.step_assoc, ConsensusFacts.step_modify, ConsensusFacts.step_ret.
    rewrite !ConsensusFacts.step_gets. world_cbn.
    match goal with |- context [rb_processBlock ?r ?h ?b] =>
      destruct (rb_processBlock r h b) as [rb' [e|]]; set (h1 := h) in *
    end.
    { rewrite ConsensusFacts.step_modify.
      exists [EvSigToPub (BHash blk) (Signature blk)], Checked. cbn.
      repeat split; try done. right. exists blk. split; [done|]. by left. }
    rewrite ConsensusFacts.step_modify.
    destruct (h1 !! block) as [blk1|] eqn:Hblk1.
    2:{ rewrite step_deref_nil by done.
        exists [EvSigToPub (BHash blk) (Signature blk)], Checked. cbn.
      repeat split; try done. right. exists blk. split; [done|]. by left. }
    assert (blk1 = blk) as ->.
    { subst h1. destruct (decide (fresh (dom (D:=gset positive) (heap w1)) = block)) as [Heq|Hne].
      - rewrite <- Heq in Hblk1 at 1. rewrite lookup_insert in Hblk1.
        rewrite decide_True in Hblk1 by done. by simplify_eq.
      - rewrite lookup_insert_ne in Hblk1 by done. rewrite Hheap in Hblk1. by simplify_eq. }
    rewrite (ConsensusFacts.step_deref _ blk) by done.
    rewrite ConsensusFacts.step_emit, !ConsensusFacts.step_gets. world_cbn.
    destruct (rb_extractBlocks rb' h1) as [rb'' extracted].
    rewrite ConsensusFacts.step_modify.
    match goal with |- context [extractLoop extracted ?w2] =>
      destruct (extractLoop_run extracted w2 Confirmed) as (d & s & Hl & Hr & Hset & Hfail);
        [by left|]
    end.
    exists (EvSigToPub (BHash blk) (Signature blk) :: EvBlockConfirmed (BHash blk) :: d), s.
    split; [rewrite Hl; world_cbn; rewrite Hlog; by rewrite <- !app_assoc|].
    split; [done|]. split; [done|]. split; [done|].
    right. exists blk. split; [done|]. right. eauto.
  - exists [], Start. rewrite app_nil_r. cbn.
    destruct Hlog as [[Hlog _]|(blk & Hblk & Hlog)];
      [repeat split; try done; by left|].
    exfalso. revert Hcheck. unfold sanityCheck. unfold_run. rewrite Hblk.
    repeat (case_match; simplify_eq/=); done.
Qed.

Lemma run_snoc s d e s' :
  run s (d ++ [e]) = Some s' <-> exists s1, run s d = Some s1 /\ step s1 e = Some s'.
Proof.
  rewrite run_app. destruct (run s d) as [s1|]; cbn [run].
  - destruct (step s1 e) as [s2|] eqn:Hstep; split.
    + intros ?. simplify_eq. eauto.
    + intros (? & ? & ?). by simplify_eq.
    + done.
    + intros (? & ? & ?). by simplify_eq.
  - split; [done|]. by intros (? & ? & _).
Qed.

Lemma run_cut s pre e post s' :
  run s (pre ++ e :: post) = Some s' ->
  exists s1 s2, run s pre = Some s1 /\ step s1 e = Some s2 /\ run s2 post = Some s'.
Proof.
  rewrite run_app. destruct (run s pre) as [s1|]; [|done]. cbn [run].
  destruct (step s1 e) as [s2|] eqn:Hstep; [|done]. eauto.
Qed.

(** The only way into [Updated b] is a successful update of [b]. *)
Lemma run_to_updated s pre b :
  run s pre = Some (Updated b) ->
  (pre = [] /\ s = Updated b) \/ exists pre', pre = pre' ++ [EvDBUpdate b true].
Proof.
  destruct pre as [|e pre _] using rev_ind.
  { cbn. intros ?. simplify_eq. by left. }
  intros Hrun. apply run_snoc in Hrun as (s1 & _ & Hstep). right. exists pre.
  destruct e, s1; simplify_eq/=; repeat (case_match; simplify_eq/=); done.
Qed.

(** The only way into [Putting hs] is an ack followed by successful writes
    of blocks with the hashes [hs]. *)
Lemma run_to_putting pre : forall s hs,
  run s pre = Some (Putting hs) ->
  exists pre' bs hs0,
    pre = pre' ++ ((fun b => EvDBPut b true) <$> bs)
    /\ hs = hs0 ++ (BHash <$> bs)
    /\ ((pre' = [] /\ s = Putting hs0)
        \/ (hs0 = [] /\ exists pre'' h, pre' = pre'' ++ [EvStronglyAcked h])).
Proof.
  induction pre as [|e pre IH] using rev_ind; intros s hs Hrun.
  { cbn in Hrun. simplify_eq. exists [], [], hs. cbn. rewrite app_nil_r. eauto. }
  apply run_snoc in Hrun as (s1 & Hrun & Hstep).
  destruct e; try (destruct s1; simplify_eq/=; repeat (case_match; simplify_eq/=); done).
  - (* a write *)
    destruct s1 as [| | |hs1| | |]; simplify_eq/=. destruct ok; simplify_eq/=.
    destruct (IH _ _ Hrun) as (pre' & bs & hs0 & -> & -> & Hfrom).
    exists pre', (bs ++ [b]), hs0.
    rewrite !fmap_app. cbn. rewrite <- !app_assoc. done.
  - (* an ack *)
    exists (pre ++ [EvStronglyAcked h]), [], [].
    assert (hs = []) as ->.
    { destruct s1; simplify_eq/=; repeat (case_match; simplify_eq/=); done. }
    cbn. rewrite app_nil_r. split; [done|]. split; [done|]. right. eauto.
Qed.

(** X9.  Whatever the state and whatever the modules answer, the calls an
    invocation of [processBlock] makes to the application and the database
    follow the automaton: the signature, BlockConfirmed, then for each
    extracted block StronglyAcked and, when total ordering delivers, the
    writes of the batch, its announcement, and each block updated then
    handed over; a failed write ends it. *)
Theorem processBlock_follows_the_protocol (block : ptr) (w : World) :
  exists d, log (final (processBlock block w)) = log w ++ d /\ followsProtocol d.
Proof.
  destruct (processBlock_run block w) as (d & s & Hlog & Hrun & Hset & _).
  exists d. split; [done|]. by exists s.
Qed.

(** X10.  A block reaches the application only straight after its update in the
    database has succeeded, and the block handed over is the very value
    that was written; a successful update is always followed by the
    delivery. *)
Theorem processBlock_delivers_what_it_updated (block : ptr) (w : World) :
  exists d, log (final (processBlock block w)) = log w ++ d
    /\ (forall pre b post, d = pre ++ EvBlockDelivered b :: post ->
          exists pre', pre = pre' ++ [EvDBUpdate b true])
    /\ (forall pre b post, d = pre ++ EvDBUpdate b true :: post ->
          exists post', post = EvBlockDelivered b :: post').
Proof.
  destruct (processBlock_run block w) as (d & s & Hlog & Hrun & Hset & _).
  exists d. split; [done|]. split.
  - intros pre b post ->. apply run_cut in Hrun as (s1 & s2 & Hpre & Hstep & _).
    destruct s1; simplify_eq/=. case_decide; simplify_eq.
    apply run_to_updated in Hpre as [[_ ?]|?]; done.
  - intros pre b post ->. apply run_cut in Hrun as (s1 & s2 & Hpre & Hstep & Hpost).
    destruct s1; simplify_eq/=.
    destruct post as [|e post]; cbn in Hpost; [by simplify_eq|].
    destruct e; simplify_eq/=. case_decide; simplify_eq/=. eauto.
Qed.

(** X11.  The application is told that total ordering delivered a batch only
    once every block of the batch has been written to the database:
    [TotalOrderingDelivered] comes straight after the successful [Put]s of
    blocks with exactly the announced hashes, in the announced order, and
    these follow a [StronglyAcked]. *)
Theorem processBlock_announces_after_puts (block : ptr) (w : World) :
  exists d, log (final (processBlock block w)) = log w ++ d
    /\ forall pre hs early post, d = pre ++ EvTotalOrderingDelivered hs early :: post ->
         exists pre' h bs,
           pre = pre' ++ EvStronglyAcked h :: ((fun b => EvDBPut b true) <$> bs)
           /\ hs = BHash <$> bs /\ bs <> [].
Proof.
  destruct (processBlock_run block w) as (d & s & Hlog & Hrun & Hset & _).
  exists d. split; [done|].
  intros pre hs early post ->. apply run_cut in Hrun as (s1 & s2 & Hpre & Hstep & _).
  destruct s1 as [| | |hs1| | |]; simplify_eq/=.
  case_decide as Hhs; simplify_eq. destruct Hhs as [-> Hne].
  apply run_to_putting in Hpre as (pre' & bs & hs0 & -> & -> & Hfrom).
  destruct Hfrom as [[_ ?]|(-> & pre'' & h & ->)]; [done|].
  exists pre'', h, bs. rewrite <- app_assoc. cbn. split; [done|]. split; [done|].
  intros ->. done.
Qed.

(** X12.  A failed write to the database, a [Put] or an [Update], is the last
    thing an invocation does: nothing is called after it, and the
    invocation returns an error. *)
Theorem processBlock_stops_at_failed_write (block : ptr) (w : World) :
  exists d, log (final (processBlock block w)) = log w ++ d
    /\ forall pre e post, d = pre ++ e :: post ->
         (exists b, e = EvDBPut b false \/ e = EvDBUpdate b false) ->
         post = [] /\ exists err w', processBlock block w = Done (Some err) w'.
Proof.
  destruct (processBlock_run block w) as (d & s & Hlog & Hrun & Hset & Hfail & _).
  exists d. split; [done|].
  intros pre e post -> (b & He). apply run_cut in Hrun as (s1 & s2 & Hpre & Hstep & Hpost).
  assert (s2 = Failed) as ->.
  { destruct He as [-> | ->]; destruct s1; by simplify_eq/=. }
  destruct post as [|e' post]; cbn in Hpost.
  - simplify_eq. split; [done|]. by apply Hfail.
  - by destruct e'.
Qed.

(** X13.  BlockConfirmed is the first thing the application hears of an
    invocation: the record is empty, or the recovery of the signature of
    the input alone, or that recovery, then BlockConfirmed of the input,
    then the rest, in which no other BlockConfirmed occurs. *)
Theorem processBlock_confirms_once (block : ptr) (w : World) :
  exists d, log (final (processBlock block w)) = log w ++ d
    /\ (d = []
        \/ exists blk, heap w !! block = Some blk
             /\ (d = [EvSigToPub (BHash blk) (Signature blk)]
                 \/ exists rest,
                      d = EvSigToPub (BHash blk) (Signature blk)
                            :: EvBlockConfirmed (BHash blk) :: rest
                      /\ Forall (fun e => forall h, e <> EvBlockConfirmed h) rest)).
Proof.
  destruct (processBlock_run block w) as (d & s & Hlog & _ & _ & _ & Hshape).
  exists d. split; [done|].
  destruct Hshape as [->|(blk & Hblk & [->|(rest & -> & Hrest)])]; [by left| |].
  { right. exists blk. split; [done|]. by left. }
  right. exists blk. split; [done|]. right. exists rest. split; [done|].
  assert (Hgen : forall d s0 s', s0 <> Start -> s0 <> Checked -> run s0 d = Some s' ->
                   Forall (fun e => forall h, e <> EvBlockConfirmed h) d).
  { clear. induction d as [|e d IH]; intros s0 s' Hs Hc Hrun; [constructor|].
    cbn in Hrun. destruct (step s0 e) as [s1|] eqn:Hstep; [|done].
    constructor.
    - intros h ->. by destruct s0.
    - apply (IH s1 s'); [| |done].
      + intros ->. by destruct e, s0; simplify_eq/=; repeat (case_match; simplify_eq/=).
      + intros ->. by destruct e, s0; simplify_eq/=; repeat (case_match; simplify_eq/=). }
  by apply (Hgen rest Confirmed s).
Qed.

End Facts.
End ConsensusMore.

(** ** The entry points to the agreement modules *)
Module ConsensusBAFacts.
Import Consensus ConsensusBA.
Section Facts.

Context `{Crypto, BlockDatabase, ReliableBroadcastI, TotalOrderingI,
          ConsensusTimestampI, CompactionChainI}.
Context `{!AgreementI}.

Ltac unfold_run :=
  unfold onCore, baModule, emit, mbind, M_bind, bind, mret, M_ret, ret, gets, modify,
    deref in *.

Lemma sanityCheck_position b c0 c blk :
  heap c0 !! b = Some blk ->
  sanityCheck b c0 = Done None c ->
  (ChainID (Position_ blk) < rb_chainNum (rbModule c0))%N /\ heap c = heap c0.
Proof.
  intros Hblk. unfold sanityCheck. unfold_run. rewrite Hblk. intros Hrun.
  repeat (case_match; simplify_eq/=).
  match goal with Ho : _ || _ = false |- _ => apply orb_false_iff in Ho as [_ Hl] end.
  apply N.leb_gt in Hl. done.
Qed.

Lemma sanityCheck_returns b c0 blk :
  heap c0 !! b = Some blk -> exists r c, sanityCheck b c0 = Done r c.
Proof.
  intros Hblk. unfold sanityCheck. unfold_run. rewrite Hblk.
  repeat (case_match; simplify_eq/=); eauto.
Qed.

(** X14.  Nothing checks the chain of a vote: [ProcessVote] reaches the
    agreement of the chain when there is one, and panics on the index when
    the vote names a chain beyond the agreement modules. *)
Theorem ProcessVote_panics_beyond_the_chains (vote : Vote) (w : BAWorld) :
  ((N.to_nat (ChainID (vote_Position vote)) < length (baModules w))%nat ->
     exists ba, baModules w !! N.to_nat (ChainID (vote_Position vote)) = Some ba
       /\ ProcessVote vote w
          = Done (snd (ba_processVote ba vote))
              (set_baModule (ChainID (vote_Position vote)) (fst (ba_processVote ba vote)) w))
  /\ ((length (baModules w) <= N.to_nat (ChainID (vote_Position vote)))%nat ->
        ProcessVote vote w = Panicked w).
Proof.
  split.
  - intros Hlt. destruct (lookup_lt_is_Some_2 _ _ Hlt) as [ba Hba]. exists ba.
    split; [done|]. unfold ProcessVote. unfold_run. rewrite Hba.
    by destruct (ba_processVote ba vote).
  - intros Hge. apply lookup_ge_None_2 in Hge.
    unfold ProcessVote. unfold_run. by rewrite Hge.
Qed.

(** X15.  [PreProcessBlock] shows the agreement only blocks that pass
    [sanityCheck], and, with an agreement for every chain reliable
    broadcast knows, it does not panic on the index: the position has been
    checked before. *)
Theorem PreProcessBlock_is_guarded (b : ptr) (w : BAWorld) (blk : Block) :
  heap (core w) !! b = Some blk ->
  (N.to_nat (rb_chainNum (rbModule (core w))) <= length (baModules w))%nat ->
  exists err w', PreProcessBlock b w = Done err w'
    /\ (baModules w' <> baModules w ->
          exists c, sanityCheck b (core w) = Done None c)
    /\ forall e c, sanityCheck b (core w) = Done (Some e) c ->
         err = Some e /\ baModules w' = baModules w.
Proof.
  intros Hblk Hlen.
  destruct (sanityCheck_returns b (core w) blk Hblk) as (r & c & Hcheck).
  unfold PreProcessBlock. unfold mbind at 1, M_bind at 1, bind at 1, onCore at 1.
  rewrite Hcheck. destruct r as [e|].
  - exists (Some e), (mkBAWorld c (baModules w)). split; [done|]. split; [done|].
    intros e' c' ?. by simplify_eq.
  - destruct (sanityCheck_position b (core w) c blk Hblk Hcheck) as [Hchain Hheap].
    unfold_run. cbn [core]. rewrite Hheap, Hblk.
    match goal with |- context [?l !! ?i] =>
      destruct (l !! i) as [ba|] eqn:Hba;
        [|apply lookup_ge_None_1 in Hba; cbn in Hba; lia]
    end.
    destruct (ba_processBlock ba _ b) as [ba' err'].
    do 2 eexists. split; [reflexivity|]. split; [eauto|]. intros ? ? ?. done.
Qed.

End Facts.
End ConsensusBAFacts.

(** ** Preparing blocks in [Consensus] *)
Module PrepareFacts.
Import Consensus ConsensusPrepare.
Section Facts.

Context `{Crypto, Application, BlockDatabase, ReliableBroadcastI, TotalOrderingI,
          ConsensusTimestampI, CompactionChainI}.
Context `{!PrepareModulesI}.

Ltac unfold_run :=
  unfold store, emit, mbind, M_bind, bind, mret, M_ret, ret, gets, modify, deref in *.

(** X16.  A block without proposer is refused by [prepareBlock] and by
    [PrepareGenesisBlock] with the error "missing ProposerID in block", a
    genesis block with a payload by [PrepareGenesisBlock] with
    [ErrGenesisBlockNotEmpty]; in both cases before anything is written:
    the block and the state are as they were. *)
Theorem prepare_refusals_touch_nothing (b : ptr) (proposeTime : Time) (w : World) (blk : Block) :
  heap w !! b = Some blk ->
  (ProposerID blk = 0%N ->
     prepareBlock b proposeTime w = Done (Some (ErrMissingBlockInfo "ProposerID")) w
     /\ PrepareGenesisBlock b proposeTime w = Done (Some (ErrMissingBlockInfo "ProposerID")) w
     /\ Error "ProposerID" = "missing ProposerID in block")
  /\ (ProposerID blk <> 0%N -> Payload blk <> [] ->
        PrepareGenesisBlock b proposeTime w = Done (Some (ErrOf ErrGenesisBlockNotEmpty)) w).
Proof.
  intros Hblk. split.
  - intros Hid. unfold prepareBlock, PrepareGenesisBlock, checkPrepareBlock.
    rewrite !(ConsensusFacts.step_deref _ blk) by done.
    by rewrite bool_decide_eq_true_2 by done.
  - intros Hid Hpay. unfold PrepareGenesisBlock, checkPrepareBlock.
    rewrite (ConsensusFacts.step_deref _ blk) by done.
    rewrite bool_decide_eq_false_2 by done.
    destruct (Payload blk); done.
Qed.

(** When hashing and signing succeed the block at [b] is the one handed in
    with its hash and its signature filled; if the hash does not cover
    these two fields, and the key signs for the proposer, the block passes
    [sanityCheck] wherever its position is right. *)
Lemma hashAndSign_then_sanityCheck b blk0 w w' :
  (forall x h sig, hashBlock (withSignature sig (withHash h x)) = hashBlock x) ->
  (forall h sig, Sign h = (sig, None) ->
     exists pubKey, SigToPub h sig = inr pubKey /\ Keccak256Hash pubKey = ProposerID blk0) ->
  ShardID (Position_ blk0) = 0%N ->
  (ChainID (Position_ blk0) < rb_chainNum (rbModule w))%N ->
  hashAndSign b blk0 w = Done None w' ->
  exists h sig,
    hashBlock blk0 = Some h /\ Sign h = (sig, None)
    /\ w' = set_heap (<[b := withSignature sig (withHash h blk0)]> (heap w)) w
    /\ exists w'', sanityCheck b w' = Done None w''.
Proof.
  intros Hcover Hkey Hshard Hchain. unfold hashAndSign, hashBlock2.
  destruct (hashBlock blk0) as [h|] eqn:Hhash.
  2:{ destruct (hashBlock_failed blk0). unfold_run. done. }
  cbn [BHash withHash].
  destruct (Sign h) as [sig [e|]] eqn:Hsign; [unfold_run; done|].
  intros Hrun. unfold_run. simplify_eq/=. exists h, sig. split; [done|]. split; [done|].
  split; [done|].
  destruct (Hkey h sig Hsign) as (pk & Hpk & Hid).
  eexists. apply (ConsensusFacts.sanityCheck_passes _ _ (withSignature sig (withHash h blk0)) pk).
  - cbn. by rewrite lookup_insert_eq.
  - done.
  - done.
  - by rewrite Hcover.
  - done.
  - done.
Qed.

(** X17.  A genesis block that [PrepareGenesisBlock] has prepared passes
    [sanityCheck]: its height is 0, its parent the zero hash, its timestamp
    the propose time, its hash and signature match. *)
Theorem PrepareGenesisBlock_then_sanityCheck
    (b : ptr) (proposeTime : Time) (w w' : World) (blk : Block) :
  (forall x h sig, hashBlock (withSignature sig (withHash h x)) = hashBlock x) ->
  (forall h sig, Sign h = (sig, None) ->
     exists pubKey, SigToPub h sig = inr pubKey /\ Keccak256Hash pubKey = ProposerID blk) ->
  heap w !! b = Some blk ->
  ShardID (Position_ blk) = 0%N ->
  (ChainID (Position_ blk) < rb_chainNum (rbModule w))%N ->
  PrepareGenesisBlock b proposeTime w = Done None w' ->
  (exists blk', heap w' !! b = Some blk'
     /\ Height (Position_ blk') = 0%N /\ ParentHash blk' = 0%N
     /\ Timestamp blk' = proposeTime /\ Payload blk' = []
     /\ ProposerID blk' = ProposerID blk
     /\ ChainID (Position_ blk') = ChainID (Position_ blk)
     /\ hashBlock blk' = Some (BHash blk'))
  /\ exists w'', sanityCheck b w' = Done None w''.
Proof.
  intros Hcover Hkey Hblk Hshard Hchain. unfold PrepareGenesisBlock.
  rewrite (ConsensusFacts.step_deref _ blk) by done.
  destruct (checkPrepareBlock blk proposeTime); [done|].
  destruct (Payload blk) as [|x l] eqn:Hpay; [|done]. cbn [length Nat.eqb negb].
  intros Hrun.
  apply hashAndSign_then_sanityCheck in Hrun as (h & sig & Hhash & Hsign & -> & Hcheck);
    try done.
  split; [|done]. eexists. split; [cbn; by rewrite lookup_insert_eq|].
  cbn. rewrite Hcover. cbn in Hhash. done.
Qed.

(** X18.  A block that [prepareBlock] has prepared passes [sanityCheck], provided
    reliable broadcast put it on shard 0 and on one of its chains and left
    the proposer alone. *)
Theorem prepareBlock_then_sanityCheck
    (b : ptr) (proposeTime : Time) (w w' : World) (blk : Block) :
  let prepared := rb_prepareBlock (rbModule w) (heap w) blk in
  (forall x h sig, hashBlock (withSignature sig (withHash h x)) = hashBlock x) ->
  (forall h sig, Sign h = (sig, None) ->
     exists pubKey, SigToPub h sig = inr pubKey /\ Keccak256Hash pubKey = ProposerID prepared) ->
  heap w !! b = Some blk ->
  ShardID (Position_ prepared) = 0%N ->
  (ChainID (Position_ prepared) < rb_chainNum (rbModule w))%N ->
  prepareBlock b proposeTime w = Done None w' ->
  (exists blk', heap w' !! b = Some blk'
     /\ Timestamp blk' = proposeTime
     /\ Payload blk' = PreparePayload (Position_ prepared)
     /\ Position_ blk' = Position_ prepared
     /\ hashBlock blk' = Some (BHash blk'))
  /\ exists w'', sanityCheck b w' = Done None w''.
Proof.
  intros prepared Hcover Hkey Hblk Hshard Hchain. unfold prepareBlock.
  rewrite (ConsensusFacts.step_deref _ blk) by done.
  destruct (checkPrepareBlock blk proposeTime); [done|].
  rewrite !ConsensusFacts.step_gets. fold prepared.
  intros Hrun.
  apply hashAndSign_then_sanityCheck in Hrun as (h & sig & Hhash & Hsign & -> & Hcheck);
    try done.
  split; [|done]. eexists. split; [cbn; by rewrite lookup_insert_eq|].
  cbn. rewrite Hcover. done.
Qed.

End Facts.
End PrepareFacts.

(** ** The chains of [RunLegacy] *)
Module LegacyFacts.
Import ConsensusPrepare.

Lemma filter_below_none (l : list N) (id : N) :
  (forall y, y ∈ l -> (id <= y)%N) -> filter (fun h => (h < id)%N) l = [].
Proof.
  induction l as [|x l IH]; intros Hall; [done|].
  rewrite filter_cons, decide_False.
  - apply IH. intros y Hy. apply Hall. by right.
  - specialize (Hall x). cut (id <= x)%N; [lia|]. apply Hall. by left.
Qed.

Lemma sortedHashes_sorted S : StronglySorted N.lt (sortedHashes S).
Proof.
  unfold sortedHashes.
  assert (Hs : StronglySorted N.le (merge_sort N.le (elements S))).
  { apply StronglySorted_merge_sort; [apply _|]. intros x y. lia. }
  assert (Hnd : NoDup (merge_sort N.le (elements S))).
  { rewrite merge_sort_Permutation. apply NoDup_elements. }
  induction Hs as [|x l Hl IH Hx]; [constructor|].
  apply NoDup_cons in Hnd as [Hnin Hnd].
  constructor; [by apply IH|].
  apply Forall_forall. intros y Hy. rewrite Forall_forall in Hx.
  specialize (Hx y Hy). assert (x <> y) by (intros ->; done). lia.
Qed.

Lemma elem_of_sortedHashes S x : x ∈ sortedHashes S <-> x ∈ S.
Proof. unfold sortedHashes. by rewrite merge_sort_Permutation, elem_of_elements. Qed.

Lemma length_sortedHashes S : length (sortedHashes S) = size S.
Proof. unfold sortedHashes. by rewrite merge_sort_Permutation. Qed.

Lemma size_notariesBelow S id :
  size (notariesBelow S id) = length (filter (fun h => (h < id)%N) (sortedHashes S)).
Proof.
  unfold size, set_size. cbn. apply Permutation_length.
  apply NoDup_Permutation.
  - apply NoDup_elements.
  - apply NoDup_filter. unfold sortedHashes. rewrite merge_sort_Permutation.
    apply NoDup_elements.
  - intros x. unfold notariesBelow.
    rewrite elem_of_elements, elem_of_filter, list_elem_of_filter, elem_of_sortedHashes.
    done.
Qed.

(** In an ascending list without repetition the loop stops at the index
    that counts the entries below [id]. *)
Lemma findChainID_sorted l : forall id i,
  StronglySorted N.lt l -> id ∈ l ->
  findChainID l id i
  = (N.of_nat (i + length (filter (fun h => (h < id)%N) l)) mod 2 ^ 32)%N
  /\ l !! length (filter (fun h => (h < id)%N) l) = Some id.
Proof.
  induction l as [|x l IH]; intros id i Hs Hin; [by apply elem_of_nil in Hin|].
  apply StronglySorted_inv in Hs as [Hs Hx]. rewrite Forall_forall in Hx.
  cbn [findChainID]. rewrite filter_cons.
  destruct (decide (x = id)) as [->|Hne].
  - rewrite bool_decide_eq_true_2 by done. rewrite decide_False by lia.
    assert (Hnone : filter (fun h => (h < id)%N) l = []).
    { apply filter_below_none. intros y Hy. specialize (Hx y Hy). lia. }
    rewrite Hnone. cbn. by rewrite Nat.add_0_r.
  - rewrite bool_decide_eq_false_2 by done.
    apply elem_of_cons in Hin as [->|Hin]; [done|].
    rewrite decide_True by (by apply Hx).
    destruct (IH id (S i) Hs Hin) as [-> Hl]. cbn [length].
    split; [f_equal; f_equal; lia|done].
Qed.

Lemma findChainID_absent l : forall id i, id ∉ l -> findChainID l id i = 0%N.
Proof.
  induction l as [|x l IH]; intros id i Hnin; [done|].
  apply not_elem_of_cons in Hnin as [Hne Hnin]. cbn.
  rewrite bool_decide_eq_false_2 by done. by apply IH.
Qed.

Lemma legacyChainID_at (notarySet : gset Hash) (id : Hash) :
  id ∈ notarySet ->
  (N.of_nat (size notarySet) < 2 ^ 32)%N ->
  sortedHashes notarySet !! N.to_nat (legacyChainID notarySet id) = Some id.
Proof.
  intros Hin Hsize. unfold legacyChainID.
  destruct (findChainID_sorted (sortedHashes notarySet) id 0%nat) as [Hid Hat].
  { apply sortedHashes_sorted. }
  { by apply elem_of_sortedHashes. }
  pose proof (lookup_lt_Some _ _ _ Hat) as Hlt.
  rewrite length_sortedHashes in Hlt.
  rewrite Hid. cbn [Nat.add]. rewrite N.mod_small by lia. by rewrite Nat2N.id.
Qed.

(** X19.  The chain [RunLegacy] gives a notary is the number of notaries with a
    smaller ID: it is below the number of chains handed to reliable
    broadcast, and the sorted list of IDs holds the notary at that index. *)
Theorem legacyChainID_is_rank (notarySet : gset Hash) (id : Hash) :
  id ∈ notarySet ->
  (N.of_nat (size notarySet) < 2 ^ 32)%N ->
  legacyChainID notarySet id = N.of_nat (size (notariesBelow notarySet id))
  /\ (legacyChainID notarySet id < legacyChainNum notarySet)%N
  /\ sortedHashes notarySet !! N.to_nat (legacyChainID notarySet id) = Some id.
Proof.
  intros Hin Hsize. split; [|split; [|by apply legacyChainID_at]].
  all: unfold legacyChainID, legacyChainNum.
  all: destruct (findChainID_sorted (sortedHashes notarySet) id 0%nat) as [Hid Hat];
    [apply sortedHashes_sorted|by apply elem_of_sortedHashes|].
  all: pose proof (lookup_lt_Some _ _ _ Hat) as Hlt.
  all: rewrite length_sortedHashes in *; rewrite <- size_notariesBelow in *.
  all: rewrite Hid; cbn [Nat.add]; rewrite !N.mod_small by lia; lia.
Qed.

(** X20.  Two notaries never get the same chain. *)
Theorem legacyChainID_distinct (notarySet : gset Hash) (id1 id2 : Hash) :
  id1 ∈ notarySet -> id2 ∈ notarySet ->
  (N.of_nat (size notarySet) < 2 ^ 32)%N ->
  legacyChainID notarySet id1 = legacyChainID notarySet id2 ->
  id1 = id2.
Proof.
  intros H1 H2 Hsize Heq.
  pose proof (legacyChainID_at notarySet id1 H1 Hsize) as Hat1.
  pose proof (legacyChainID_at notarySet id2 H2 Hsize) as Hat2.
  rewrite Heq in Hat1. congruence.
Qed.

(** X21.  A node that is not in the notary set is not turned away: it gets chain
    0, the chain of the notary with the smallest ID.  With an empty notary
    set the number of chains is 0, so the genesis block of [RunLegacy], on
    chain 0, is not on a chain reliable broadcast knows. *)
Theorem legacyChainID_outsider (notarySet : gset Hash) (id : Hash) :
  id ∉ notarySet ->
  legacyChainID notarySet id = 0%N
  /\ (forall m, m ∈ notarySet -> (forall x, x ∈ notarySet -> (m <= x)%N) ->
        legacyChainID notarySet m = legacyChainID notarySet id)
  /\ (notarySet = ∅ ->
        ~ (ChainID (Position_ (legacyGenesis notarySet id)) < legacyChainNum notarySet)%N).
Proof.
  intros Hnin. assert (H0 : legacyChainID notarySet id = 0%N).
  { apply findChainID_absent. by rewrite elem_of_sortedHashes. }
  split; [done|]. split.
  - intros m Hm Hmin. rewrite H0. unfold legacyChainID.
    destruct (findChainID_sorted (sortedHashes notarySet) m 0%nat) as [-> _].
    { apply sortedHashes_sorted. }
    { by apply elem_of_sortedHashes. }
    rewrite filter_below_none; [done|]. intros y Hy.
    apply elem_of_sortedHashes in Hy. by apply Hmin.
  - intros -> Hlt. unfold legacyGenesis, legacyChainID, legacyChainNum, sortedHashes in Hlt.
    rewrite elements_empty in Hlt. vm_compute in Hlt. done.
Qed.

End LegacyFacts.

(** ** What the statistics count *)
Module StatsMore.
Import Stats StatsCount.

Lemma wrap64_small z : - 2 ^ 63 <= z < 2 ^ 63 -> wrap64 z = z.
Proof. intros Hz. unfold wrap64. rewrite Z.mod_small; lia. Qed.

Lemma count_snoc f l e : count f (l ++ [e]) = count f l + (if f e then 1 else 0).
Proof.
  unfold count. rewrite filter_app, length_app, filter_cons, filter_nil.
  destruct (f e); [rewrite decide_True by done|rewrite decide_False by done]; cbn; lia.
Qed.

Lemma count_bounds f l : 0 <= count f l <= Z.of_nat (length l).
Proof. unfold count. pose proof (length_filter (fun e => f e = true) l). lia. Qed.

Lemma eventsOf_snoc v l e :
  eventsOf v (l ++ [e]) = eventsOf v l ++ (if decide (ev_NodeID e = v) then [e] else []).
Proof.
  unfold eventsOf. rewrite filter_app, filter_cons, filter_nil. by case_decide.
Qed.

Lemma length_eventsOf v l : (length (eventsOf v l) <= length l)%nat.
Proof. apply length_filter. Qed.

Lemma done_keeps_counts s n s' :
  done s n = Some s' ->
  ProposedBlockCount s' = ProposedBlockCount s
  /\ ReceivedBlockCount s' = ReceivedBlockCount s
  /\ StronglyAckedBlockCount s' = StronglyAckedBlockCount s
  /\ TotalOrderedBlockCount s' = TotalOrderedBlockCount s
  /\ DeliveredBlockCount s' = DeliveredBlockCount s.
Proof.
  unfold done, div64.
  destruct (wrap64 (ProposedBlockCount s - n) =? 0); [done|].
  destruct (ReceivedBlockCount s =? 0); [done|].
  destruct (ProposedBlockCount s =? 0); [done|].
  cbn. intros ?. by simplify_eq/=.
Qed.

Lemma done_without_received s n : ReceivedBlockCount s = 0 -> done s n = None.
Proof.
  unfold done, div64. intros ->.
  by destruct (wrap64 (ProposedBlockCount s - n) =? 0).
Qed.

(** X22.  [done] panics exactly when one of its three divisors is zero: the set
    has proposed as many blocks as the node count, or none, or it has
    received none.  When it returns, the counters are kept and each latency
    is the quotient, truncated toward zero. *)
Theorem done_panics_iff (s : StatsSet) (nodeCount : Z) :
  (done s nodeCount = None <->
   wrap64 (ProposedBlockCount s - nodeCount) = 0
   \/ ReceivedBlockCount s = 0 \/ ProposedBlockCount s = 0)
  /\ (forall s', done s nodeCount = Some s' ->
        ProposedBlockCount s' = ProposedBlockCount s
        /\ ReceivedBlockCount s' = ReceivedBlockCount s
        /\ StronglyAckedBlockCount s' = StronglyAckedBlockCount s
        /\ TotalOrderedBlockCount s' = TotalOrderedBlockCount s
        /\ DeliveredBlockCount s' = DeliveredBlockCount s
        /\ ProposingLatency s'
           = wrap64 (ProposingLatency s ÷ wrap64 (ProposedBlockCount s - nodeCount))
        /\ ReceivingLatency s' = wrap64 (ReceivingLatency s ÷ ReceivedBlockCount s)
        /\ PrepareExecLatency s' = wrap64 (PrepareExecLatency s ÷ ProposedBlockCount s)
        /\ ProcessExecLatency s' = wrap64 (ProcessExecLatency s ÷ ReceivedBlockCount s)).
Proof.
  unfold done, div64.
  destruct (Z.eqb_spec (wrap64 (ProposedBlockCount s - nodeCount)) 0) as [H1|H1];
  destruct (Z.eqb_spec (ReceivedBlockCount s) 0) as [H2|H2];
  destruct (Z.eqb_spec (ProposedBlockCount s) 0) as [H3|H3]; cbn.
  all: split; [split; [intros ?; try done; tauto|intros ?; try done; tauto]|].
  all: intros s' ?; simplify_eq/=; done.
Qed.

Lemma counted_empty : counted emptyStatsSet [].
Proof. unfold counted, count. cbn. lia. Qed.

Lemma isPropose_not_receive e : isPropose e = true -> isReceive e = false.
Proof. unfold isPropose, isReceive. by repeat case_match. Qed.

Lemma isReceive_not_propose e : isReceive e = true -> isPropose e = false.
Proof. unfold isPropose, isReceive. by repeat case_match. Qed.

Lemma propose_counted s e history s' l :
  newBlockProposeEvent s e history = Returns s' ->
  isPropose e = true ->
  Z.of_nat (length l) < 2 ^ 63 - 1 ->
  counted s l -> counted s' (l ++ [e]).
Proof.
  intros Hrun He Hlen (Hp & Hr & Hchain).
  unfold counted. rewrite !count_snoc, He, (isPropose_not_receive e He).
  pose proof (count_bounds isPropose l).
  unfold newBlockProposeEvent, mbind, Outcome_bind, mret, Outcome_ret in Hrun.
  destruct (if negb _ then _ else _) as [lat|k]; [|done].
  simplify_eq/=. rewrite wrap64_small by lia. lia.
Qed.

Lemma receive_counted s e payload history app s' l :
  newBlockReceiveEvent s e payload history app = Returns s' ->
  ev_Payload e = PayloadConsensus payload ->
  Type_ payload = evtReceiveBlock ->
  Z.of_nat (length l) < 2 ^ 63 - 1 ->
  counted s l -> counted s' (l ++ [e]).
Proof.
  intros Hrun Hpay Hty Hlen (Hp & Hr & Hchain).
  assert (He : isReceive e = true) by (unfold isReceive; by rewrite Hpay, Hty).
  unfold counted. rewrite !count_snoc, He, (isReceive_not_propose e He).
  pose proof (count_bounds isReceive l).
  unfold newBlockReceiveEvent, mbind, Outcome_bind, mret, Outcome_ret in Hrun.
  destruct (index history (ev_ParentHistoryIndex e)) as [parent|k]; [|done].
  destruct (PiggyBack_ payload) as [block|]; [|done].
  destruct app as [a|]; [|done]. simplify_eq/=.
  unfold checkCounts. repeat case_match; cbn.
  all: rewrite ?wrap64_small by lia; lia.
Qed.

Lemma getStatsSetByNode_counted m v s m0 l :
  countedByNode m l ->
  getStatsSetByNode m v = (s, m0) ->
  counted s (eventsOf v l)
  /\ forall v', v' <> v -> m0 !! v' = m !! v'.
Proof.
  intros Hm Hget. unfold getStatsSetByNode in Hget. specialize (Hm v).
  destruct (m !! v) as [s0|] eqn:Hv; simplify_eq/=.
  - by destruct Hm.
  - rewrite Hm. split; [apply counted_empty|].
    intros v' Hne. by rewrite lookup_insert_ne.
Qed.

Lemma countedByNode_step m m0 v s' l e :
  ev_NodeID e = v ->
  countedByNode m l ->
  (forall v', v' <> v -> m0 !! v' = m !! v') ->
  counted s' (eventsOf v (l ++ [e])) ->
  countedByNode (<[v := s']> m0) (l ++ [e]).
Proof.
  intros Hv Hm Hsame Hs v'. destruct (decide (v' = v)) as [->|Hne].
  - rewrite lookup_insert_eq. split; [done|].
    rewrite eventsOf_snoc, decide_True by done. by destruct (eventsOf v l).
  - rewrite lookup_insert_ne by done. rewrite Hsame by done.
    rewrite eventsOf_snoc, decide_False by congruence. rewrite app_nil_r. apply Hm.
Qed.

(** The loop of [calculate] counts: the set of all nodes and the set of
    each node have counted the events gone through. *)
Lemma calculateLoop_counted history apps rest : forall pre m all m' all',
  counted all pre -> countedByNode m pre ->
  Z.of_nat (length (pre ++ rest)) < 2 ^ 63 ->
  calculateLoop rest history apps m all = Returns (m', all', None) ->
  counted all' (pre ++ rest) /\ countedByNode m' (pre ++ rest).
Proof.
  induction rest as [|e rest IH]; intros pre m all m' all' Hall Hm Hlen Hrun.
  { cbn in Hrun. unfold mret, Outcome_ret in Hrun. simplify_eq. by rewrite app_nil_r. }
  replace (pre ++ e :: rest) with ((pre ++ [e]) ++ rest) in * by (by rewrite <- app_assoc).
  assert (Hpre : Z.of_nat (length pre) < 2 ^ 63 - 1).
  { rewrite !length_app in Hlen. cbn in Hlen. lia. }
  assert (Hpre' : forall v, Z.of_nat (length (eventsOf v pre)) < 2 ^ 63 - 1).
  { intros v. pose proof (length_eventsOf v pre). lia. }
  cbn [calculateLoop] in Hrun.
  destruct (ev_Payload e) as [payload|] eqn:Hpay; [|done].
  destruct (Type_ payload) eqn:Hty; [| |done].
  - assert (He : isPropose e = true) by (unfold isPropose; by rewrite Hpay, Hty).
    unfold mbind, Outcome_bind in Hrun.
    destruct (newBlockProposeEvent all e history) as [all1|k] eqn:Hall1; [|done].
    destruct (getStatsSetByNode m (ev_NodeID e)) as [s m0] eqn:Hget.
    destruct (newBlockProposeEvent s e history) as [s1|k] eqn:Hs1; [|done].
    destruct (getStatsSetByNode_counted _ _ _ _ _ Hm Hget) as [Hs Hsame].
    apply (IH (pre ++ [e])) in Hrun; [done| | |done].
    + by eapply propose_counted.
    + eapply countedByNode_step; [done|done|done|].
      rewrite eventsOf_snoc, decide_True by done. by eapply propose_counted.
  - unfold mbind, Outcome_bind in Hrun.
    destruct (newBlockReceiveEvent all e payload history _) as [all1|k] eqn:Hall1; [|done].
    destruct (getStatsSetByNode m (ev_NodeID e)) as [s m0] eqn:Hget.
    destruct (newBlockReceiveEvent s e payload history _) as [s1|k] eqn:Hs1; [|done].
    destruct (getStatsSetByNode_counted _ _ _ _ _ Hm Hget) as [Hs Hsame].
    apply (IH (pre ++ [e])) in Hrun; [done| | |done].
    + by eapply receive_counted.
    + eapply countedByNode_step; [done|done|done|].
      rewrite eventsOf_snoc, decide_True by done. by eapply receive_counted.
Qed.

Lemma done_counted s n s' l : done s n = Some s' -> counted s l -> counted s' l.
Proof.
  intros Hdone Hs. destruct (done_keeps_counts s n s' Hdone) as (Hp & Hr & Ha & Ht & Hd).
  unfold counted in *. rewrite Hp, Hr, Ha, Ht, Hd. done.
Qed.

(** X23.  Whenever [NewStats] returns, the statistics it returns have counted
    the history: in [All] and in the set of each node, the proposed and the
    received blocks are the events of that kind (of that node), and the
    delivered, the totally ordered, the strongly acked and the received
    blocks are in ascending order of count; a node has a set exactly when
    it has an event. *)
Theorem NewStats_counts (history : list TestEvent) (apps : gmap N App)
    (stats : option Stats.Stats) (err : option StatsErr) :
  Z.of_nat (length history) < 2 ^ 63 ->
  NewStats history apps = Returns (stats, err) ->
  exists st, stats = Some st /\ err = None
    /\ counted (All st) history /\ countedByNode (ByNode st) history.
Proof.
  intros Hlen. unfold NewStats, calculate, mbind, Outcome_bind. cbn [ByNode All].
  destruct (calculateLoop history history apps ∅ emptyStatsSet)
    as [[[m all] e]|k] eqn:Hloop; [|done].
  destruct (calculateDeferred m all) as [[m' all']|k] eqn:Hdef; [|done].
  unfold mret, Outcome_ret. cbv beta iota.
  destruct e as [e|]; [done|].
  destruct (summary _ history) as [st|k] eqn:Hsum; [|done].
  intros Hret. simplify_eq. exists st. split; [done|]. split; [done|].
  apply (calculateLoop_counted history apps history [] ∅ emptyStatsSet) in Hloop;
    [|apply counted_empty|by intros v; rewrite lookup_empty|done].
  destruct Hloop as [Hall Hm]. cbn [app] in *.
  unfold calculateDeferred in Hdef.
  destruct (done all _) as [alld|] eqn:Hdone; [|done].
  case_decide as Hforall; [|done]. simplify_eq.
  unfold summary in Hsum. cbn [ByNode All set_sets] in Hsum.
  case_decide; [done|]. unfold mbind, Outcome_bind in Hsum.
  destruct (index history _); [|done]. destruct (index history 0); [|done].
  unfold mret, Outcome_ret in Hsum. simplify_eq. cbn [All ByNode].
  split; [by eapply done_counted|].
  intros v. rewrite lookup_omap. specialize (Hm v).
  destruct (m !! v) as [s|] eqn:Hv; cbn; [|done].
  destruct (Hforall v s Hv) as [s' Hs']. rewrite Hs'. destruct Hm.
  split; [by eapply done_counted|done].
Qed.

Lemma propose_keeps_received s e history s' :
  newBlockProposeEvent s e history = Returns s' ->
  ReceivedBlockCount s' = ReceivedBlockCount s.
Proof.
  unfold newBlockProposeEvent, mbind, Outcome_bind, mret, Outcome_ret. intros Hrun.
  destruct (if negb _ then _ else _) as [lat|k]; [|done]. by simplify_eq/=.
Qed.

Lemma calculateLoop_without_receive history apps rest : forall m all m' all' err,
  Forall (fun e => isReceive e = false) rest ->
  calculateLoop rest history apps m all = Returns (m', all', err) ->
  ReceivedBlockCount all' = ReceivedBlockCount all.
Proof.
  induction rest as [|e rest IH]; intros m all m' all' err Hno Hrun.
  { cbn in Hrun. unfold mret, Outcome_ret in Hrun. by simplify_eq. }
  apply Forall_cons in Hno as [He Hno]. cbn [calculateLoop] in Hrun.
  unfold isReceive in He.
  destruct (ev_Payload e) as [payload|] eqn:Hpay.
  2:{ unfold mret, Outcome_ret in Hrun. by simplify_eq. }
  destruct (Type_ payload) eqn:Hty; [|done|].
  - unfold mbind, Outcome_bind in Hrun.
    destruct (newBlockProposeEvent all e history) as [all1|k] eqn:Hall1; [|done].
    destruct (getStatsSetByNode m (ev_NodeID e)) as [s m0].
    destruct (newBlockProposeEvent s e history) as [s1|k]; [|done].
    apply IH in Hrun; [|done]. rewrite Hrun. by eapply propose_keeps_received.
  - unfold mret, Outcome_ret in Hrun. by simplify_eq.
Qed.

(** X24.  A history in which no block is received, the empty history among them,
    makes [NewStats] panic: [done] divides the receiving latency by a count
    of zero. *)
Theorem NewStats_needs_a_received_block (history : list TestEvent) (apps : gmap N App) :
  Forall (fun e => isReceive e = false) history ->
  exists k, NewStats history apps = Panics k.
Proof.
  intros Hno. unfold NewStats, calculate, mbind, Outcome_bind. cbn [ByNode All].
  destruct (calculateLoop history history apps ∅ emptyStatsSet)
    as [[[m all] e]|k] eqn:Hloop; [|eauto].
  apply calculateLoop_without_receive in Hloop; [|done]. cbn in Hloop.
  unfold calculateDeferred.
  assert (Hdone : done all (Z.of_nat (size m)) = None).
  { by apply done_without_received. }
  rewrite Hdone. eauto.
Qed.

(** [getStatsSetByNode] hands out the set the map holds for the node, and
    an empty set that it puts into the map when there is none: afterwards
    the map holds the set handed out, a second call hands out the same set
    and leaves the map alone, and the sets of the other nodes are
    untouched. *)
Theorem getStatsSetByNode_lookup (m : gmap N StatsSet) (vID : NodeID) :
  let s := fst (getStatsSetByNode m vID) in
  let m' := snd (getStatsSetByNode m vID) in
  m' !! vID = Some s
  /\ getStatsSetByNode m' vID = (s, m')
  /\ (forall v, v <> vID -> m' !! v = m !! v)
  /\ match m !! vID with
     | Some s0 => s = s0 /\ m' = m
     | None => s = emptyStatsSet
     end.
Proof.
  unfold getStatsSetByNode. destruct (m !! vID) as [s0|] eqn:Hv; cbn.
  - rewrite Hv. done.
  - rewrite lookup_insert_eq. split; [done|]. split; [done|]. split; [|done].
    intros v Hne. by rewrite lookup_insert_ne.
Qed.

(** X25.  A block-received event needs its parent event: with a parent index
    outside the history, -1 included, [newBlockReceiveEvent] panics on the
    index.  A block-proposed event with parent index -1 (a genesis block) is
    counted without touching the proposing latency; with any other index
    outside the history [newBlockProposeEvent] panics as well. *)
Theorem events_need_their_parent
    (s : StatsSet) (e : TestEvent) (payload : consensusEventPayload)
    (history : list TestEvent) (app : option App) :
  ~ (0 <= ev_ParentHistoryIndex e < Z.of_nat (length history)) ->
  newBlockReceiveEvent s e payload history app = Panics PanicIndexOutOfRange
  /\ (ev_ParentHistoryIndex e <> -1 ->
        newBlockProposeEvent s e history = Panics PanicIndexOutOfRange)
  /\ (ev_ParentHistoryIndex e = -1 ->
        exists s', newBlockProposeEvent s e history = Returns s'
          /\ ProposingLatency s' = ProposingLatency s
          /\ ProposedBlockCount s' = wrap64 (ProposedBlockCount s + 1)
          /\ PrepareExecLatency s' = wrap64 (PrepareExecLatency s + ev_ExecInterval e)).
Proof.
  intros Hout.
  assert (Hidx : index history (ev_ParentHistoryIndex e) = Panics PanicIndexOutOfRange).
  { unfold index. destruct (Z.ltb_spec (ev_ParentHistoryIndex e) 0) as [?|Hge]; [done|].
    rewrite lookup_ge_None_2; [done|]. lia. }
  split; [|split].
  - unfold newBlockReceiveEvent. by rewrite Hidx.
  - intros Hne. unfold newBlockProposeEvent.
    destruct (Z.eqb_spec (ev_ParentHistoryIndex e) (-1)) as [?|_]; [done|].
    cbn [negb]. by rewrite Hidx.
  - intros Heq. unfold newBlockProposeEvent. rewrite Heq. cbn. eauto.
Qed.

Lemma float64_div_zero x : notFinite (float64_div x (float64_of_Z 0)) = true.
Proof. by destruct x. Qed.

(** X26.  [summary] on a run that lasted less than a second: the latency in
    whole seconds is 0 and the division is one of floating-point numbers,
    so there is no panic and BPS is an infinity or NaN.  The execution time
    is the time between the first and the last event of the history. *)
Theorem summary_of_a_short_run (st : Stats.Stats) (history : list TestEvent)
    (first last : TestEvent) :
  size (ByNode st) <> 0%nat ->
  head history = Some first ->
  list.last history = Some last ->
  Z.abs (ev_Time last - ev_Time first) < 1000 * 1000 * 1000 ->
  exists st', summary (Some st) history = Returns st'
    /\ ExecutionTime st' = ev_Time last - ev_Time first
    /\ notFinite (BPS st') = true
    /\ ByNode st' = ByNode st /\ All st' = All st.
Proof.
  intros Hsize Hfirst Hlast Hshort. unfold summary.
  rewrite decide_False by done.
  assert (Hlen : (0 < length history)%nat) by (destruct history; [done|cbn; lia]).
  assert (Hil : index history (Z.of_nat (length history) - 1) = Returns last).
  { unfold index. destruct (Z.ltb_spec (Z.of_nat (length history) - 1) 0); [lia|].
    replace (Z.to_nat (Z.of_nat (length history) - 1)) with (pred (length history)) by lia.
    rewrite last_lookup in Hlast. by rewrite Hlast. }
  assert (Hif : index history 0 = Returns first).
  { unfold index. change (0 <? 0) with false. cbv iota. change (Z.to_nat 0) with 0%nat.
    rewrite head_lookup in Hfirst. by rewrite Hfirst. }
  rewrite Hil. unfold mbind at 1, Outcome_bind at 1. rewrite Hif.
  unfold mbind, Outcome_bind, mret, Outcome_ret.
  assert (Hsub : Time_Sub (ev_Time last) (ev_Time first) = ev_Time last - ev_Time first).
  { unfold Time_Sub, maxDuration, minDuration. lia. }
  rewrite Hsub.
  assert (Hsec : (ev_Time last - ev_Time first) ÷ (1000 * 1000 * 1000) = 0).
  { apply Z.quot_small_iff; lia. }
  eexists. split; [reflexivity|]. cbn [ExecutionTime BPS ByNode All].
  split; [done|]. split; [|done]. rewrite Hsec. apply float64_div_zero.
Qed.

End StatsMore.

(** ** The threshold on whole products *)
Module ThresholdMore.
Import ThresholdExact.

Lemma floorMul_sc_whole n m e :
  0 <= n -> - bias <= e -> wholeProduct n (S754_finite false m e) = true ->
  let F := floorMul n (S754_finite false m e) in
  0 <= F /\ sc (n * Z.pos m) e = F * 2 ^ bias.
Proof.
  intros Hn He Hw. simpl in *. unfold sc.
  destruct (0 <=? e) eqn:Hs.
  - apply Z.leb_le in Hs. rewrite (ThresholdFacts.pow2_split e bias) by (unfold bias; lia).
    pose proof (ThresholdFacts.pow2_pos e Hs). split; [nia|ring].
  - apply Z.leb_gt in Hs. apply Z.eqb_eq in Hw.
    assert (E : 2 ^ bias = 2 ^ (- e) * 2 ^ (e + bias)).
    { rewrite <- ThresholdFacts.pow2_split by lia. f_equal. lia. }
    rewrite E. pose proof (ThresholdFacts.pow2_pos (- e) ltac:(lia)).
    assert (0 <= n * Z.pos m) by lia.
    assert (0 <= n * Z.pos m / 2 ^ (- e)) by (apply Z.div_pos; lia).
    split; [lia|].
    pose proof (Z.div_mod (n * Z.pos m) (2 ^ (- e)) ltac:(lia)) as Hdm.
    rewrite Hw in Hdm. rewrite Hdm at 1. ring.
Qed.

Lemma mul_whole n phi :
  0 <= n < 2 ^ 24 -> ratio phi = true -> wholeProduct n phi = true ->
  floorMul n phi < 2 ^ 24 ->
  between (floorMul n phi) (floorMul n phi) (mul (of_Z n) phi).
Proof.
  intros Hn Hphi Hw HF. pose proof (ThresholdFacts.of_Z_between n Hn) as Hof.
  destruct phi as [sphi| | |[|] mphi ephi]; try discriminate.
  - unfold mul. destruct (of_Z n) as [s| | |[|] mn en]; simpl in *; try done; lia.
  - pose proof (ThresholdFacts.valid_exponent _ _ Hphi) as Hephi.
    destruct (floorMul_sc_whole n mphi ephi ltac:(lia) ltac:(unfold bias; lia) Hw)
      as [HF0 HFb].
    unfold mul. destruct (of_Z n) as [s| | |[|] mn en]; simpl in Hof; try done.
    + assert (n = 0) as -> by lia. rewrite ThresholdFacts.floorMul_zero. simpl. lia.
    + destruct Hof as [Hen Hsc]. unfold SFmul.
      change (xorb false false) with false.
      apply ThresholdFacts.round_between; try lia; [unfold bias; lia|].
      rewrite (ThresholdFacts.sc_product n) by lia. rewrite HFb. lia.
Qed.

Lemma phiThreshold_whole n phi :
  0 <= n < 2 ^ 24 -> ratio phi = true -> wholeProduct n phi = true ->
  floorMul n phi + 1 < 2 ^ 24 ->
  phiThreshold n phi = Some (floorMul n phi + 1).
Proof.
  intros Hn Hphi Hw HF.
  pose proof (mul_whole n phi Hn Hphi Hw ltac:(lia)) as Hmul.
  assert (HF0 : 0 <= floorMul n phi).
  { destruct phi as [| | |[|] m e]; simpl; try lia.
    destruct (0 <=? e) eqn:Hs.
    - apply Z.leb_le in Hs. pose proof (ThresholdFacts.pow2_pos e Hs). nia.
    - apply Z.div_pos; [lia|]. apply Z.leb_gt in Hs. apply ThresholdFacts.pow2_pos. lia. }
  pose proof (ThresholdFacts.add_one_between (floorMul n phi) (floorMul n phi) _ HF0
                ltac:(lia) Hmul) as Hadd.
  destruct (ThresholdFacts.trunc_between (floorMul n phi + 1) (floorMul n phi + 1) _
              ltac:(lia) Hadd) as (t & Ht & Hrange).
  unfold phiThreshold, to_uint64. rewrite Ht.
  replace ((0 <=? t) && (t <? 2 ^ 64)) with true.
  2:{ symmetry. apply andb_true_iff. split; [apply Z.leb_le; lia|apply Z.ltb_lt; lia]. }
  f_equal. lia.
Qed.

(** X27.  When [(N-1) * phi] is a whole number there is nothing to round: the
    threshold is exactly that number plus one, in [NewLattice] and in
    [NewConsensus] alike.  With the ratio 1 the threshold is [N]. *)
Theorem threshold_exact_on_whole_products (N : Z) (cfg : Config) :
  1 <= N <= 2 ^ 24 ->
  ratio (PhiRatio cfg) = true ->
  wholeProduct (N - 1) (PhiRatio cfg) = true ->
  floorMul (N - 1) (PhiRatio cfg) + 1 < 2 ^ 24 ->
  (NumChains cfg = Z.to_N N ->
   latticeThreshold cfg = Some (floorMul (N - 1) (PhiRatio cfg) + 1))
  /\ consensusThreshold N cfg = Some (floorMul (N - 1) (PhiRatio cfg) + 1)
  /\ (PhiRatio cfg = S754_finite false 8388608 (-23) -> N < 2 ^ 24 ->
      consensusThreshold N cfg = Some N).
Proof.
  intros HN Hphi Hw HF. split; [|split].
  - intros Hchains. unfold latticeThreshold, numChainsMinus1. rewrite Hchains.
    rewrite Z2N.id by lia. rewrite Z.mod_small by lia.
    apply phiThreshold_whole; [lia|done|done|done].
  - unfold consensusThreshold. apply phiThreshold_whole; [lia|done|done|done].
  - intros Hone HN'. unfold consensusThreshold.
    rewrite phiThreshold_whole; [|lia|done|done|done].
    f_equal. rewrite Hone. cbn [floorMul]. change (0 <=? -23) with false. cbv iota.
    change (- -23) with 23. change (Z.pos 8388608) with (2 ^ 23).
    rewrite Z.div_mul by lia. lia.
Qed.

End ThresholdMore.

(** ** The chains of the crypto test suite *)
Module CryptoSuiteFacts.
Import CryptoSuite.
Section Facts.

Variable now : nat -> Time.
Variable HashBlock : FBlock -> Hash * option Err.
Variable SignBlock : FBlock -> FBlock * option Err.

(** What [newBlock] returns: the block [prepareBlock] made, with the hash
    [HashBlock] computed for it while its hash was still zero. *)
Lemma newBlock_inv prev tick b tick' :
  newBlock now HashBlock prev tick = GoesOn b tick' ->
  tick' = S (S tick)
  /\ HashBlock (setHash 0%N b) = (BHash (block b), None)
  /\ Timestamp (block b) = now tick
  /\ linked (Some b) [] /\ linked prev [b].
Proof.
  unfold newBlock, prepareBlock. intros Hrun.
  destruct prev as [p|].
  - case_bool_decide as Hz; [done|].
    destruct (HashBlock _) as [h [e|]] eqn:Hh; [done|]. simplify_eq/=.
    unfold setHash; cbn. by rewrite Hh.
  - destruct (HashBlock _) as [h [e|]] eqn:Hh; [done|]. simplify_eq/=.
    unfold setHash; cbn. by rewrite Hh.
Qed.

Lemma compactionLoop_inv n : forall prev tick bs tick',
  compactionLoop now HashBlock n prev tick = GoesOn bs tick' ->
  length bs = n /\ tick' = (tick + 2 * n)%nat /\ linked prev bs
  /\ Forall (fun b => HashBlock (setHash 0%N b) = (BHash (block b), None)) bs.
Proof.
  induction n as [|n IH]; intros prev tick bs tick' Hrun.
  { cbn in Hrun. simplify_eq. cbn. split; [done|]. split; [lia|]. done. }
  cbn [compactionLoop] in Hrun.
  destruct (newBlock now HashBlock prev tick) as [b t1| |] eqn:Hnew; [|done|done].
  destruct (compactionLoop now HashBlock n (Some b) t1) as [bs1 t2| |] eqn:Hrest; [|done|done].
  simplify_eq. apply newBlock_inv in Hnew as (-> & Hhash & _ & _ & Hlink).
  apply IH in Hrest as (Hlen & -> & Hlinked & Hall).
  split; [cbn; lia|]. split; [lia|]. split.
  - cbn [linked] in *. destruct Hlink as [Hl _]. done.
  - by constructor.
Qed.

Lemma linked_heights bs : forall prev k,
  (Z.of_nat k + Z.of_nat (length bs) <= 2 ^ 64)%Z ->
  match prev with
  | None => k = 0%nat
  | Some p => Height (Position_ (block p)) = N.of_nat (pred k)
              /\ fin_Height (Finalization p) = N.of_nat (pred k) /\ (0 < k)%nat
  end ->
  linked prev bs ->
  forall i b, bs !! i = Some b ->
    Height (Position_ (block b)) = N.of_nat (k + i)
    /\ fin_Height (Finalization b) = N.of_nat (k + i).
Proof.
  induction bs as [|b0 bs IH]; intros prev k Hlen Hprev Hl i b Hi; [done|].
  cbn [linked] in Hl. destruct Hl as [Hhead Hrest]. cbn [length] in Hlen.
  assert (Hb0 : Height (Position_ (block b0)) = N.of_nat k
                /\ fin_Height (Finalization b0) = N.of_nat k).
  { destruct prev as [p|].
    - destruct Hhead as (_ & _ & -> & ->). destruct Hprev as (-> & -> & Hk).
      rewrite N.mod_small by lia. lia.
    - destruct Hhead as (_ & -> & ->). subst k. done. }
  destruct i as [|i]; cbn in Hi.
  - simplify_eq. by rewrite Nat.add_0_r.
  - replace (k + S i)%nat with (S k + i)%nat by lia.
    apply (IH (Some b0) (S k)); [lia| |done|done].
    destruct Hb0 as [-> ->]. cbn. split; [done|]. split; [done|lia].
Qed.

(** X28.  [generateCompactionChain] builds a chain: it returns as many blocks as
    asked for, the first a genesis block, each next one with the hash of
    the one before it as parent hash; block [i] has height [i], in its
    position and in its finalization; each hash is the one [HashBlock] gives
    the block while its hash field is zero; the clock was read twice per
    block. *)
Theorem generateCompactionChain_links
    (length : Z) (tick : nat) (bs : list FBlock) (tick' : nat) :
  length <= 2 ^ 64 ->
  generateCompactionChain now HashBlock length tick = GoesOn bs tick' ->
  Z.of_nat (List.length bs) = length
  /\ tick' = (tick + 2 * List.length bs)%nat
  /\ linked None bs
  /\ (forall i b, bs !! i = Some b ->
        Height (Position_ (block b)) = N.of_nat i
        /\ fin_Height (Finalization b) = N.of_nat i
        /\ HashBlock (setHash 0%N b) = (BHash (block b), None)).
Proof.
  intros Hmax. unfold generateCompactionChain.
  destruct (Z.ltb_spec length 0) as [?|Hpos]; [done|].
  intros Hrun. apply compactionLoop_inv in Hrun as (Hlen & -> & Hlinked & Hall).
  split; [lia|]. split; [by rewrite Hlen|]. split; [done|].
  intros i b Hi.
  destruct (linked_heights bs None 0%nat ltac:(lia) eq_refl Hlinked i b Hi) as [Hh Hf].
  split; [done|]. split; [done|].
  rewrite Forall_forall in Hall. apply Hall. by eapply list_elem_of_lookup_2.
Qed.

(** X29.  When [HashBlock] does not fail and never gives the zero hash,
    [generateCompactionChain] does return, for every length that is not
    negative. *)
Theorem generateCompactionChain_returns (length : Z) (tick : nat) :
  (forall b, snd (HashBlock b) = None /\ fst (HashBlock b) <> 0%N) ->
  0 <= length ->
  exists bs, generateCompactionChain now HashBlock length tick
             = GoesOn bs (tick + 2 * Z.to_nat length)%nat.
Proof.
  intros Hhash Hpos. unfold generateCompactionChain.
  destruct (Z.ltb_spec length 0) as [?|_]; [lia|].
  generalize (Z.to_nat length) as n. clear length Hpos.
  assert (Hgen : forall n prev tick,
            match prev with Some p => BHash (block p) <> 0%N | None => True end ->
            exists bs, compactionLoop now HashBlock n prev tick = GoesOn bs (tick + 2 * n)%nat).
  { induction n as [|n IH]; intros prev t Hprev.
    { exists []. cbn. f_equal. lia. }
    cbn [compactionLoop]. unfold newBlock, prepareBlock.
    destruct prev as [p|].
    - rewrite bool_decide_eq_false_2 by done.
      destruct (HashBlock _) as [h e] eqn:Hh.
      pose proof (Hhash (mkFBlock
        (mkBlock 0%N (BHash (block p)) 0%N
           (mkPosition 0 0 0 ((Height (Position_ (block p)) + 1) mod 2 ^ 64)%N)
           (now t) [] [] (mkWitness 0 []) [])
        (mkFinalization (now (S t)) ((fin_Height (Finalization p) + 1) mod 2 ^ 64)%N)))
        as [He Hnz].
      rewrite Hh in He, Hnz. cbn in He, Hnz. subst e.
      destruct (IH (Some (setHash h (mkFBlock
        (mkBlock 0%N (BHash (block p)) 0%N
           (mkPosition 0 0 0 ((Height (Position_ (block p)) + 1) mod 2 ^ 64)%N)
           (now t) [] [] (mkWitness 0 []) [])
        (mkFinalization (now (S t)) ((fin_Height (Finalization p) + 1) mod 2 ^ 64)%N))))
        (S (S t))) as [bs Hbs]; [done|].
      rewrite Hbs. eexists. f_equal. lia.
    - destruct (HashBlock _) as [h e] eqn:Hh.
      pose proof (Hhash (mkFBlock
        (mkBlock 0%N 0%N 0%N (mkPosition 0 0 0 0) (now t) [] [] (mkWitness 0 []) [])
        (mkFinalization (now (S t)) 0))) as [He Hnz].
      rewrite Hh in He, Hnz. cbn in He, Hnz. subst e.
      destruct (IH (Some (setHash h (mkFBlock
        (mkBlock 0%N 0%N 0%N (mkPosition 0 0 0 0) (now t) [] [] (mkWitness 0 []) [])
        (mkFinalization (now (S t)) 0)))) (S (S t))) as [bs Hbs]; [done|].
      rewrite Hbs. eexists. f_equal. lia. }
  intros n. by apply Hgen.
Qed.

Lemma blockChainLoop_inv n : forall tick bs tick',
  blockChainLoop now HashBlock SignBlock n None tick = GoesOn bs tick' ->
  length bs = n /\ tick' = (tick + 2 * n)%nat
  /\ forall i b, bs !! i = Some b ->
       exists b0, SignBlock b0 = (b, None)
         /\ linked None [b0]
         /\ Timestamp (block b0) = now (tick + 2 * i)%nat
         /\ HashBlock (setHash 0%N b0) = (BHash (block b0), None).
Proof.
  induction n as [|n IH]; intros tick bs tick' Hrun.
  { cbn in Hrun. simplify_eq. split; [done|]. split; [lia|]. done. }
  cbn [blockChainLoop] in Hrun.
  destruct (newBlock now HashBlock None tick) as [b t1| |] eqn:Hnew; [|done|done].
  destruct (SignBlock b) as [b' [e|]] eqn:Hsign; [done|].
  destruct (blockChainLoop now HashBlock SignBlock n None t1) as [bs1 t2| |] eqn:Hrest;
    [|done|done].
  simplify_eq. apply newBlock_inv in Hnew as (-> & Hhash & Htime & _ & Hlink).
  apply IH in Hrest as (Hlen & -> & Hall).
  split; [cbn; lia|]. split; [lia|].
  intros [|i] b1 Hi; cbn in Hi.
  - simplify_eq. exists b. rewrite Nat.add_0_r. done.
  - destruct (Hall i b1 Hi) as (b0 & ? & ? & Ht & ?). exists b0.
    replace (tick + 2 * S i)%nat with (S (S tick) + 2 * i)%nat by lia. done.
Qed.

(** X30.  [generateBlockChain] does not build a chain: the previous block is
    never recorded, so every block it hands to the signer is a genesis
    block (zero parent hash, height 0), stamped with its own reading of the
    clock; the blocks it returns are what the signer made of these. *)
Theorem generateBlockChain_never_links
    (length : Z) (tick : nat) (bs : list FBlock) (tick' : nat) :
  generateBlockChain now HashBlock SignBlock length tick = GoesOn bs tick' ->
  Z.of_nat (List.length bs) = length
  /\ forall i b, bs !! i = Some b ->
       exists b0, SignBlock b0 = (b, None)
         /\ ParentHash (block b0) = 0%N
         /\ Height (Position_ (block b0)) = 0%N
         /\ fin_Height (Finalization b0) = 0%N
         /\ Timestamp (block b0) = now (tick + 2 * i)%nat
         /\ HashBlock (setHash 0%N b0) = (BHash (block b0), None).
Proof.
  unfold generateBlockChain.
  destruct (Z.ltb_spec length 0) as [?|Hpos]; [done|].
  intros Hrun. apply blockChainLoop_inv in Hrun as (Hlen & _ & Hall).
  split; [lia|]. intros i b Hi.
  destruct (Hall i b Hi) as (b0 & Hs & Hl & Ht & Hh). exists b0.
  cbn in Hl. destruct Hl as [(? & ? & ?) _]. done.
Qed.

End Facts.
End CryptoSuiteFacts.

(** ** The pool and its replay *)
Module ReplayFacts.
Import Lattice LatticeReplay.
Section Facts.

Context `{Crypto, Authenticator, Application, BlockDatabase, BlockPool,
          LatticeDataI, TotalOrderingI, ConsensusTimestampI}.

Ltac unfold_run :=
  unfold when, emit, mbind, M_bind, bind, mret, M_ret, ret, gets, modify, deref in *.

(** At most one block per chain is checked again. *)
Lemma recheckedTips_length l : forall w, (length (recheckedTips l w) <= length l)%nat.
Proof.
  induction l as [|i l IH]; intros w; cbn [recheckedTips length]; [lia|].
  rewrite length_app.
  assert (length (option_list (pool_tip (pool w) (heap w) i)) <= 1)%nat
    by (destruct (pool_tip (pool w) (heap w) i); simpl; lia).
  destruct (replayTip i ([], None) w) as [[v e] w'|w'];
    [specialize (IH w')|cbn [length]]; lia.
Qed.

Lemma accepted_ext w w' p :
  heap w' = heap w -> data w' = data w -> accepted w' p = accepted w p.
Proof. unfold accepted. by intros -> ->. Qed.

(** One round of the replay: the state it leaves does not depend on the
    results so far, it touches neither the blocks nor the lattice data, and
    what it adds to [verified] is the tip it checked, if that one passes. *)
Lemma replayTip_round i v e w v' e' w' :
  replayTip i (v, e) w = Done (v', e') w' ->
  (exists v0 e0, replayTip i ([], None) w = Done (v0, e0) w')
  /\ heap w' = heap w /\ data w' = data w
  /\ v' = v ++ filter (fun p => accepted w p = true)
                  (option_list (pool_tip (pool w) (heap w) i)).
Proof.
  unfold replayTip, accepted. rewrite !LatticeFacts.run_gets.
  destruct (pool_tip (pool w) (heap w) i) as [tip|].
  2:{ intros Hrun. unfold_run. simplify_eq/=. rewrite app_nil_r. eauto 10. }
  destruct (heap w !! tip) as [blk|] eqn:Hblk.
  2:{ by rewrite (LatticeFacts.run_deref_nil _ _ _ Hblk). }
  rewrite !(LatticeFacts.run_deref _ blk) by done. rewrite !LatticeFacts.run_gets.
  change (option_list (Some tip)) with [tip]. rewrite filter_cons, filter_nil, Hblk.
  destruct (data_sanityCheck (data w) (heap w) blk) as [err|] eqn:Hcheck.
  - rewrite decide_False by (rewrite bool_decide_eq_true; done).
    rewrite app_nil_r. case_bool_decide.
    + intros Hrun. unfold_run. simplify_eq/=. eauto 10.
    + rewrite !LatticeFacts.run_modify. intros Hrun. unfold_run. simplify_eq/=. eauto 10.
  - rewrite decide_True by (rewrite bool_decide_eq_true; done).
    rewrite bool_decide_eq_false_2 by done. rewrite !LatticeFacts.run_modify.
    intros Hrun. unfold_run. simplify_eq/=. eauto 10.
Qed.

(** The replay returns as verified the blocks it checked again that pass
    the check. *)
Lemma replayTips_rechecked l : forall v e w v' e' w',
  forEach l replayTip (v, e) w = Done (v', e') w' ->
  v' = v ++ filter (fun p => accepted w p = true) (recheckedTips l w).
Proof.
  induction l as [|i l IH]; intros v e w v' e' w' Hrun.
  { simpl in Hrun. unfold_run. simplify_eq/=. by rewrite app_nil_r. }
  rewrite LatticeFacts.forEach_cons in Hrun.
  destruct (replayTip i (v, e) w) as [[v1 e1] w1|w1] eqn:Hstep; [|done].
  apply replayTip_round in Hstep as ((v0 & e0 & Hstate) & Hh & Hd & ->).
  apply IH in Hrun as ->.
  cbn [recheckedTips]. rewrite Hstate, filter_app, <- app_assoc. do 2 f_equal.
  apply list_filter_iff. intros p. by rewrite (accepted_ext w w1).
Qed.

(** C6, amended.  When [SanityCheck] fails with [ErrAckingBlockNotExists] it
    has put the block into the pool; when it fails with any other error the
    pool is as it was.  A later [ProcessBlock] that admits and persists its
    input checks again only the tips of the pool, at most one block for each
    chain, and returns as verified those of them that pass: a block that was
    put into the pool is checked again by an invocation only if it is the
    tip of its chain when the loop comes to that chain. *)
Theorem SanityCheck_shelves_and_tips_are_rechecked (b : ptr) (w w' : World) (e : Err) :
  SanityCheck b w = Done (Some e) w' ->
  (e = ErrAckingBlockNotExists -> pool w' = pool_addBlock (pool w) (heap w) b)
  /\ (e <> ErrAckingBlockNotExists -> pool w' = pool w)
  /\ forall input w1 blk d' db' inLattice verified delivered err w2,
       data_addBlock (data w1) (heap w1) input = (d', inr inLattice) ->
       heap w1 !! input = Some blk ->
       db_Put (db w1) blk = (db', None) ->
       ProcessBlock input w1 = Done (verified, delivered, err) w2 ->
       let rechecked :=
         recheckedTips (chainIDs (chainNum w1)) (afterPurge w1 blk d' db') in
       (length rechecked <= N.to_nat (chainNum w1))%nat
       /\ verified = filter (fun p => accepted (afterPurge w1 blk d' db') p = true) rechecked.
Proof.
  intros Hrun.
  destruct (LatticeFacts.SanityCheck_shelves_only_missing_acks b w w' e Hrun) as [Hadd Hkeep].
  split; [done|]. split; [done|].
  intros input w1 blk d' db' inLattice verified delivered err w2 Hin Hblk Hput Hproc.
  cbv zeta. split.
  { etrans; [apply recheckedTips_length|]. unfold chainIDs.
    by rewrite length_map, length_seq. }
  rewrite (LatticeFacts.ProcessBlock_persisted _ _ _ _ _ _ Hin Hblk Hput) in Hproc.
  rewrite LatticeMore.run_bind in Hproc.
  destruct (replayTips _ _ _) as [[v e1] w3|w3] eqn:Hreplay; [|done].
  apply LatticeMore.orderLoop_verified in Hproc as ->.
  unfold replayTips in Hreplay.
  by apply replayTips_rechecked in Hreplay.
Qed.

End Facts.
End ReplayFacts.

(** ** Blocks on their way into the modules *)
Module IngressFacts.
Import SpecModel Doubles.
Section Facts.

Context {cryptoI : Crypto} {dbI : BlockDatabase} {poolI : BlockPool}
        {dataI : LatticeDataI} {toI : TotalOrderingI} {ctI : ConsensusTimestampI}
        {rbI : ReliableBroadcastI} {ccI : CompactionChainI}.

(** [Consensus.sanityCheck] and [block.Clone()] read the block and leave
    its address behind. *)
Lemma sanityCheck_by_value (block block' : ptr) (w : Consensus.World) :
  Consensus.heap w !! block = Consensus.heap w !! block' ->
  Consensus.sanityCheck block w = Consensus.sanityCheck block' w.
Proof.
  intros Heq. unfold Consensus.sanityCheck.
  rewrite !ConsensusMore.step_bind. unfold Consensus.deref. by rewrite Heq.
Qed.

Lemma sanityCheck_heap (block : ptr) (w w' : Consensus.World) r :
  Consensus.sanityCheck block w = Done r w' -> Consensus.heap w' = Consensus.heap w.
Proof.
  unfold Consensus.sanityCheck, Consensus.deref, Consensus.emit,
    mbind, M_bind, bind, mret, M_ret, ret, gets, modify.
  intros Hrun. repeat (case_match; simplify_eq/=); done.
Qed.

Lemma clone_by_value (block block' : ptr) (w : Consensus.World) :
  Consensus.heap w !! block = Consensus.heap w !! block' ->
  Consensus.clone block w = Consensus.clone block' w.
Proof.
  intros Heq. unfold Consensus.clone.
  rewrite !ConsensusMore.step_bind. unfold Consensus.deref. by rewrite Heq.
Qed.

Lemma processBlock_by_value (block block' : ptr) (w : Consensus.World) :
  Consensus.heap w !! block = Consensus.heap w !! block' ->
  Consensus.processBlock block w = Consensus.processBlock block' w.
Proof.
  intros Heq. unfold Consensus.processBlock.
  rewrite !ConsensusMore.step_bind, (sanityCheck_by_value block block') by done.
  destruct (Consensus.sanityCheck block' w) as [[e|] w1|w1] eqn:Hcheck; [done| |done].
  apply sanityCheck_heap in Hcheck.
  assert (Heq1 : Consensus.heap w1 !! block = Consensus.heap w1 !! block')
    by (by rewrite Hcheck).
  rewrite !ConsensusMore.step_bind, (clone_by_value block block') by done.
  destruct (Consensus.clone block' w1) as [b w2|w2] eqn:Hclone; [|done].
  assert (Heq2 : Consensus.heap w2 !! block = Consensus.heap w2 !! block').
  { pose proof Hclone as Hclone'. rewrite <- (clone_by_value block block') in Hclone' by done.
    apply ConsensusFacts.clone_fresh in Hclone as (blk & Hb & _ & _ & _ & Hafter).
    apply ConsensusFacts.clone_fresh in Hclone' as (blk' & Hb' & _ & _ & _ & Hafter').
    congruence. }
  unfold Consensus.deref, Consensus.emit, mbind, M_bind, bind, mret, M_ret, ret, gets, modify.
  destruct (rb_processBlock (Consensus.rbModule w2) (Consensus.heap w2) b) as [rb' [e|]];
    [done|].
  cbn [Consensus.heap Consensus.set_rbModule]. by rewrite Heq2.
Qed.

Ltac keeps_step :=
  first
    [ apply LatticeFacts.keeps_ret
    | apply LatticeFacts.keeps_gets
    | apply LatticeFacts.keeps_deref
    | apply LatticeFacts.keeps_modify; intros ?; reflexivity
    | apply LatticeFacts.keeps_when
    | apply LatticeFacts.keeps_bind; [|intros ?]
    | case_match ].

(** [Lattice.ProcessBlock] makes no copy: the pointer goes to [addBlock],
    the block it points to goes to the database, and nothing else is made
    of either. *)
Lemma ProcessBlock_by_addBlock (input input' : ptr) (w : Lattice.World) :
  Lattice.heap w !! input = Lattice.heap w !! input' ->
  data_addBlock (Lattice.data w) (Lattice.heap w) input
  = data_addBlock (Lattice.data w) (Lattice.heap w) input' ->
  Lattice.ProcessBlock input w = Lattice.ProcessBlock input' w.
Proof.
  intros Heq Hadd.
  destruct (data_addBlock (Lattice.data w) (Lattice.heap w) input')
    as [d' [e|inLattice]] eqn:Hadd'.
  { by rewrite (LatticeFacts.ProcessBlock_rejected _ _ _ _ Hadd),
               (LatticeFacts.ProcessBlock_rejected _ _ _ _ Hadd'). }
  destruct (Lattice.heap w !! input') as [blk|] eqn:Hblk.
  2:{ by rewrite (LatticeFacts.ProcessBlock_nil _ _ _ _ Hadd Heq),
                 (LatticeFacts.ProcessBlock_nil _ _ _ _ Hadd' Hblk). }
  destruct (db_Put (Lattice.db w) blk) as [db' [e|]] eqn:Hput.
  { by rewrite (LatticeFacts.ProcessBlock_put_failed _ _ _ _ _ _ _ Hadd Heq Hput),
               (LatticeFacts.ProcessBlock_put_failed _ _ _ _ _ _ _ Hadd' Hblk Hput). }
  by rewrite (LatticeFacts.ProcessBlock_persisted _ _ _ _ _ _ Hadd Heq Hput),
             (LatticeFacts.ProcessBlock_persisted _ _ _ _ _ _ Hadd' Hblk Hput).
Qed.

Lemma orderLoop_keeps_db inLattice : forall verified delivered err,
  Lattice.keeps Lattice.db (Lattice.orderLoop inLattice verified delivered err).
Proof.
  induction inLattice as [|b rest IH]; intros verified delivered err; simpl.
  - apply LatticeFacts.keeps_ret.
  - repeat (first [apply IH | apply LatticeFacts.hashesOf_keeps | keeps_step]).
Qed.

Lemma replayTips_keeps_db n acc : Lattice.keeps Lattice.db (Lattice.replayTips n acc).
Proof.
  apply LatticeFacts.keeps_forEach. intros i [v e]. unfold Lattice.replayTip.
  repeat keeps_step.
Qed.

(** The database has the block as it was when [Put] took it. *)
Lemma ProcessBlock_db (input : ptr) (w : Lattice.World) :
  Lattice.db (final (Lattice.ProcessBlock input w)) =
  match snd (data_addBlock (Lattice.data w) (Lattice.heap w) input),
        Lattice.heap w !! input with
  | inr _, Some blk => fst (db_Put (Lattice.db w) blk)
  | _, _ => Lattice.db w
  end.
Proof.
  destruct (data_addBlock (Lattice.data w) (Lattice.heap w) input)
    as [d' [e|inLattice]] eqn:Hadd.
  { by rewrite (LatticeFacts.ProcessBlock_rejected _ _ _ _ Hadd). }
  destruct (Lattice.heap w !! input) as [blk|] eqn:Hblk.
  2:{ by rewrite (LatticeFacts.ProcessBlock_nil _ _ _ _ Hadd Hblk). }
  destruct (db_Put (Lattice.db w) blk) as [db' [e|]] eqn:Hput.
  { by rewrite (LatticeFacts.ProcessBlock_put_failed _ _ _ _ _ _ _ Hadd Hblk Hput). }
  rewrite (LatticeFacts.ProcessBlock_persisted _ _ _ _ _ _ Hadd Hblk Hput).
  match goal with |- context [final (?m (Lattice.afterPurge _ _ _ _))] =>
    assert (Htail : Lattice.keeps Lattice.db m)
  end.
  { apply LatticeFacts.keeps_bind; [apply replayTips_keeps_db|].
    intros [v e]. apply orderLoop_keeps_db. }
  by rewrite Htail.
Qed.

End Facts.

(** The lattice data of the specification read the block behind the
    pointer and nothing else. *)
Lemma spec_addBlock_by_value (d : SpecData) (h h' : Heap) (p p' : ptr) :
  h !! p = h' !! p' -> spec_addBlock d h p = spec_addBlock d h' p'.
Proof. intros Heq. unfold spec_addBlock. by rewrite Heq. Qed.


End IngressFacts.

(** ** More runs on the stand-ins *)
Module MoreRuns.
Import Lattice SpecModel Doubles Scenarios MoreScenarios.

Lemma SanityCheck_accepts_witness :
  exists w', SanityCheck 2%positive worldChild = Done None w'.
Proof.
  apply (proj1 (LatticeMore.SanityCheck_accepts_iff 2%positive worldChild child
                  ltac:(vm_compute; reflexivity))).
  split; [vm_compute; reflexivity|]. split; [vm_compute; reflexivity|].
  split; [exists [7%N]; split; vm_compute; reflexivity|].
  split; vm_compute; reflexivity.
Defined.

Lemma SanityCheck_checks_in_order_witness :
  exists d, log (final (SanityCheck 2%positive worldTwice)) = log worldTwice ++ d
    /\ ((~ (hashBlock twice = Some (BHash twice) /\ acksSorted (Acks twice) = true) /\ d = [])
        \/ ((hashBlock twice = Some (BHash twice) /\ acksSorted (Acks twice) = true)
            /\ ~ (exists pubKey, SigToPub (BHash twice) (Signature twice) = inr pubKey
                                 /\ ProposerID twice = Keccak256Hash pubKey)
            /\ d = [EvSigToPub (BHash twice) (Signature twice)])
        \/ ((hashBlock twice = Some (BHash twice) /\ acksSorted (Acks twice) = true)
            /\ (exists pubKey, SigToPub (BHash twice) (Signature twice) = inr pubKey
                               /\ ProposerID twice = Keccak256Hash pubKey)
            /\ d = [EvSigToPub (BHash twice) (Signature twice);
                    EvVerifyBlock (BHash twice)])).
Proof.
  exact (LatticeMore.SanityCheck_checks_in_order 2%positive worldTwice twice
           ltac:(vm_compute; reflexivity)).
Defined.

Lemma acksSorted_iff_ascending_witness :
  (acksSorted [mkAck 0 1 5%N; mkAck 1 0 6%N; mkAck 1 3 7%N] = true
   <-> strictlyAscending [mkAck 0 1 5%N; mkAck 1 0 6%N; mkAck 1 3 7%N])
  /\ ((length [mkAck 0 1 5%N; mkAck 1 0 6%N; mkAck 1 3 7%N] <= 1)%nat ->
      acksSorted [mkAck 0 1 5%N; mkAck 1 0 6%N; mkAck 1 3 7%N] = true).
Proof.
  apply (@LatticeMore.acksSorted_iff_ascending toyCrypto).
  exact Runs.ackLess_trans.
Defined.

Lemma ProcessBlock_without_debug_witness :
  exists d, log (final (ProcessBlock 2%positive worldQuiet)) = log worldQuiet ++ d
    /\ (d = [] \/ exists blk ok, heap worldQuiet !! 2%positive = Some blk
                                 /\ d = [EvDBPut blk ok]).
Proof. exact (LatticeMore.ProcessBlock_without_debug 2%positive worldQuiet eq_refl). Defined.

Lemma ProcessBlock_replays_the_pool :
  ProcessBlock 2%positive worldReplay
  = Done ([3%positive], [], None) (final (ProcessBlock 2%positive worldReplay)).
Proof. vm_compute. reflexivity. Qed.

Lemma ProcessBlock_verified_blocks_witness :
  (length [3%positive] <= N.to_nat (chainNum worldReplay))%nat
  /\ forall p, p ∈ [3%positive] ->
       exists blk, heap worldReplay !! p = Some blk
         /\ data_sanityCheck
              (fst (data_addBlock (data worldReplay) (heap worldReplay) 2%positive))
              (heap worldReplay) blk = None.
Proof.
  exact (LatticeMore.ProcessBlock_verified_blocks 2%positive worldReplay _ _ _ _
           ProcessBlock_replays_the_pool).
Defined.

Lemma Consensus_sanityCheck_accepts_witness :
  exists w', Consensus.sanityCheck 1%positive (conWorld false) = Done None w'.
Proof.
  apply (proj1 (ConsensusMore.Consensus_sanityCheck_accepts_iff 1%positive (conWorld false) genesis
                  ltac:(vm_compute; reflexivity))).
  split; [vm_compute; reflexivity|]. split; [vm_compute; reflexivity|].
  split; [vm_compute; reflexivity|].
  exists [7%N]; split; vm_compute; reflexivity.
Defined.

Lemma prepare_refusals_witness :
  ConsensusPrepare.prepareBlock 1%positive 50 (conWorldOf blank)
  = Done (Some (ConsensusPrepare.ErrMissingBlockInfo "ProposerID")) (conWorldOf blank)
  /\ ConsensusPrepare.PrepareGenesisBlock 1%positive 50 (conWorldOf blank)
     = Done (Some (ConsensusPrepare.ErrMissingBlockInfo "ProposerID")) (conWorldOf blank)
  /\ ConsensusPrepare.Error "ProposerID" = "missing ProposerID in block".
Proof.
  apply (PrepareFacts.prepare_refusals_touch_nothing 1%positive 50 (conWorldOf blank) blank).
  - vm_compute; reflexivity.
  - reflexivity.
Defined.

Lemma toyHash_covers x h sig :
  hashBlock (ConsensusPrepare.withSignature sig (ConsensusPrepare.withHash h x)) = hashBlock x.
Proof. done. Qed.

Lemma toyKey_signs h sig :
  ConsensusPrepare.Sign h = (sig, None) ->
  exists pubKey, SigToPub h sig = inr pubKey /\ Keccak256Hash pubKey = ProposerID draft.
Proof. intros Hs. cbn in Hs. simplify_eq. by exists [7%N]. Qed.

Lemma PrepareGenesisBlock_then_sanityCheck_witness :
  exists w'', Consensus.sanityCheck 1%positive
                (final (ConsensusPrepare.PrepareGenesisBlock 1%positive 50 (conWorldOf draft)))
              = Done None w''.
Proof.
  apply (PrepareFacts.PrepareGenesisBlock_then_sanityCheck 1%positive 50 (conWorldOf draft)
           (final (ConsensusPrepare.PrepareGenesisBlock 1%positive 50 (conWorldOf draft)))
           draft toyHash_covers toyKey_signs).
  - vm_compute; reflexivity.
  - reflexivity.
  - vm_compute; reflexivity.
  - vm_compute; reflexivity.
Defined.

Lemma prepareBlock_then_sanityCheck_witness :
  exists w'', Consensus.sanityCheck 1%positive
                (final (ConsensusPrepare.prepareBlock 1%positive 50 (conWorldOf draft)))
              = Done None w''.
Proof.
  apply (PrepareFacts.prepareBlock_then_sanityCheck 1%positive 50 (conWorldOf draft)
           (final (ConsensusPrepare.prepareBlock 1%positive 50 (conWorldOf draft)))
           draft toyHash_covers toyKey_signs).
  - vm_compute; reflexivity.
  - reflexivity.
  - vm_compute; reflexivity.
  - vm_compute; reflexivity.
Defined.

Lemma notaries_size : (N.of_nat (size notaries) < 2 ^ 32)%N.
Proof. vm_compute. reflexivity. Qed.

Lemma legacyChainID_is_rank_witness :
  ConsensusPrepare.legacyChainID notaries 5%N
  = N.of_nat (size (ConsensusPrepare.notariesBelow notaries 5%N))
  /\ (ConsensusPrepare.legacyChainID notaries 5%N < ConsensusPrepare.legacyChainNum notaries)%N
  /\ ConsensusPrepare.sortedHashes notaries
       !! N.to_nat (ConsensusPrepare.legacyChainID notaries 5%N) = Some 5%N.
Proof.
  apply (LegacyFacts.legacyChainID_is_rank notaries 5%N); [|exact notaries_size].
  apply (bool_decide_unpack _). vm_compute. exact I.
Defined.

Lemma legacyChainID_of_the_notaries :
  ConsensusPrepare.legacyChainID notaries 2%N = 0%N
  /\ ConsensusPrepare.legacyChainID notaries 5%N = 1%N
  /\ ConsensusPrepare.legacyChainID notaries 9%N = 2%N
  /\ ConsensusPrepare.legacyChainID notaries 7%N = 0%N
  /\ ConsensusPrepare.legacyChainNum notaries = 3%N.
Proof. vm_compute. done. Qed.

Lemma legacyChainID_distinct_witness : 9%N = 9%N.
Proof.
  apply (LegacyFacts.legacyChainID_distinct notaries 9%N 9%N).
  - apply (bool_decide_unpack _). vm_compute. exact I.
  - apply (bool_decide_unpack _). vm_compute. exact I.
  - exact notaries_size.
  - reflexivity.
Defined.

Lemma legacyChainID_outsider_witness :
  ConsensusPrepare.legacyChainID notaries 7%N = 0%N
  /\ (forall m, m ∈ notaries -> (forall x, x ∈ notaries -> (m <= x)%N) ->
        ConsensusPrepare.legacyChainID notaries m
        = ConsensusPrepare.legacyChainID notaries 7%N)
  /\ (notaries = ∅ ->
        ~ (ChainID (Position_ (ConsensusPrepare.legacyGenesis notaries 7%N))
           < ConsensusPrepare.legacyChainNum notaries)%N).
Proof.
  apply (LegacyFacts.legacyChainID_outsider notaries 7%N).
  apply (bool_decide_unpack _). vm_compute. exact I.
Defined.

Lemma NewStats_returns_on_statsGood :
  exists st, Stats.NewStats statsGood statsApps = Stats.Returns (Some st, None).
Proof. eexists. vm_compute. reflexivity. Qed.

Lemma NewStats_counts_witness :
  exists st, StatsCount.counted (Stats.All st) statsGood
             /\ StatsCount.countedByNode (Stats.ByNode st) statsGood.
Proof.
  destruct NewStats_returns_on_statsGood as [st0 Hret].
  destruct (StatsMore.NewStats_counts statsGood statsApps (Some st0) None
              ltac:(vm_compute; reflexivity) Hret) as (st & _ & _ & Hall & Hm).
  exists st. split; assumption.
Defined.

Lemma NewStats_needs_a_received_block_witness :
  exists k, Stats.NewStats (take 2 statsHistory) statsApps = Stats.Panics k.
Proof.
  apply (StatsMore.NewStats_needs_a_received_block (take 2 statsHistory) statsApps).
  repeat constructor.
Defined.

Lemma events_need_their_parent_witness :
  Stats.newBlockReceiveEvent Stats.emptyStatsSet
    (Stats.mkEvent 1%N 200 10 (-1)
       (Stats.PayloadConsensus
          (Stats.mkPayload Stats.evtReceiveBlock (Stats.PiggyBlock genesis))))
    (Stats.mkPayload Stats.evtReceiveBlock (Stats.PiggyBlock genesis))
    statsGood (Some (Stats.mkApp ∅ ∅ ∅))
  = Stats.Panics Stats.PanicIndexOutOfRange.
Proof.
  apply (StatsMore.events_need_their_parent Stats.emptyStatsSet
           (Stats.mkEvent 1%N 200 10 (-1)
              (Stats.PayloadConsensus
                 (Stats.mkPayload Stats.evtReceiveBlock (Stats.PiggyBlock genesis))))).
  cbn. lia.
Defined.

Lemma summary_of_a_short_run_witness :
  exists st', Stats.summary
                (Some (Stats.mkStats {[1%N := Stats.emptyStatsSet]} Stats.emptyStatsSet
                         (S754_zero false) 0)) statsGood = Stats.Returns st'
    /\ Stats.ExecutionTime st' = 200
    /\ StatsCount.notFinite (Stats.BPS st') = true.
Proof.
  destruct (StatsMore.summary_of_a_short_run
              (Stats.mkStats {[1%N := Stats.emptyStatsSet]} Stats.emptyStatsSet
                 (S754_zero false) 0) statsGood
              (Stats.mkEvent 1%N 0 10 (-1)
                 (Stats.PayloadConsensus
                    (Stats.mkPayload Stats.evtProposeBlock Stats.PiggyOther)))
              (Stats.mkEvent 1%N 200 10 0
                 (Stats.PayloadConsensus
                    (Stats.mkPayload Stats.evtReceiveBlock (Stats.PiggyBlock genesis)))))
    as (st' & Hret & Htime & Hbps & _).
  - vm_compute. lia.
  - reflexivity.
  - reflexivity.
  - cbn. lia.
  - exists st'. split; [exact Hret|]. split; [exact Htime|exact Hbps].
Defined.

Lemma threshold_exact_witness :
  latticeThreshold configHalf = Some 3 /\ consensusThreshold 5 configHalf = Some 3.
Proof.
  destruct (ThresholdMore.threshold_exact_on_whole_products 5 configHalf) as (Hl & Hc & _).
  - lia.
  - vm_compute; reflexivity.
  - vm_compute; reflexivity.
  - vm_compute; reflexivity.
  - split; [exact (Hl eq_refl)|exact Hc].
Defined.

Lemma generateCompactionChain_returns_witness :
  exists bs, CryptoSuite.generateCompactionChain suiteNow suiteHash 3 0
             = CryptoSuite.GoesOn bs (0 + 2 * Z.to_nat 3)%nat.
Proof.
  apply (CryptoSuiteFacts.generateCompactionChain_returns suiteNow suiteHash 3 0%nat).
  - intros b. split; [reflexivity|]. unfold suiteHash. cbn. lia.
  - lia.
Defined.

Lemma generateCompactionChain_links_witness :
  exists bs, CryptoSuite.generateCompactionChain suiteNow suiteHash 3 0
             = CryptoSuite.GoesOn bs 6%nat
    /\ Z.of_nat (length bs) = 3
    /\ CryptoSuite.linked None bs.
Proof.
  eexists. split; [vm_compute; reflexivity|].
  destruct (CryptoSuiteFacts.generateCompactionChain_links suiteNow suiteHash 3 0%nat _ 6%nat
              ltac:(lia) ltac:(vm_compute; reflexivity)) as (Hlen & _ & Hlinked & _).
  split; [exact Hlen|exact Hlinked].
Defined.

Lemma generateBlockChain_never_links_witness :
  exists bs, CryptoSuite.generateBlockChain suiteNow suiteHash suiteSign 3 0
             = CryptoSuite.GoesOn bs 6%nat
    /\ Forall (fun b => Height (Position_ (CryptoSuite.block b)) = 0%N
                        /\ ParentHash (CryptoSuite.block b) = 0%N) bs.
Proof.
  eexists. split; [vm_compute; reflexivity|].
  apply Forall_lookup. intros i b Hi.
  destruct (CryptoSuiteFacts.generateBlockChain_never_links suiteNow suiteHash suiteSign
              3 0%nat _ 6%nat ltac:(vm_compute; reflexivity)) as (_ & Hall).
  destruct (Hall i b Hi) as (b0 & Hs & Hp & Hh & _).
  unfold suiteSign in Hs. simplify_eq. done.
Defined.

Lemma PreProcessBlock_is_guarded_witness :
  exists err w', ConsensusBA.PreProcessBlock 1%positive baWorld = Done err w'
    /\ ConsensusBA.baModules w' = [1%nat].
Proof.
  destruct (ConsensusBAFacts.PreProcessBlock_is_guarded 1%positive baWorld genesis)
    as (err & w' & Hrun & _).
  - vm_compute; reflexivity.
  - vm_compute; lia.
  - exists err, w'. split; [exact Hrun|].
    assert (Hc : ConsensusBA.baModules (final (ConsensusBA.PreProcessBlock 1%positive baWorld))
                 = [1%nat]) by (vm_compute; reflexivity).
    rewrite Hrun in Hc. exact Hc.
Defined.

(** A vote for chain 0 reaches the agreement; a vote for chain 1, which
    does not exist, makes [ProcessVote] panic. *)
Lemma ProcessVote_on_one_chain :
  ConsensusBA.ProcessVote (mkPosition 0 0 0 3) baWorld
  = Done None (ConsensusBA.mkBAWorld (conWorld false) [1%nat])
  /\ ConsensusBA.ProcessVote (mkPosition 0 0 1 3) baWorld = Panicked baWorld.
Proof. vm_compute. done. Qed.

(** The automaton on the run of [conRun]: it takes the record of the run as
    it is, and does not take it with the update and the delivery
    exchanged. *)
Lemma conRun_follows_the_protocol :
  Protocol.run Protocol.Start (Consensus.log (final (conRun false)))
  = Some Protocol.Delivering
  /\ Protocol.run Protocol.Start
       [EvSigToPub (BHash genesis) (Signature genesis);
        EvBlockConfirmed (BHash genesis);
        EvStronglyAcked (BHash genesis);
        EvDBPut genesis true;
        EvTotalOrderingDelivered [BHash genesis] false;
        EvBlockDelivered genesis;
        EvDBUpdate genesis true] = None.
Proof. vm_compute. done. Qed.

(** Both blocks are put into the pool, the lower one first. *)
Lemma worldShelved_pool :
  SanityCheck 3%positive worldShelf = Done (Some ErrAckingBlockNotExists) worldShelved3
  /\ SanityCheck 4%positive worldShelved3 = Done (Some ErrAckingBlockNotExists) worldShelved
  /\ pool worldShelved = [[3%positive; 4%positive]].
Proof. vm_compute. done. Qed.

(** C6, as stated, fails on a block that is put into the pool behind
    another block of its chain.  [SanityCheck] fails on the blocks at 3 and
    at 4 with [ErrAckingBlockNotExists] and puts both into the pool; the
    next admission, of their ancestor at 2, checks again the block at 3, the
    tip, and returns it as verified: the block at 4 is not checked again, it
    stays in the pool. *)
Lemma shelved_block_waits_behind_the_tip :
  SanityCheck 4%positive worldShelved3 = Done (Some ErrAckingBlockNotExists) worldShelved
  /\ pool worldShelved = [[3%positive; 4%positive]]
  /\ LatticeReplay.recheckedTips (chainIDs (chainNum worldShelved))
       (afterPurge worldShelved child
          (fst (data_addBlock (data worldShelved) (heap worldShelved) 2%positive))
          (fst (db_Put (db worldShelved) child)))
     = [3%positive]
  /\ ProcessBlock 2%positive worldShelved
     = Done ([3%positive], [], None) (final (ProcessBlock 2%positive worldShelved))
  /\ pool (final (ProcessBlock 2%positive worldShelved)) = [[4%positive]].
Proof. vm_compute. done. Qed.

Lemma SanityCheck_shelves_and_tips_witness :
  pool worldShelved
  = pool_addBlock (pool worldShelved3) (heap worldShelved3) 4%positive
  /\ [3%positive]
     = filter (fun p => LatticeReplay.accepted
                          (afterPurge worldShelved child
                             (fst (data_addBlock (data worldShelved) (heap worldShelved)
                                     2%positive))
                             (fst (db_Put (db worldShelved) child))) p = true)
         (LatticeReplay.recheckedTips (chainIDs (chainNum worldShelved))
            (afterPurge worldShelved child
               (fst (data_addBlock (data worldShelved) (heap worldShelved) 2%positive))
               (fst (db_Put (db worldShelved) child)))).
Proof.
  assert (Hrun : SanityCheck 4%positive worldShelved3
                 = Done (Some ErrAckingBlockNotExists) worldShelved)
    by (vm_compute; reflexivity).
  destruct (ReplayFacts.SanityCheck_shelves_and_tips_are_rechecked _ _ _ _ Hrun)
    as (Hadd & _ & Hreplay).
  split; [exact (Hadd eq_refl)|].
  refine (proj2 (Hreplay 2%positive worldShelved child
                   (fst (data_addBlock (data worldShelved) (heap worldShelved) 2%positive))
                   (fst (db_Put (db worldShelved) child))
                   [] [3%positive] [] None (final (ProcessBlock 2%positive worldShelved))
                   _ _ _ _)); vm_compute; reflexivity.
Defined.


(** The run of [worldTwin] admits the block: the lattice data hold [child]
    itself, and the database has it. *)
Lemma worldTwin_admits :
  sd_chains (data (final (ProcessBlock 2%positive worldTwin))) = [[genesis; child]]
  /\ stored (db (final (ProcessBlock 2%positive worldTwin))) = [child].
Proof. vm_compute. done. Qed.

(** Ten chains and four notaries: [NewLattice] counts the chains,
    [NewConsensus] the notaries. *)
Lemma threshold_counts_chains_or_notaries :
  latticeThreshold configTen = Some 7 /\ consensusThreshold 4 configTen = Some 3.
Proof. vm_compute. done. Qed.

End MoreRuns.
